(** * Credential lifecycle and provider adapter of the YouTube companion
      dashboard: a shallow embedding of the backend code and the properties
      of its encryption codec, refresh logic, session verification, error
      classification and comment ownership checks. *)

From Stdlib Require Import ZArith NArith List Bool Lia.
From Stdlib.Strings Require Import String Ascii Byte.
From Stdlib Require Import DecimalString.
From stdpp Require Import base option list gmap strings.

Local Open Scope Z_scope.

(** ** Thrown values *)

(** What the backend throws or receives as a rejection:
    - [JsError msg]      is [new Error(msg)] (and errors of node:crypto);
    - [ApiError st msg]  is the [ApiError] class of middleware/errorHandler;
    - [JwtError c msg]   is an error of the jsonwebtoken package, of class [c];
    - [HttpError r]      is a rejection of a googleapis call; [r] is its
                         [response] property when the provider answered. *)

Inductive JwtErrorClass := JsonWebTokenError | TokenExpiredError | NotBeforeError.

Record HttpResponse := {
  status : Z;                 (* error.response.status *)
  reasons : list string       (* error.response.data.error.errors[i].reason *)
}.

Inductive thrown :=
| JsError (message : string)
| ApiError (statusCode : Z) (message : string)
| JwtError (c : JwtErrorClass) (message : string)
| HttpError (response : option HttpResponse).

Inductive result (A : Type) :=
| Ok (a : A)
| Throw (e : thrown).
Arguments Ok {A} a.
Arguments Throw {A} e.

Definition isOk {A} (r : result A) : bool :=
  match r with Ok _ => true | Throw _ => false end.

(** JavaScript truthiness of an optional string: [undefined], [null] and the
    empty string are falsy. *)
Definition truthy (x : option string) : option string :=
  match x with
  | Some s => if String.eqb s "" then None else Some s
  | None => None
  end.

(** [x || d] on an optional string. *)
Definition orElse (x : option string) (d : string) : string :=
  match truthy x with Some s => s | None => d end.

(** ** Buffers and their hex text form *)

Module Buffer.

Definition hexDigit (n : N) : ascii :=
  if (n <? 10)%N then ascii_of_N (48 + n) else ascii_of_N (87 + n).

(** Value of a hex digit; both cases of the letters are accepted. *)
Definition unhex (c : ascii) : option N :=
  let n := N_of_ascii c in
  if ((48 <=? n) && (n <=? 57))%N then Some (n - 48)%N
  else if ((97 <=? n) && (n <=? 102))%N then Some (n - 87)%N
  else if ((65 <=? n) && (n <=? 70))%N then Some (n - 55)%N
  else None.

Definition byteOf (n : N) : byte :=
  match Byte.of_N n with Some b => b | None => x00 end.

(** [buf.toString('hex')]: two lower-case digits per byte. *)
Fixpoint toHex (b : list byte) : string :=
  match b with
  | [] => ""
  | x :: r =>
      String (hexDigit (Byte.to_N x / 16))
        (String (hexDigit (Byte.to_N x mod 16)) (toHex r))
  end.

(** [Buffer.from(s, 'hex')]: pairs of digits are decoded from the left;
    decoding stops at the first pair that is not two hex digits, and a
    trailing single character is dropped. *)
Fixpoint fromHex (s : string) : list byte :=
  match s with
  | String a (String b r) =>
      match unhex a, unhex b with
      | Some h, Some l => byteOf (16 * h + l) :: fromHex r
      | _, _ => []
      end
  | _ => []
  end.

(** [Buffer.from(s, 'utf8')] and [buf.toString('utf8')]: a text is held as
    the sequence of its UTF-8 bytes. *)
Definition fromUtf8 (s : string) : list byte := list_byte_of_string s.
Definition toUtf8 (b : list byte) : string := string_of_list_byte b.

End Buffer.

(** [s.split(sep)] for a one-character separator. *)
Fixpoint split (sep : ascii) (s : string) : list string :=
  match s with
  | EmptyString => [EmptyString]
  | String c r =>
      if Ascii.eqb c sep then EmptyString :: split sep r
      else match split sep r with
           | h :: t => String c h :: t
           | [] => [String c EmptyString]
           end
  end.

(** [s.length] counts UTF-16 code units, while a text is held here as its
    UTF-8 bytes: a character of one, two or three bytes is one unit, a
    character of four bytes is two (a surrogate pair).  [pending] is the
    number of continuation bytes the character being read still has; a
    continuation byte that belongs to no character counts as one unit. *)
Fixpoint units (pending : nat) (s : string) : nat :=
  match s with
  | EmptyString => O
  | String c r =>
      let n := N_of_ascii c in
      if ((128 <=? n) && (n <? 192))%N
      then match pending with
           | S p => units p r
           | O => S (units 0 r)
           end
      else if (n <? 128)%N then S (units 0 r)
      else if (n <? 224)%N then S (units 1 r)
      else if (n <? 240)%N then S (units 2 r)
      else S (S (units 3 r))
  end.

Definition jsLength (s : string) : nat := units 0 s.

(** A number in a template literal or an error message. *)
Definition decimal (n : nat) : string := NilZero.string_of_uint (Nat.to_uint n).

(** ** The AES-256-GCM primitive of node:crypto *)

(** The cipher is a library primitive; the codec is stated over its
    interface.  [gcm_seal key iv plaintext] is the pair (ciphertext, tag) that
    [createCipheriv]/[update]/[final]/[getAuthTag] produce; [gcm_open key iv
    tag ciphertext] is what [createDecipheriv]/[setAuthTag]/[update]/[final]
    return, [None] when any of them throws. *)
Record AesGcm := {
  gcm_seal : list byte -> list byte -> list byte -> list byte * list byte;
  gcm_open : list byte -> list byte -> list byte -> list byte -> option (list byte)
}.

(** What the codec relies on: decryption inverts encryption under the same
    32-byte key and non-empty nonce, the mode is length preserving (counter
    mode, no padding) and the tag has sixteen bytes. *)
Record AesGcmLaws (C : AesGcm) : Prop := {
  gcm_open_seal : forall k iv p,
    length k = 32%nat -> iv <> [] ->
    gcm_open C k iv (snd (gcm_seal C k iv p)) (fst (gcm_seal C k iv p)) = Some p;
  gcm_length : forall k iv p,
    length (fst (gcm_seal C k iv p)) = length p;
  gcm_tag_length : forall k iv p,
    length (snd (gcm_seal C k iv p)) = 16%nat
}.


(** An instance to run the definitions on concrete inputs: no secrecy, a
    sixteen-byte checksum over key, nonce and text as the tag. *)
Module PlainGcm.

Definition sum (l : list byte) : N :=
  fold_right (fun b acc => (Byte.to_N b + acc)%N) 0%N l.

Definition tagOf (k iv c : list byte) : list byte :=
  map (fun i => Buffer.byteOf ((sum k + 3 * sum iv + 7 * sum c + N.of_nat i) mod 256))
      (seq 0 16).

Definition seal (k iv p : list byte) : list byte * list byte :=
  (p, tagOf k iv p).

Definition open (k iv t c : list byte) : option (list byte) :=
  if Nat.eqb (length k) 32 && negb (Nat.eqb (length iv) 0)
     && String.eqb (Buffer.toHex t) (Buffer.toHex (tagOf k iv c))
  then Some c else None.

Definition cipher : AesGcm := {| gcm_seal := seal; gcm_open := open |}.

End PlainGcm.

(** ** Process environment and the state the backend works on *)

(** [process.env]; a variable that is not set is [None].  Texts are held as
    the sequence of their UTF-8 bytes throughout. *)
Record Env := {
  ENCRYPTION_KEY : option string;
  JWT_SECRET : option string;
  JWT_EXPIRES_IN : option string
}.

(** A row of the [OAuthToken] table (one per user, keyed by [userId]). *)
Record OAuthToken := {
  accessToken : string;            (* envelope of the access token *)
  refreshToken : string;           (* envelope of the refresh token *)
  accessTokenExpiresAt : Z;        (* milliseconds since the epoch *)
  scope : string
}.

(** A row of the [User] table. *)
Record User := {
  user_id : string;
  user_email : string;
  user_googleId : string;
  user_channelId : option string
}.

(** The tokens of a refresh: what the token endpoint answers, and what
    [oauth2Client.refreshAccessToken()] resolves to. *)
Record Credentials := {
  access_token : option string;
  refresh_token : option string;
  expiry_date : option Z
}.

(** Provider resources, with every optional field of the googleapis types
    that the code reads through [?.]. *)
Record CommentSnippet := {
  authorDisplayName : option string;
  authorProfileImageUrl : option string;
  authorChannelId : option string;      (* snippet.authorChannelId?.value *)
  textDisplay : option string;
  textOriginal : option string;
  likeCount : option Z;
  publishedAt : option string;
  updatedAt : option string
}.

Record CommentResource := {
  comment_id : option string;
  comment_snippet : option CommentSnippet
}.

Record ThreadResource := {
  thread_id : option string;
  thread_topLevelComment : option CommentResource;  (* snippet?.topLevelComment *)
  thread_totalReplyCount : option Z;                (* snippet?.totalReplyCount *)
  thread_replies : option (list CommentResource)    (* replies?.comments *)
}.

Record ThreadPage := {
  page_items : option (list ThreadResource);
  page_nextPageToken : option string
}.

(** Calls that leave the process towards the provider. *)
Inductive Request :=
| RefreshAccessToken (refresh_token : string)
| ChannelsListMine (access_token : string)
| CommentsList (access_token : string) (id : string)
| CommentThreadsList (access_token : string) (videoId : string)
    (maxResults : Z) (pageToken : option string)
| CommentsDelete (access_token : string) (id : string).

(** The provider as the backend sees it: each answer is a function of the
    calls issued so far and of the call itself.  [channels_list] answers with
    the ids of [data.items] ([None] when [items] is absent, an inner [None]
    when an item has no [id]). *)
Record Provider := {
  token_endpoint : list Request -> string -> result Credentials;
  channels_list : list Request -> string -> result (option (list (option string)));
  comments_list : list Request -> string -> string -> result (option (list CommentResource));
  commentThreads_list :
    list Request -> string -> string -> Z -> option string -> result ThreadPage;
  comments_delete : list Request -> string -> string -> result unit
}.

Record Event := {
  eventType : string;
  event_userId : option string;
  event_timestamp : Z
}.

(** The database tables, the clock, the bytes drawn so far and the provider
    traffic.  The clock is read, never advanced: a call sees one instant. *)
Record World := {
  oAuthToken : gmap string OAuthToken;   (* prisma.oAuthToken, by userId *)
  user : gmap string User;               (* prisma.user, by id *)
  eventLog : list Event;                 (* prisma.eventLog, oldest first *)
  now : Z;                               (* Date.now() *)
  drawn : nat;                           (* bytes taken from crypto.randomBytes *)
  sent : list Request                    (* provider calls issued, oldest first *)
}.

(** ** State and exceptions *)

Definition M (A : Type) : Type := World -> result A * World.

Definition ret {A} (a : A) : M A := fun w => (Ok a, w).
Definition throw {A} (e : thrown) : M A := fun w => (Throw e, w).
Definition bind {A B} (c : M A) (k : A -> M B) : M B :=
  fun w => match c w with
           | (Ok a, w') => k a w'
           | (Throw e, w') => (Throw e, w')
           end.
Definition lift {A} (r : result A) : M A := fun w => (r, w).
(** [try { c } catch (error) { h error }] *)
Definition tryCatch {A} (c : M A) (h : thrown -> M A) : M A :=
  fun w => match c w with
           | (Ok a, w') => (Ok a, w')
           | (Throw e, w') => h e w'
           end.

Notation "x <- c ;; k" := (bind c (fun x => k))
  (at level 100, c at next level, right associativity).
Notation "c ;;; k" := (bind c (fun _ => k))
  (at level 100, right associativity).

Definition Date_now : M Z := fun w => (Ok (now w), w).

Definition setDrawn (n : nat) (w : World) : World :=
  {| oAuthToken := oAuthToken w; user := user w; eventLog := eventLog w;
     now := now w; drawn := n; sent := sent w |}.

Definition setSent (l : list Request) (w : World) : World :=
  {| oAuthToken := oAuthToken w; user := user w; eventLog := eventLog w;
     now := now w; drawn := drawn w; sent := l |}.

Definition setOAuthToken (m : gmap string OAuthToken) (w : World) : World :=
  {| oAuthToken := m; user := user w; eventLog := eventLog w;
     now := now w; drawn := drawn w; sent := sent w |}.

Definition setEventLog (l : list Event) (w : World) : World :=
  {| oAuthToken := oAuthToken w; user := user w; eventLog := l;
     now := now w; drawn := drawn w; sent := sent w |}.

(** ** utils/encryption.ts *)

Section Encryption.

Variable env : Env.
Variable C : AesGcm.
(** The bytes [crypto.randomBytes] hands out, in order. *)
Variable entropy : nat -> byte.

Definition IV_LENGTH : nat := 16.
Definition AUTH_TAG_LENGTH : nat := 16.

Definition randomBytes (n : nat) : M (list byte) :=
  fun w => (Ok (map entropy (seq (drawn w) n)), setDrawn (drawn w + n) w).

(** The key check both functions start with; the result is [keyBuffer].
    [createCipheriv] and [createDecipheriv] reject a key that is not 32
    bytes long. *)
Definition loadKey : result (list byte) :=
  match ENCRYPTION_KEY env with
  | None => Throw (JsError "ENCRYPTION_KEY must be a 64-character hex string (32 bytes)")
  | Some key =>
      if negb (Nat.eqb (jsLength key) 64)
      then Throw (JsError "ENCRYPTION_KEY must be a 64-character hex string (32 bytes)")
      else Ok (Buffer.fromHex key)
  end.

(** [createCipheriv], [update], [final] and [getAuthTag] on a key buffer and
    a nonce, and the envelope [iv:authTag:encryptedData] made of the
    result. *)
Definition sealWith (keyBuffer iv : list byte) (text : string) : result string :=
  if negb (Nat.eqb (length keyBuffer) 32) then Throw (JsError "Invalid key length")
  else
    let '(encrypted, authTag) := gcm_seal C keyBuffer iv (Buffer.fromUtf8 text) in
    Ok (Buffer.toHex iv +:+ ":" +:+ Buffer.toHex authTag +:+ ":" +:+ Buffer.toHex encrypted).

Definition encrypt (text : string) : M string :=
  match loadKey with
  | Throw e => throw e
  | Ok keyBuffer =>
      iv <- randomBytes IV_LENGTH ;;
      lift (sealWith keyBuffer iv text)
  end.

(** What [encrypt] returns when the nonce it draws is [iv]. *)
Definition seal (iv : list byte) (text : string) : result string :=
  match loadKey with
  | Throw e => Throw e
  | Ok keyBuffer => sealWith keyBuffer iv text
  end.

(** [!x] for a destructured array element. *)
Definition missing (x : option string) : bool :=
  match truthy x with Some _ => false | None => true end.

(** The TypeError of [decipher.update(data, 'hex', ...)] for a text of odd
    length: the encoding argument is validated against [data.length] before
    anything is decoded. *)
Definition invalidHexLength (data : string) : thrown :=
  JsError ("The argument 'encoding' is invalid for data of length "
           +:+ decimal (jsLength data) +:+ ". Received 'hex'").

(** Nonce and tag go through [Buffer.from(_, 'hex')], which drops what it
    cannot decode; the third field goes to [decipher.update] as hex text,
    which throws when its length is odd and decodes it as [Buffer.from]
    does otherwise.  The cipher is held as one primitive, so the check on
    the length is placed before it; [createDecipheriv] and [setAuthTag] run
    earlier in the code, and when they refuse nonce or tag theirs is the
    error thrown. *)
Definition decrypt (encryptedText : string) : result string :=
  match loadKey with
  | Throw e => Throw e
  | Ok keyBuffer =>
      let parts := split ":" encryptedText in
      let ivHex := parts !! 0%nat in
      let authTagHex := parts !! 1%nat in
      let encrypted := parts !! 2%nat in
      if missing ivHex || missing authTagHex || missing encrypted
      then Throw (JsError "Invalid encrypted text format")
      else
        if negb (Nat.eqb (length keyBuffer) 32) then Throw (JsError "Invalid key length")
        else if Nat.odd (jsLength (default "" encrypted))
        then Throw (invalidHexLength (default "" encrypted))
        else
          match gcm_open C keyBuffer
                  (Buffer.fromHex (default "" ivHex))
                  (Buffer.fromHex (default "" authTagHex))
                  (Buffer.fromHex (default "" encrypted)) with
          | Some decrypted => Ok (Buffer.toUtf8 decrypted)
          | None => Throw (JsError "Unsupported state or unable to authenticate data")
          end
  end.

End Encryption.

(** ** services/auth.service.ts: access tokens and their refresh *)

(** The [data] of the [prisma.oAuthToken.update] call of a refresh: the
    refresh token column is part of it only when the spread
    [...(credentials.refresh_token && {...})] contributes it. *)
Record TokenUpdate := {
  data_accessToken : string;
  data_accessTokenExpiresAt : Z;
  data_refreshToken : option string
}.

Definition applyUpdate (d : TokenUpdate) (r : OAuthToken) : OAuthToken :=
  {| accessToken := data_accessToken d;
     refreshToken := default (refreshToken r) (data_refreshToken d);
     accessTokenExpiresAt := data_accessTokenExpiresAt d;
     scope := scope r |}.

(** [x ? x : d] on an optional number: [undefined], [null] and [0] are falsy. *)
Definition truthyZ (x : option Z) : option Z :=
  match x with
  | Some n => if (n =? 0)%Z then None else Some n
  | None => None
  end.

Section AuthService.

Variable env : Env.
Variable C : AesGcm.
Variable entropy : nat -> byte.
Variable P : Provider.

Definition oAuthToken_findUnique (userId : string) : M (option OAuthToken) :=
  fun w => (Ok (oAuthToken w !! userId), w).

(** [prisma.oAuthToken.update({ where: { userId }, data })] rejects when no
    row matches. *)
Definition oAuthToken_update (userId : string) (d : TokenUpdate) : M unit :=
  fun w => match oAuthToken w !! userId with
           | Some r => (Ok tt, setOAuthToken (<[userId := applyUpdate d r]> (oAuthToken w)) w)
           | None => (Throw (JsError "Record to update not found."), w)
           end.

(** *** The OAuth client

    [oauth2Client] of config/google.ts is one [OAuth2Client] of
    google-auth-library for the whole process.  What the service relies on:
    - [setCredentials(c)] makes [c] the credentials of the client;
    - [refreshAccessToken()] takes the refresh token of the credentials.
      Without one it rejects with "No refresh token is set." and sends
      nothing.  When a request for the same refresh token is in flight it
      awaits that request; otherwise it sends one, which stays registered
      until it settles;
    - when the request has settled, every call that awaited it sets
      [refresh_token] of the tokens received to the refresh token the
      credentials of the client hold at that moment, makes the tokens the
      credentials of the client and resolves with them. *)

(** [tokens.refresh_token = this.credentials.refresh_token] *)
Definition withRefreshToken (refreshToken : option string) (tokens : Credentials)
  : Credentials :=
  {| access_token := access_token tokens;
     refresh_token := refreshToken;
     expiry_date := expiry_date tokens |}.

(** [oauth2Client.setCredentials({ refresh_token })] followed by
    [oauth2Client.refreshAccessToken()], for a call that runs alone: no
    request is in flight, and the credentials of the client are the ones
    just set when the answer arrives. *)
Definition oauth2Client_refreshAccessToken (refreshToken : string) : M Credentials :=
  match truthy (Some refreshToken) with
  | None => throw (JsError "No refresh token is set.")
  | Some _ =>
      fun w => (match token_endpoint P (sent w) refreshToken with
                | Ok tokens => Ok (withRefreshToken (Some refreshToken) tokens)
                | Throw e => Throw e
                end,
                setSent (sent w ++ [RefreshAccessToken refreshToken]) w)
  end.

Definition BUFFER_MS : Z := 5 * 60 * 1000.

(** The object literal passed as [data], its properties evaluated in
    source order. *)
Definition updateData (credentials : Credentials) (access_token : string) : M TokenUpdate :=
  a <- encrypt env C entropy access_token ;;
  e <- match truthyZ (expiry_date credentials) with
       | Some d => ret d
       | None => t <- Date_now ;; ret (t + 3600000)
       end ;;
  r <- match truthy (refresh_token credentials) with
       | Some rt => x <- encrypt env C entropy rt ;; ret (Some x)
       | None => ret None
       end ;;
  ret {| data_accessToken := a; data_accessTokenExpiresAt := e; data_refreshToken := r |}.

Definition refreshAccessToken (userId : string) (encryptedRefreshToken : string) : M string :=
  refreshToken <- lift (decrypt env C encryptedRefreshToken) ;;
  credentials <- oauth2Client_refreshAccessToken refreshToken ;;
  match truthy (access_token credentials) with
  | None => throw (JsError "Failed to refresh access token")
  | Some access_token =>
      d <- updateData credentials access_token ;;
      oAuthToken_update userId d ;;;
      ret access_token
  end.

Definition getValidAccessToken (userId : string) : M string :=
  tokenRecord <- oAuthToken_findUnique userId ;;
  match tokenRecord with
  | None => throw (JsError "No OAuth token found for user")
  | Some tokenRecord =>
      t <- Date_now ;;
      let expiresAt := accessTokenExpiresAt tokenRecord in
      if (expiresAt - t <? BUFFER_MS)%Z
      then refreshAccessToken userId (refreshToken tokenRecord)
      else lift (decrypt env C (accessToken tokenRecord))
  end.

(** *** The same code, cut at its [await]s

    A call of [getValidAccessToken] is suspended three times: on
    [findUnique], on the exchange and on [update].  Between two suspensions
    it runs without interruption; other calls may run while it is
    suspended.  A call that awaits an exchange awaits the request in flight
    for its refresh token. *)
Inductive Task :=
| Loading (userId : string)
| Exchanging (userId : string) (refreshToken : string)
| Writing (userId : string) (access_token : string) (d : TokenUpdate)
| Settled (r : result string).

(** The process: the world, the shared client (the refresh token of its
    credentials; the requests in flight by refresh token, each with the
    answer that will arrive and the calls that await it, in the order they
    came) and the calls of [getValidAccessToken] under way. *)
Record Process := {
  world : World;
  credentials_refresh_token : option string;
  refreshTokenPromises : gmap string (result Credentials * list nat);
  tasks : list Task
}.

Definition setTask (i : nat) (t : Task) (s : Process) : Process :=
  {| world := world s;
     credentials_refresh_token := credentials_refresh_token s;
     refreshTokenPromises := refreshTokenPromises s;
     tasks := <[i := t]> (tasks s) |}.

(** Call [i] after [findUnique]: up to the [await] of the exchange. *)
Definition load (i : nat) (userId : string) (s : Process) : Process :=
  let w := world s in
  match oAuthToken w !! userId with
  | None => setTask i (Settled (Throw (JsError "No OAuth token found for user"))) s
  | Some tokenRecord =>
      if (accessTokenExpiresAt tokenRecord - now w <? BUFFER_MS)%Z
      then match decrypt env C (refreshToken tokenRecord) with
           | Throw e => setTask i (Settled (Throw e)) s
           | Ok refreshToken =>
               match truthy (Some refreshToken) with
               | None =>
                   {| world := w;
                      credentials_refresh_token := Some refreshToken;
                      refreshTokenPromises := refreshTokenPromises s;
                      tasks := <[i := Settled (Throw (JsError "No refresh token is set."))]>
                                 (tasks s) |}
               | Some _ =>
                   match refreshTokenPromises s !! refreshToken with
                   | Some (answer, waiting) =>
                       {| world := w;
                          credentials_refresh_token := Some refreshToken;
                          refreshTokenPromises :=
                            <[refreshToken := (answer, waiting ++ [i])]>
                              (refreshTokenPromises s);
                          tasks := <[i := Exchanging userId refreshToken]> (tasks s) |}
                   | None =>
                       {| world := setSent (sent w ++ [RefreshAccessToken refreshToken]) w;
                          credentials_refresh_token := Some refreshToken;
                          refreshTokenPromises :=
                            <[refreshToken := (token_endpoint P (sent w) refreshToken, [i])]>
                              (refreshTokenPromises s);
                          tasks := <[i := Exchanging userId refreshToken]> (tasks s) |}
                   end
               end
           end
      else setTask i (Settled (decrypt env C (accessToken tokenRecord))) s
  end.

(** Call [i] after the exchange it awaited has settled with [answer]: up
    to the [await] of [update]. *)
Definition receive (answer : result Credentials) (i : nat) (s : Process) : Process :=
  match tasks s !! i with
  | Some (Exchanging userId _) =>
      match answer with
      | Throw e => setTask i (Settled (Throw e)) s
      | Ok tokens =>
          let credentials := withRefreshToken (credentials_refresh_token s) tokens in
          match truthy (access_token credentials) with
          | None => setTask i (Settled (Throw (JsError "Failed to refresh access token"))) s
          | Some access_token =>
              match updateData credentials access_token (world s) with
              | (Ok d, w') =>
                  {| world := w';
                     credentials_refresh_token := refresh_token credentials;
                     refreshTokenPromises := refreshTokenPromises s;
                     tasks := <[i := Writing userId access_token d]> (tasks s) |}
              | (Throw e, w') =>
                  {| world := w';
                     credentials_refresh_token := refresh_token credentials;
                     refreshTokenPromises := refreshTokenPromises s;
                     tasks := <[i := Settled (Throw e)]> (tasks s) |}
              end
          end
      end
  | _ => s
  end.

(** The request in flight for [refreshToken] settles: it is no longer
    registered, and the calls that awaited it continue one after the other,
    in the order they came. *)
Definition deliver (refreshToken : string) (s : Process) : Process :=
  match refreshTokenPromises s !! refreshToken with
  | None => s
  | Some (answer, waiting) =>
      fold_left (fun s' i => receive answer i s') waiting
        {| world := world s;
           credentials_refresh_token := credentials_refresh_token s;
           refreshTokenPromises := delete refreshToken (refreshTokenPromises s);
           tasks := tasks s |}
  end.

(** Call [i] after [update]. *)
Definition write (i : nat) (userId access_token : string) (d : TokenUpdate) (s : Process)
  : Process :=
  match oAuthToken_update userId d (world s) with
  | (Ok _, w') =>
      {| world := w';
         credentials_refresh_token := credentials_refresh_token s;
         refreshTokenPromises := refreshTokenPromises s;
         tasks := <[i := Settled (Ok access_token)]> (tasks s) |}
  | (Throw e, w') =>
      {| world := w';
         credentials_refresh_token := credentials_refresh_token s;
         refreshTokenPromises := refreshTokenPromises s;
         tasks := <[i := Settled (Throw e)]> (tasks s) |}
  end.

(** What call [i] awaits arrives: the row of [findUnique], the answer to
    the exchange (and with it every call that awaits the same exchange
    continues), or the result of [update]. *)
Definition resume (i : nat) (s : Process) : Process :=
  match tasks s !! i with
  | Some (Loading userId) => load i userId s
  | Some (Exchanging _ refreshToken) => deliver refreshToken s
  | Some (Writing userId access_token d) => write i userId access_token d s
  | Some (Settled _) | None => s
  end.

(** A schedule names, step by step, the call that is resumed next. *)
Definition run (schedule : list nat) (s : Process) : Process :=
  fold_left (fun s' i => resume i s') schedule s.

Definition isRefresh (r : Request) : bool :=
  match r with RefreshAccessToken _ => true | _ => false end.

(** Number of refresh exchanges issued so far. *)
Definition exchanges (w : World) : nat := length (filter (fun r => isRefresh r = true) (sent w)).

End AuthService.

(** ** middleware/errorHandler.ts *)

(** [error?.response?.status] and
    [error?.response?.data?.error?.errors?.[0]?.reason]: only a provider
    rejection that carries a response has them. *)
Definition responseStatus (error : thrown) : option Z :=
  match error with
  | HttpError (Some r) => Some (status r)
  | _ => None
  end.

Definition responseReason (error : thrown) : option string :=
  match error with
  | HttpError (Some r) => head (reasons r)
  | _ => None
  end.

Definition optZ_eqb (x : option Z) (n : Z) : bool :=
  match x with Some m => (m =? n)%Z | None => false end.

(** [x === s] for an optional string [x] and a string [s]. *)
Definition strictEq (x : option string) (s : string) : bool :=
  match x with Some v => String.eqb v s | None => false end.

Definition handleYouTubeQuotaError (error : thrown) : thrown :=
  if optZ_eqb (responseStatus error) 403 then
    let reason := responseReason error in
    if strictEq reason "quotaExceeded"
    then ApiError 429 "YouTube API quota exceeded. Please try again later."
    else if strictEq reason "forbidden"
    then ApiError 403 "You do not have permission to perform this action."
    else ApiError 500 "An error occurred with the YouTube API"
  else ApiError 500 "An error occurred with the YouTube API".

Definition instanceof_ApiError (error : thrown) : bool :=
  match error with ApiError _ _ => true | _ => false end.

(** The error kinds of the design, and how the values the code throws read
    in them: an [ApiError] by its HTTP status (and, for 401, by its message),
    a plain [Error] by its message.  Nothing the code throws reads as
    [ReauthorizationRequired]. *)
Inductive DomainKind :=
| NotAuthorized | ReauthorizationRequired | QuotaExceeded | PermissionDenied
| ResourceNotFound | UpstreamError | ConfigurationError | DecryptionError
| InvalidSignature | Expired | Malformed.

Definition kindOf (e : thrown) : DomainKind :=
  match e with
  | ApiError st msg =>
      if (st =? 429)%Z then QuotaExceeded
      else if (st =? 403)%Z then PermissionDenied
      else if (st =? 404)%Z then ResourceNotFound
      else if (st =? 401)%Z then
        if String.eqb msg "Token expired" then Expired
        else if String.eqb msg "Invalid token" then InvalidSignature
        else NotAuthorized
      else UpstreamError
  | JsError msg =>
      if String.eqb msg "ENCRYPTION_KEY must be a 64-character hex string (32 bytes)"
         || String.eqb msg "Invalid key length"
         || String.eqb msg "JWT_SECRET not configured"
      then ConfigurationError
      else if String.eqb msg "Invalid encrypted text format"
              || String.eqb msg "Unsupported state or unable to authenticate data"
      then DecryptionError
      else if String.eqb msg "No OAuth token found for user" then NotAuthorized
      else UpstreamError
  | JwtError TokenExpiredError _ => Expired
  | JwtError _ msg =>
      if String.eqb msg "invalid signature" then InvalidSignature else Malformed
  | HttpError _ => UpstreamError
  end.

(** ** middleware/auth.ts: the session token *)

Record JwtPayload := {
  userId : string;
  email : string;
  googleId : string;
  iat : Z;          (* seconds *)
  exp : Z           (* seconds *)
}.

(** A token as it arrives: text that is not the compact form of a signed
    payload, or a payload with the signature that came with it. *)
Inductive Token :=
| Unparsable (text : string)
| Jws (payload : JwtPayload) (signature : string).

(** The parts of the jsonwebtoken package that the middleware relies on:
    the HMAC of a payload under a secret, and the reading of a time span
    such as ["7d"] in seconds. *)
Record JwtLib := {
  hs256 : string -> JwtPayload -> string;
  timespan : string -> option Z
}.

(** In jsonwebtoken, [TokenExpiredError] and [NotBeforeError] are subclasses
    of [JsonWebTokenError]: their prototypes are created from
    [JsonWebTokenError.prototype]. *)
Definition instanceof_JsonWebTokenError (error : thrown) : bool :=
  match error with JwtError _ _ => true | _ => false end.

Definition instanceof_TokenExpiredError (error : thrown) : bool :=
  match error with JwtError TokenExpiredError _ => true | _ => false end.

Inductive Authorization :=
| Bearer (token : Token)        (* "Bearer " followed by the token *)
| OtherHeader (text : string).  (* a header that does not start with "Bearer " *)

Record AuthenticatedRequest := {
  authorization : option Authorization;   (* req.headers.authorization *)
  cookie_token : option Token             (* req.cookies?.token *)
}.

Record RequestUser := {
  req_id : string;
  req_email : string;
  req_googleId : string
}.

(** [!token]: absent or the empty string. *)
Definition noToken (t : option Token) : bool :=
  match t with
  | None => true
  | Some (Unparsable s) => String.eqb s ""
  | Some (Jws _ _) => false
  end.

Section Session.

Variable env : Env.
Variable J : JwtLib.

(** [jwt.sign(payload, secret, { expiresIn })] *)
Definition jwt_sign (uid em gid : string) (secret : string) (expiresIn : string) : M Token :=
  t <- Date_now ;;
  match timespan J expiresIn with
  | None => throw (JsError "expiresIn should be a number of seconds or string representing a timespan")
  | Some span =>
      let p := {| userId := uid; email := em; googleId := gid;
                  iat := t / 1000; exp := t / 1000 + span |} in
      ret (Jws p (hs256 J secret p))
  end.

(** [jwt.verify(token, secret)]: structure, then signature, then expiry. *)
Definition jwt_verify (token : Token) (secret : string) : M JwtPayload :=
  match token with
  | Unparsable _ => throw (JwtError JsonWebTokenError "jwt malformed")
  | Jws p s =>
      if negb (String.eqb s (hs256 J secret p))
      then throw (JwtError JsonWebTokenError "invalid signature")
      else
        t <- Date_now ;;
        if (exp p <=? t / 1000)%Z
        then throw (JwtError TokenExpiredError "jwt expired")
        else ret p
  end.

Definition user_findUnique (id : string) : M (option User) :=
  fun w => (Ok (user w !! id), w).

(** The middleware; [Ok u] is [next()] with [req.user = u], [Throw e] is
    [next(e)]. *)
Definition authenticate (req : AuthenticatedRequest) : M RequestUser :=
  tryCatch
    (let token := match authorization req with
                  | Some (Bearer t) => Some t
                  | _ => None
                  end in
     let token := if noToken token && negb (noToken (cookie_token req))
                  then cookie_token req else token in
     match token with
     | Some token =>
         if noToken (Some token) then throw (ApiError 401 "Authentication required")
         else
           match truthy (JWT_SECRET env) with
           | None => throw (JsError "JWT_SECRET not configured")
           | Some jwtSecret =>
               decoded <- jwt_verify token jwtSecret ;;
               u <- user_findUnique (userId decoded) ;;
               match u with
               | None => throw (ApiError 401 "User not found")
               | Some u =>
                   ret {| req_id := user_id u; req_email := user_email u;
                          req_googleId := user_googleId u |}
               end
           end
     | None => throw (ApiError 401 "Authentication required")
     end)
    (fun error =>
       if instanceof_ApiError error then throw error
       else if instanceof_JsonWebTokenError error then throw (ApiError 401 "Invalid token")
       else if instanceof_TokenExpiredError error then throw (ApiError 401 "Token expired")
       else throw error).

Definition generateToken (u : RequestUser) : M Token :=
  match truthy (JWT_SECRET env) with
  | None => throw (JsError "JWT_SECRET not configured")
  | Some jwtSecret =>
      jwt_sign (req_id u) (req_email u) (req_googleId u) jwtSecret
               (orElse (JWT_EXPIRES_IN env) "7d")
  end.

End Session.

(** ** services/event.service.ts *)

(** What an insert leaves of a row: [prisma.eventLog.create] stores it or
    rejects; [create w row] tells which, in the state [w] of the database. *)
Definition inserted (create : World -> Event -> bool) (w : World) (row : Event) : list Event :=
  if create w row then [row] else [].

(** [EventService.log] never throws: its [catch] swallows the rejection of
    the insert, and the row is then missing from the table. *)
Definition EventService_log (create : World -> Event -> bool)
    (kind : string) (userId : option string) : M unit :=
  fun w => (Ok tt,
            setEventLog
              (eventLog w ++ inserted create w {| eventType := kind; event_userId := userId;
                                                  event_timestamp := now w |}) w).

(** ** services/comment.service.ts *)

Record Comment := {
  c_id : string;
  c_authorDisplayName : string;
  c_authorProfileImageUrl : string;
  c_authorChannelId : string;
  c_textDisplay : string;
  c_textOriginal : string;
  c_likeCount : Z;
  c_publishedAt : string;
  c_updatedAt : string;
  canDelete : bool
}.

Record CommentThread := {
  t_id : string;
  topLevelComment : Comment;
  totalReplyCount : Z;
  replies : list Comment
}.

Record CommentsPage := {
  comments : list CommentThread;
  nextPageToken : option string;
  userChannelId : string
}.

(** The object built for a comment, from its id and its snippet. *)
Definition toComment (userChannelId : string) (id : option string)
    (snippet : option CommentSnippet) : Comment :=
  {| c_id := orElse id "";
     c_authorDisplayName := orElse (snippet ≫= authorDisplayName) "Unknown";
     c_authorProfileImageUrl := orElse (snippet ≫= authorProfileImageUrl) "";
     c_authorChannelId := orElse (snippet ≫= authorChannelId) "";
     c_textDisplay := orElse (snippet ≫= textDisplay) "";
     c_textOriginal := orElse (snippet ≫= textOriginal) "";
     c_likeCount := default 0 (snippet ≫= likeCount);
     c_publishedAt := orElse (snippet ≫= publishedAt) "";
     c_updatedAt := orElse (snippet ≫= updatedAt) "";
     canDelete := strictEq (snippet ≫= authorChannelId) userChannelId |}.

Definition toThread (userChannelId : string) (thread : ThreadResource) : CommentThread :=
  {| t_id := orElse (thread_id thread) "";
     topLevelComment :=
       toComment userChannelId
         (thread_topLevelComment thread ≫= comment_id)
         (thread_topLevelComment thread ≫= comment_snippet);
     totalReplyCount := default 0 (thread_totalReplyCount thread);
     replies :=
       match thread_replies thread with
       | Some l => map (fun reply => toComment userChannelId (comment_id reply) (comment_snippet reply)) l
       | None => []
       end |}.

Section CommentService.

Variable env : Env.
Variable C : AesGcm.
Variable entropy : nat -> byte.
Variable P : Provider.
(** The answer of [prisma.eventLog.create]: whether the row is stored. *)
Variable eventLog_create : World -> Event -> bool.

(** The client is determined by the access token it carries. *)
Definition getClient (userId : string) : M string :=
  getValidAccessToken env C entropy P userId.

Definition youtube_channels_list (youtube : string) : M (option (list (option string))) :=
  fun w => (channels_list P (sent w) youtube,
            setSent (sent w ++ [ChannelsListMine youtube]) w).

Definition youtube_comments_list (youtube : string) (id : string)
  : M (option (list CommentResource)) :=
  fun w => (comments_list P (sent w) youtube id,
            setSent (sent w ++ [CommentsList youtube id]) w).

Definition youtube_commentThreads_list (youtube : string) (videoId : string)
    (maxResults : Z) (pageToken : option string) : M ThreadPage :=
  fun w => (commentThreads_list P (sent w) youtube videoId maxResults pageToken,
            setSent (sent w ++ [CommentThreadsList youtube videoId maxResults pageToken]) w).

Definition youtube_comments_delete (youtube : string) (id : string) : M unit :=
  fun w => (comments_delete P (sent w) youtube id,
            setSent (sent w ++ [CommentsDelete youtube id]) w).

(** [items?.[0]?.id] of a [channels.list] response. *)
Definition firstChannelId (items : option (list (option string))) : option string :=
  match items with
  | Some (first :: _) => first
  | _ => None
  end.

Definition getComments (userId : string) (videoId : string)
    (pageToken : option string) (maxResults : Z) : M CommentsPage :=
  tryCatch
    (youtube <- getClient userId ;;
     channelResponse <- youtube_channels_list youtube ;;
     let userChannelId := orElse (firstChannelId channelResponse) "" in
     response <- youtube_commentThreads_list youtube videoId maxResults pageToken ;;
     let comments :=
       match page_items response with
       | Some items => map (toThread userChannelId) items
       | None => []
       end in
     ret {| comments := comments;
            nextPageToken := truthy (page_nextPageToken response);
            userChannelId := userChannelId |})
    (fun error => throw (handleYouTubeQuotaError error)).

(** [a !== b] on two optional strings; a value that is absent is
    [undefined] on either side: the answers of the provider are taken to
    leave a field out rather than to set it to [null]. *)
Definition strictNe (a b : option string) : bool :=
  match a, b with
  | Some x, Some y => negb (String.eqb x y)
  | None, None => false
  | _, _ => true
  end.

Definition deleteComment (userId : string) (commentId : string) : M unit :=
  tryCatch
    (youtube <- getClient userId ;;
     commentResponse <- youtube_comments_list youtube commentId ;;
     match commentResponse ≫= head with
     | None => throw (ApiError 404 "Comment not found")
     | Some comment =>
         channelResponse <- youtube_channels_list youtube ;;
         let userChannelId := firstChannelId channelResponse in
         if strictNe (comment_snippet comment ≫= authorChannelId) userChannelId
         then throw (ApiError 403 "You can only delete your own comments")
         else
           youtube_comments_delete youtube commentId ;;;
           EventService_log eventLog_create "comment_deleted" (Some userId)
     end)
    (fun error =>
       if instanceof_ApiError error then throw error
       else throw (handleYouTubeQuotaError error)).

Definition isDelete (r : Request) : bool :=
  match r with CommentsDelete _ _ => true | _ => false end.

(** Number of [comments.delete] calls issued so far. *)
Definition deletions (w : World) : nat :=
  length (filter (fun r => isDelete r = true) (sent w)).

(** Every comment of a page: the top-level comment of each thread and its
    replies. *)
Definition allComments (p : CommentsPage) : list Comment :=
  flat_map (fun t => topLevelComment t :: replies t) (comments p).

End CommentService.

(** ** Concrete inputs *)

Module Sample.

Definition env : Env :=
  {| ENCRYPTION_KEY := Some "000102030405060708090a0b0c0d0e0f101112131415161718191a1b1c1d1e1f";
     JWT_SECRET := Some "s3cret";
     JWT_EXPIRES_IN := None |}.

Definition entropy (n : nat) : byte := Buffer.byteOf (N.of_nat (n * 37 + 171) mod 256).

Definition world : World :=
  {| oAuthToken := ∅; user := ∅; eventLog := []; now := 1000000; drawn := 0; sent := [] |}.

(** A database that stores every event row, and one that stores none. *)
Definition stored : World -> Event -> bool := fun _ _ => true.
Definition refused : World -> Event -> bool := fun _ _ => false.


(** A stand-in for the jsonwebtoken primitives: the signature is a text
    made of the secret and the payload, and only ["7d"] is a known span. *)
Definition jwt : JwtLib :=
  {| hs256 := fun secret p =>
       secret +:+ "/" +:+ userId p +:+ "/" +:+ email p +:+ "/" +:+ googleId p
              +:+ "/" +:+ Buffer.toHex [Buffer.byteOf (Z.to_N (exp p) mod 256)];
     timespan := fun s => if String.eqb s "7d" then Some 604800 else None |}.

Definition alice : RequestUser :=
  {| req_id := "u1"; req_email := "alice@example.org"; req_googleId := "g-1" |}.

Definition alicePayload : JwtPayload :=
  {| userId := "u1"; email := "alice@example.org"; googleId := "g-1";
     iat := 1000; exp := 605800 |}.

(** [world] with Alice registered. *)
Definition registered : World :=
  {| oAuthToken := ∅;
     user := {[ "u1" := {| user_id := "u1"; user_email := "alice@example.org";
                           user_googleId := "g-1"; user_channelId := None |} ]};
     eventLog := []; now := 1000000; drawn := 0; sent := [] |}.

(** Eight days after [world]. *)
Definition later : World :=
  {| oAuthToken := ∅; user := ∅; eventLog := []; now := 1000000 + 8 * 86400000;
     drawn := 0; sent := [] |}.

Definition notFound : thrown :=
  HttpError (Some {| status := 404; reasons := ["notFound"] |}).
Definition unauthorized : thrown :=
  HttpError (Some {| status := 401; reasons := ["authError"] |}).
Definition quota : thrown :=
  HttpError (Some {| status := 403; reasons := ["quotaExceeded"] |}).
Definition forbidden : thrown :=
  HttpError (Some {| status := 403; reasons := ["forbidden"] |}).
Definition backendError : thrown :=
  HttpError (Some {| status := 500; reasons := ["backendError"] |}).

(** The envelope of [text] under the sample key, with the nonce made of the
    bytes drawn from position [n] on. *)
Definition sealed (n : nat) (text : string) : string :=
  match seal env PlainGcm.cipher (map entropy (seq n 16)) text with
  | Ok e => e
  | Throw _ => ""
  end.

Definition bobComment : CommentResource :=
  {| comment_id := Some "c1";
     comment_snippet :=
       Some {| authorDisplayName := Some "Bob"; authorProfileImageUrl := None;
               authorChannelId := Some "UC-bob"; textDisplay := Some "hi";
               textOriginal := Some "hi"; likeCount := Some 2;
               publishedAt := None; updatedAt := None |} |}.

(** A comment whose author channel is not reported. *)
Definition orphanComment : CommentResource :=
  {| comment_id := Some "c2";
     comment_snippet :=
       Some {| authorDisplayName := None; authorProfileImageUrl := None;
               authorChannelId := None; textDisplay := Some "?";
               textOriginal := Some "?"; likeCount := None;
               publishedAt := None; updatedAt := None |} |}.

(** A provider that hands out a new access token at every exchange and
    rotates no refresh token; the caller owns channel [channel]. *)
Definition provider (channel : option (list (option string))) : Provider :=
  {| token_endpoint := fun history _ =>
       Ok {| access_token :=
               Some ("A-" +:+ Buffer.toHex [Buffer.byteOf (N.of_nat (length history))]);
             refresh_token := None; expiry_date := None |};
     channels_list := fun _ _ => Ok channel;
     comments_list := fun _ _ _ => Ok (Some [bobComment]);
     commentThreads_list := fun _ _ _ _ _ =>
       Ok {| page_items :=
               Some [ {| thread_id := Some "t1";
                         thread_topLevelComment := Some orphanComment;
                         thread_totalReplyCount := Some 1;
                         thread_replies := Some [bobComment] |} ];
             page_nextPageToken := None |};
     comments_delete := fun _ _ _ => Ok tt |}.

(** A provider that rotates the refresh token at every exchange. *)
Definition rotating : Provider :=
  {| token_endpoint := fun _ _ =>
       Ok {| access_token := Some "A2"; refresh_token := Some "R2";
             expiry_date := Some 5000000 |};
     channels_list := fun _ _ => Ok None;
     comments_list := fun _ _ _ => Ok None;
     commentThreads_list := fun _ _ _ _ _ =>
       Ok {| page_items := None; page_nextPageToken := None |};
     comments_delete := fun _ _ _ => Ok tt |}.

(** A world at time 1000000 with one credential, for user "u1": access
    token "A1", refresh token [refresh], [remaining] milliseconds left. *)
Definition worldWith (refresh : string) (remaining : Z) : World :=
  {| oAuthToken :=
       {[ "u1" := {| accessToken := sealed 100 "A1"; refreshToken := sealed 200 refresh;
                     accessTokenExpiresAt := 1000000 + remaining; scope := "youtube" |} ]};
     user := ∅; eventLog := []; now := 1000000; drawn := 0; sent := [] |}.

(** A world with two credentials, both stale: user "u1" with refresh token
    "R1" and user "u2" with refresh token "R2". *)
Definition twoUsers : World :=
  {| oAuthToken :=
       {[ "u1" := {| accessToken := sealed 100 "A1"; refreshToken := sealed 200 "R1";
                     accessTokenExpiresAt := 1000000; scope := "youtube" |};
          "u2" := {| accessToken := sealed 300 "B1"; refreshToken := sealed 400 "R2";
                     accessTokenExpiresAt := 1000000; scope := "youtube" |} ]};
     user := ∅; eventLog := []; now := 1000000; drawn := 0; sent := [] |}.

End Sample.

(** ** Vocabulary of the statements *)

Fixpoint occurs (sep : ascii) (s : string) : bool :=
  match s with
  | EmptyString => false
  | String c r => Ascii.eqb c sep || occurs sep r
  end.

(** The key is configured and decodes to the 32 bytes AES-256 needs. *)
Definition usableKey (env : Env) (keyBuffer : list byte) : Prop :=
  loadKey env = Ok keyBuffer /\ length keyBuffer = 32%nat.

(** The three hex texts of an envelope, when all are present and non-empty. *)
Definition envelopeFields (e : string) : option (string * string * string) :=
  match split ":" e with
  | i :: t :: c :: _ =>
      if String.eqb i "" || String.eqb t "" || String.eqb c "" then None
      else Some (i, t, c)
  | _ => None
  end.

(** A hex letter in upper case; any other character unchanged. *)
Definition upperHex (c : ascii) : ascii :=
  let n := N_of_ascii c in
  if ((97 <=? n) && (n <=? 102))%N then ascii_of_N (n - 32) else c.

Fixpoint upperHexAll (s : string) : string :=
  match s with
  | EmptyString => EmptyString
  | String c r => String (upperHex c) (upperHexAll r)
  end.

(** The envelope [encrypt] builds from a key buffer, a nonce and a text. *)
Definition envelopeOf (C : AesGcm) (keyBuffer iv : list byte) (text : string) : string :=
  Buffer.toHex iv +:+ ":" +:+
  Buffer.toHex (snd (gcm_seal C keyBuffer iv (Buffer.fromUtf8 text))) +:+ ":" +:+
  Buffer.toHex (fst (gcm_seal C keyBuffer iv (Buffer.fromUtf8 text))).

(** The nonce made of the bytes drawn from position [n] on. *)
Definition ivAt (entropy : nat -> byte) (n : nat) : list byte :=
  map entropy (seq n IV_LENGTH).

(** What a call receives from the answer to an exchange. *)
Definition outcomeOf (answer : result Credentials) : result string :=
  match answer with
  | Throw e => Throw e
  | Ok tokens =>
      match truthy (access_token tokens) with
      | Some a => Ok a
      | None => Throw (JsError "Failed to refresh access token")
      end
  end.

(** The process when the calls [0], ..., [k-1] have loaded the stale
    credential of world [w], whose refresh token is [rt]: they await the
    one request that is in flight. *)
Definition inFlight (P : Provider) (rt : string) (w : World) (k : nat) (s : Process) : Prop :=
  match k with
  | O => world s = w /\ refreshTokenPromises s = ∅
  | S _ =>
      world s = setSent (sent w ++ [RefreshAccessToken rt]) w
      /\ credentials_refresh_token s = Some rt
      /\ refreshTokenPromises s = {[ rt := (token_endpoint P (sent w) rt, seq 0 k) ]}
  end.

(** The process once the answer to that request has arrived. *)
Definition answered (userId rt : string) (w : World) (s : Process) : Prop :=
  credentials_refresh_token s = Some rt
  /\ refreshTokenPromises s = ∅
  /\ sent (world s) = sent w ++ [RefreshAccessToken rt]
  /\ is_Some (oAuthToken (world s) !! userId).

(** A call that has received the result [r] of the exchange: it is about
    to write the row, or it has failed. *)
Definition holds (userId : string) (r : result string) (t : Task) : Prop :=
  match r with
  | Ok a => exists d, t = Writing userId a d
  | Throw e => t = Settled (Throw e)
  end.

(** A call that has received the result [r], or has settled with it. *)
Definition received (userId : string) (r : result string) (t : Task) : Prop :=
  holds userId r t \/ t = Settled r.

(** A stored refresh secret that holds no refresh token: the empty column,
    or the envelope [encrypt] makes of the empty string. *)
Definition emptySecret (env : Env) (C : AesGcm) (e : string) : Prop :=
  e = "" \/ exists iv, seal env C iv "" = Ok e.

(** ** The rest of utils/encryption.ts *)

(** [generateEncryptionKey]: thirty-two random bytes in hex. *)
Definition generateEncryptionKey (entropy : nat -> byte) : M string :=
  b <- randomBytes entropy 32 ;;
  ret (Buffer.toHex b).

(** Every character of [s] is a hex digit. *)
Fixpoint allHex (s : string) : bool :=
  match s with
  | EmptyString => true
  | String c r =>
      match Buffer.unhex c with Some _ => allHex r | None => false end
  end.

(** ** The rest of middleware/errorHandler.ts *)

(** What [errorHandler] looks at in the error it is given: whether it is an
    [ApiError] (and then its [statusCode]), its [name] and its [message]. *)
Record Err := {
  err_statusCode : option Z;     (* [Some] exactly for an instance of ApiError *)
  err_name : string;
  err_message : string
}.

(** The status and the JSON body of a response; a property that is absent
    or [undefined] is [None]. *)
Record Reply := {
  reply_status : Z;
  body_error : string;
  body_statusCode : option Z;
  body_details : option string;
  body_message : option string
}.

Definition errorHandler (NODE_ENV : option string) (err : Err) : Reply :=
  match err_statusCode err with
  | Some statusCode =>
      {| reply_status := statusCode; body_error := err_message err;
         body_statusCode := Some statusCode; body_details := None; body_message := None |}
  | None =>
      if String.eqb (err_name err) "ValidationError" then
        {| reply_status := 400; body_error := "Validation error";
           body_statusCode := None; body_details := Some (err_message err);
           body_message := None |}
      else if String.eqb (err_name err) "PrismaClientKnownRequestError" then
        {| reply_status := 400; body_error := "Database error";
           body_statusCode := None; body_details := None;
           body_message := Some "An error occurred while processing your request" |}
      else if String.eqb (err_name err) "JsonWebTokenError" then
        {| reply_status := 401; body_error := "Invalid token";
           body_statusCode := None; body_details := None; body_message := None |}
      else if String.eqb (err_name err) "TokenExpiredError" then
        {| reply_status := 401; body_error := "Token expired";
           body_statusCode := None; body_details := None; body_message := None |}
      else
        {| reply_status := 500; body_error := "Internal server error";
           body_statusCode := None; body_details := None;
           body_message := if strictEq NODE_ENV "development"
                           then Some (err_message err) else None |}
  end.

(** The errors of the backend's own making as [errorHandler] sees them: an
    [ApiError] and a plain [Error] are named "Error", an error of the
    jsonwebtoken package carries the name of its class.  A rejection of a
    googleapis call has a message this development does not hold. *)
Definition errOf (e : thrown) : option Err :=
  match e with
  | JsError m => Some {| err_statusCode := None; err_name := "Error"; err_message := m |}
  | ApiError st m => Some {| err_statusCode := Some st; err_name := "Error"; err_message := m |}
  | JwtError c m =>
      Some {| err_statusCode := None;
              err_name := match c with
                          | JsonWebTokenError => "JsonWebTokenError"
                          | TokenExpiredError => "TokenExpiredError"
                          | NotBeforeError => "NotBeforeError"
                          end;
              err_message := m |}
  | HttpError _ => None
  end.

(** ** components/VideoSelector.tsx: the video id of a pasted text *)

(** [[a-zA-Z0-9_-]] *)
Definition isIdChar (c : ascii) : bool :=
  let n := N_of_ascii c in
  (((97 <=? n) && (n <=? 122)) || ((65 <=? n) && (n <=? 90))
   || ((48 <=? n) && (n <=? 57)) || (n =? 95) || (n =? 45))%N.

(** [[a-zA-Z0-9_-]{n}] at the start of [s]: the characters matched. *)
Fixpoint takeId (n : nat) (s : string) : option string :=
  match n with
  | O => Some EmptyString
  | S k =>
      match s with
      | String c r =>
          if isIdChar c
          then match takeId k r with Some x => Some (String c x) | None => None end
          else None
      | EmptyString => None
      end
  end.

(** A literal at the start of [s]: what follows it. *)
Fixpoint startsWith (p s : string) : option string :=
  match p with
  | EmptyString => Some s
  | String a p' =>
      match s with
      | String b s' => if Ascii.eqb a b then startsWith p' s' else None
      | EmptyString => None
      end
  end.

(** The three alternatives of the first pattern, in their order. *)
Definition urlMarkers : list string :=
  ["youtube.com/watch?v="; "youtu.be/"; "youtube.com/embed/"].

(** The first pattern tried at the start of [s]: an alternative, then the
    group of eleven characters. *)
Definition matchHere (s : string) : option string :=
  let try (marker : string) :=
    match startsWith marker s with
    | Some r => takeId 11 r
    | None => None
    end in
  match try "youtube.com/watch?v=" with
  | Some g => Some g
  | None =>
      match try "youtu.be/" with
      | Some g => Some g
      | None => try "youtube.com/embed/"
      end
  end.

(** [id.match(/(?:youtube\.com\/watch\?v=|youtu\.be\/|youtube\.com\/embed\/)([a-zA-Z0-9_-]{11})/)]:
    the group of the leftmost match. *)
Fixpoint matchUrl (s : string) : option string :=
  match matchHere s with
  | Some g => Some g
  | None =>
      match s with
      | String _ r => matchUrl r
      | EmptyString => None
      end
  end.

(** [id.match(/^([a-zA-Z0-9_-]{11})$/)] *)
Definition matchBare (s : string) : option string :=
  match takeId 11 s with
  | Some g => if Nat.eqb (String.length s) 11 then Some g else None
  | None => None
  end.

(** The loop over [urlPatterns]: the group of the first pattern that
    matches, the text itself when none does. *)
Definition extractId (id : string) : string :=
  match matchUrl id with
  | Some g => g
  | None =>
      match matchBare id with
      | Some g => g
      | None => id
      end
  end.

(** [handleSubmit]: the id handed to [fetchVideoDetails], [None] when the
    handler returns before.  [trim] is [String.prototype.trim]. *)
Definition handleSubmit (trim : string -> string) (videoId : string) : option string :=
  if String.eqb (trim videoId) "" then None
  else Some (extractId (trim videoId)).

Fixpoint allIdChars (s : string) : bool :=
  match s with
  | EmptyString => true
  | String c r => isIdChar c && allIdChars r
  end.

(** ** The rest of services/auth.service.ts and services/comment.service.ts *)

(** Provider calls of the login, logout and comment-writing paths. *)
Inductive Call :=
| GetToken (code : string)                       (* oauth2Client.getToken *)
| UserinfoGet (access_token : string)            (* oauth2.userinfo.get *)
| RevokeToken (access_token : string)            (* oauth2Client.revokeToken *)
| CommentThreadsInsert (access_token : string) (videoId : string) (text : string)
| CommentsInsert (access_token : string) (parentId : string) (text : string).

(** The tokens of [oauth2Client.getToken], read as the [TokenResponse] the
    service casts them to. *)
Record TokenResponse := {
  tr_access_token : string;
  tr_refresh_token : option string;
  tr_expiry_date : option Z;
  tr_scope : option string
}.

Record GoogleUserInfo := {
  gi_id : option string;
  gi_email : option string;
  gi_name : option string;
  gi_picture : option string
}.

(** The answers to those calls, each a function of the calls of both kinds
    issued so far and of the call itself. *)
Record Google := {
  getToken : list Call -> list Request -> string -> result TokenResponse;
  userinfo_get : list Call -> list Request -> string -> result GoogleUserInfo;
  revokeToken : list Call -> list Request -> string -> result unit;
  commentThreads_insert :
    list Call -> list Request -> string -> string -> string -> result ThreadResource;
  comments_insert :
    list Call -> list Request -> string -> string -> string -> result CommentResource
}.

(** The state of [World] together with the log of those calls. *)
Record Backend := {
  b_world : World;
  b_calls : list Call       (* oldest first *)
}.

Definition MB (A : Type) : Type := Backend -> result A * Backend.

Definition retB {A} (a : A) : MB A := fun b => (Ok a, b).
Definition throwB {A} (e : thrown) : MB A := fun b => (Throw e, b).
Definition bindB {A B} (c : MB A) (k : A -> MB B) : MB B :=
  fun b => match c b with
           | (Ok a, b') => k a b'
           | (Throw e, b') => (Throw e, b')
           end.
Definition tryCatchB {A} (c : MB A) (h : thrown -> MB A) : MB A :=
  fun b => match c b with
           | (Ok a, b') => (Ok a, b')
           | (Throw e, b') => h e b'
           end.
(** A computation on [World] run on the world of a backend. *)
Definition inWorld {A} (c : M A) : MB A :=
  fun b => match c (b_world b) with
           | (r, w') => (r, {| b_world := w'; b_calls := b_calls b |})
           end.

Notation "x <~ c ;; k" := (bindB c (fun x => k))
  (at level 100, c at next level, right associativity).
Notation "c ;;~ k" := (bindB c (fun _ => k))
  (at level 100, right associativity).

Definition setUser (m : gmap string User) (w : World) : World :=
  {| oAuthToken := oAuthToken w; user := m; eventLog := eventLog w;
     now := now w; drawn := drawn w; sent := sent w |}.

Definition YOUTUBE_SCOPES : list string :=
  ["https://www.googleapis.com/auth/youtube.readonly";
   "https://www.googleapis.com/auth/youtube.force-ssl";
   "openid"; "email"; "profile"].

(** [YOUTUBE_SCOPES.join(' ')] *)
Definition joinSpace (l : list string) : string :=
  match l with
  | [] => ""
  | x :: r => fold_left (fun acc y => acc +:+ " " +:+ y) r x
  end.

(** What [handleCallback] returns. *)
Record LoginResult := {
  login_id : string;
  login_email : string;
  login_name : option string;
  login_avatarUrl : option string;
  login_channelId : option string;
  login_token : Token
}.

Section Login.

Variable env : Env.
Variable C : AesGcm.
Variable entropy : nat -> byte.
Variable P : Provider.
Variable G : Google.
Variable J : JwtLib.
(** The id Prisma gives to a row created in a given state ([cuid()]). *)
Variable cuid : World -> string.
(** The answer of [prisma.eventLog.create]: whether the row is stored. *)
Variable eventLog_create : World -> Event -> bool.

Definition oauth2Client_getToken (code : string) : MB TokenResponse :=
  fun b => (getToken G (b_calls b) (sent (b_world b)) code,
            {| b_world := b_world b; b_calls := b_calls b ++ [GetToken code] |}).

Definition oauth2_userinfo_get (access_token : string) : MB GoogleUserInfo :=
  fun b => (userinfo_get G (b_calls b) (sent (b_world b)) access_token,
            {| b_world := b_world b; b_calls := b_calls b ++ [UserinfoGet access_token] |}).

Definition oauth2Client_revokeToken (access_token : string) : MB unit :=
  fun b => (revokeToken G (b_calls b) (sent (b_world b)) access_token,
            {| b_world := b_world b; b_calls := b_calls b ++ [RevokeToken access_token] |}).

(** The rows of [prisma.user] that satisfy [f]. *)
Definition usersWhere (f : User -> bool) (w : World) : list (string * User) :=
  List.filter (fun kv => f (snd kv)) (map_to_list (user w)).

(** [prisma.user.upsert({ where: { googleId }, update, create })].  In the
    schema (the table of the README) [id] is the primary key, and
    [googleId] and [email] are unique: writing an email that another row
    holds is rejected, and so is an id that is taken; the rejection is held
    as a plain error with the message of the constraint.  [name] and
    [avatarUrl] are columns [User] does not hold. *)
Definition user_upsert (googleId email : string) (channelId : option string) : M User :=
  fun w =>
    match usersWhere (fun u => String.eqb (user_googleId u) googleId) w with
    | (key, row) :: _ =>
        match usersWhere (fun u => String.eqb (user_email u) email
                                   && negb (String.eqb (user_id u) (user_id row))) w with
        | _ :: _ => (Throw (JsError "Unique constraint failed on the fields: (email)"), w)
        | [] =>
            let row' := {| user_id := user_id row; user_email := email;
                           user_googleId := user_googleId row;
                           user_channelId := channelId |} in
            (Ok row', setUser (<[key := row']> (user w)) w)
        end
    | [] =>
        match usersWhere (fun u => String.eqb (user_email u) email) w with
        | _ :: _ => (Throw (JsError "Unique constraint failed on the fields: (email)"), w)
        | [] =>
            match user w !! cuid w with
            | Some _ => (Throw (JsError "Unique constraint failed on the fields: (id)"), w)
            | None =>
                let row' := {| user_id := cuid w; user_email := email;
                               user_googleId := googleId; user_channelId := channelId |} in
                (Ok row', setUser (<[cuid w := row']> (user w)) w)
            end
        end
    end.

(** [tokenData.expiry_date ? new Date(tokenData.expiry_date)
                            : new Date(Date.now() + 3600000)] *)
Definition expiryOf (tokenData : TokenResponse) : M Z :=
  match truthyZ (tr_expiry_date tokenData) with
  | Some d => ret d
  | None => t <- Date_now ;; ret (t + 3600000)
  end.

(** [prisma.oAuthToken.upsert({ where: { userId }, update, create })] of
    [handleCallback].  Both object literals are built, [update] first, before
    the row is looked up; a [refreshToken] that is [undefined] in [update]
    leaves the column as it is. *)
Definition oAuthToken_upsert (userId : string) (tokenData : TokenResponse) : M unit :=
  ua <- encrypt env C entropy (tr_access_token tokenData) ;;
  ur <- match truthy (tr_refresh_token tokenData) with
        | Some rt => x <- encrypt env C entropy rt ;; ret (Some x)
        | None => ret None
        end ;;
  ue <- expiryOf tokenData ;;
  let scope' := orElse (tr_scope tokenData) (joinSpace YOUTUBE_SCOPES) in
  ca <- encrypt env C entropy (tr_access_token tokenData) ;;
  cr <- encrypt env C entropy (orElse (tr_refresh_token tokenData) "") ;;
  ce <- expiryOf tokenData ;;
  fun w =>
    match oAuthToken w !! userId with
    | Some r =>
        (Ok tt, setOAuthToken
                  (<[userId := {| accessToken := ua;
                                  refreshToken := default (refreshToken r) ur;
                                  accessTokenExpiresAt := ue;
                                  scope := scope' |}]> (oAuthToken w)) w)
    | None =>
        (Ok tt, setOAuthToken
                  (<[userId := {| accessToken := ca; refreshToken := cr;
                                  accessTokenExpiresAt := ce;
                                  scope := scope' |}]> (oAuthToken w)) w)
    end.

(** The channel lookup of [handleCallback], with its own [try]/[catch]. *)
Definition lookupChannel (access_token : string) : M (option string) :=
  tryCatch
    (channelResponse <- youtube_channels_list P access_token ;;
     ret (truthy (firstChannelId channelResponse)))
    (fun _ => ret None).

(** [handleCallback].  The shared [oauth2Client] carries the tokens just
    set: [userinfo.get] and the channel lookup leave with the access token
    of [tokens]. *)
Definition handleCallback (code : string) : MB LoginResult :=
  tokens <~ oauth2Client_getToken code ;;
  userInfo <~ oauth2_userinfo_get (tr_access_token tokens) ;;
  match truthy (gi_id userInfo), truthy (gi_email userInfo) with
  | Some googleId, Some email =>
      channelId <~ inWorld (lookupChannel (tr_access_token tokens)) ;;
      u <~ inWorld (user_upsert googleId email channelId) ;;
      inWorld (oAuthToken_upsert (user_id u) tokens) ;;~
      inWorld (EventService_log eventLog_create "login" (Some (user_id u))) ;;~
      jwt <~ inWorld (generateToken env J
                        {| req_id := user_id u; req_email := user_email u;
                           req_googleId := user_googleId u |}) ;;
      retB {| login_id := user_id u; login_email := user_email u;
              login_name := truthy (gi_name userInfo);
              login_avatarUrl := truthy (gi_picture userInfo);
              login_channelId := user_channelId u;
              login_token := jwt |}
  | _, _ => throwB (JsError "Failed to get user information from Google")
  end.

(** [getUserProfile]; of the selected columns, those [User] holds. *)
Definition getUserProfile (userId : string) : M User :=
  u <- user_findUnique userId ;;
  match u with
  | Some u => ret u
  | None => throw (JsError "User not found")
  end.

(** [logout]; it resolves to [{ success: true }] on every path. *)
Definition logout (userId : string) : MB unit :=
  tryCatchB
    (tokenRecord <~ inWorld (oAuthToken_findUnique userId) ;;
     match tokenRecord with
     | Some tokenRecord =>
         accessToken <~ inWorld (lift (decrypt env C (accessToken tokenRecord))) ;;
         tryCatchB (oauth2Client_revokeToken accessToken) (fun _ => retB tt)
     | None => retB tt
     end ;;~
     inWorld (EventService_log eventLog_create "logout" (Some userId)))
    (fun _ => retB tt).

End Login.

Section CommentWriting.

Variable env : Env.
Variable C : AesGcm.
Variable entropy : nat -> byte.
Variable P : Provider.
Variable G : Google.
(** [new Date(t).toISOString()] *)
Variable toISOString : Z -> string.
(** The answer of [prisma.eventLog.create]: whether the row is stored. *)
Variable eventLog_create : World -> Event -> bool.

Definition youtube_commentThreads_insert (youtube videoId text : string) : MB ThreadResource :=
  fun b => (commentThreads_insert G (b_calls b) (sent (b_world b)) youtube videoId text,
            {| b_world := b_world b;
               b_calls := b_calls b ++ [CommentThreadsInsert youtube videoId text] |}).

Definition youtube_comments_insert (youtube parentId text : string) : MB CommentResource :=
  fun b => (comments_insert G (b_calls b) (sent (b_world b)) youtube parentId text,
            {| b_world := b_world b;
               b_calls := b_calls b ++ [CommentsInsert youtube parentId text] |}).

(** The comment object both functions build from the id and the snippet
    of the resource the provider returns. *)
Definition posted (id : option string) (snippet : option CommentSnippet)
    (text : string) (t : Z) : Comment :=
  {| c_id := orElse id "";
     c_authorDisplayName := orElse (snippet ≫= authorDisplayName) "You";
     c_authorProfileImageUrl := orElse (snippet ≫= authorProfileImageUrl) "";
     c_authorChannelId := orElse (snippet ≫= authorChannelId) "";
     c_textDisplay := orElse (snippet ≫= textDisplay) text;
     c_textOriginal := orElse (snippet ≫= textOriginal) text;
     c_likeCount := 0;
     c_publishedAt := toISOString t;
     c_updatedAt := toISOString t;
     canDelete := true |}.

Definition addComment (userId videoId text : string) : MB CommentThread :=
  tryCatchB
    (youtube <~ inWorld (getClient env C entropy P userId) ;;
     thread <~ youtube_commentThreads_insert youtube videoId text ;;
     let topComment := thread_topLevelComment thread ≫= comment_snippet in
     inWorld (EventService_log eventLog_create "comment_added" (Some userId)) ;;~
     t <~ inWorld Date_now ;;
     retB {| t_id := orElse (thread_id thread) "";
             topLevelComment :=
               posted (thread_topLevelComment thread ≫= comment_id) topComment text t;
             totalReplyCount := 0;
             replies := [] |})
    (fun error => throwB (handleYouTubeQuotaError error)).

Definition replyToComment (userId parentId text : string) : MB Comment :=
  tryCatchB
    (youtube <~ inWorld (getClient env C entropy P userId) ;;
     reply <~ youtube_comments_insert youtube parentId text ;;
     inWorld (EventService_log eventLog_create "reply_added" (Some userId)) ;;~
     t <~ inWorld Date_now ;;
     retB (posted (comment_id reply) (comment_snippet reply) text t))
    (fun error => throwB (handleYouTubeQuotaError error)).

End CommentWriting.

(** ** Frontend: lib/api.ts, store/authStore.ts, pages/AuthCallback.tsx *)

(** The outcome of a request made through [api]: the response data, or the
    rejection with its [error.response?.status]. *)
Inductive Answer (A : Type) :=
| Resolved (data : A)
| Rejected (status : option Z).
Arguments Resolved {A} data.
Arguments Rejected {A} status.

Section Frontend.

(** The user object of [/auth/me]; the store keeps it and never looks
    inside. *)
Variable Profile : Type.

Record AuthState := {
  st_user : option Profile;
  st_token : option string;
  isAuthenticated : bool;
  isLoading : bool;
  st_error : option string
}.

(** The store, the [token] item of [localStorage], and the last address
    assigned to [window.location.href]. *)
Record Browser := {
  store : AuthState;
  localStorage_token : option string;
  location_href : option string
}.

(** The store as it is created. *)
Definition useAuthStore (localStorage_token : option string) : AuthState :=
  {| st_user := None; st_token := localStorage_token; isAuthenticated := false;
     isLoading := true; st_error := None |}.

(** The response interceptor of [api], on a rejection. *)
Definition responseInterceptor (status : option Z) (b : Browser) : Browser :=
  if optZ_eqb status 401
  then {| store := store b; localStorage_token := None; location_href := Some "/login" |}
  else b.

(** The Authorization header the request interceptor of [api] adds. *)
Definition requestInterceptor (b : Browser) : option string :=
  match truthy (localStorage_token b) with
  | Some token => Some ("Bearer " +:+ token)
  | None => None
  end.

Definition setToken (token : string) (b : Browser) : Browser :=
  {| store := {| st_user := st_user (store b); st_token := Some token;
                 isAuthenticated := true; isLoading := isLoading (store b);
                 st_error := st_error (store b) |};
     localStorage_token := Some token;
     location_href := location_href b |}.

(** [fetchUser], given the outcome of [authApi.getCurrentUser()]; [true]
    when it resolves, [false] when it rethrows. *)
Definition fetchUser (answer : Answer Profile) (b : Browser) : bool * Browser :=
  match answer with
  | Resolved data =>
      (true,
       {| store := {| st_user := Some data; st_token := st_token (store b);
                      isAuthenticated := true; isLoading := isLoading (store b);
                      st_error := None |};
          localStorage_token := localStorage_token b;
          location_href := location_href b |})
  | Rejected status =>
      let b := responseInterceptor status b in
      (false,
       {| store := {| st_user := None; st_token := None;
                      isAuthenticated := false; isLoading := isLoading (store b);
                      st_error := st_error (store b) |};
          localStorage_token := None;
          location_href := location_href b |})
  end.

(** [login], given the outcome of [authApi.getAuthUrl()]. *)
Definition login (answer : Answer string) (b : Browser) : bool * Browser :=
  match answer with
  | Resolved url =>
      (true, {| store := store b; localStorage_token := localStorage_token b;
                location_href := Some url |})
  | Rejected status =>
      let b := responseInterceptor status b in
      (false,
       {| store := {| st_user := st_user (store b); st_token := st_token (store b);
                      isAuthenticated := isAuthenticated (store b);
                      isLoading := isLoading (store b);
                      st_error := Some "Failed to initiate login" |};
          localStorage_token := localStorage_token b;
          location_href := location_href b |})
  end.

(** The [logout] of the store, given the outcome of [authApi.logout()]. *)
Definition store_logout (answer : Answer unit) (b : Browser) : Browser :=
  let b := match answer with
           | Resolved _ => b
           | Rejected status => responseInterceptor status b
           end in
  {| store := {| st_user := None; st_token := None; isAuthenticated := false;
                 isLoading := isLoading (store b); st_error := st_error (store b) |};
     localStorage_token := None;
     location_href := location_href b |}.

(** [initialize]; the outcome of [getCurrentUser] is used only when the
    store holds a token. *)
Definition initialize (answer : Answer Profile) (b : Browser) : Browser :=
  match truthy (st_token (store b)) with
  | None =>
      {| store := {| st_user := st_user (store b); st_token := st_token (store b);
                     isAuthenticated := false; isLoading := false;
                     st_error := st_error (store b) |};
         localStorage_token := localStorage_token b;
         location_href := location_href b |}
  | Some _ =>
      let b := snd (fetchUser answer b) in
      {| store := {| st_user := st_user (store b); st_token := st_token (store b);
                     isAuthenticated := isAuthenticated (store b); isLoading := false;
                     st_error := st_error (store b) |};
         localStorage_token := localStorage_token b;
         location_href := location_href b |}
  end.

(** The calls of the store, each with the outcome of the request it
    makes. *)
Inductive Action :=
| SetToken (token : string)
| FetchUser (answer : Answer Profile)
| Login (answer : Answer string)
| Logout (answer : Answer unit)
| Initialize (answer : Answer Profile).

Definition act (a : Action) (b : Browser) : Browser :=
  match a with
  | SetToken token => setToken token b
  | FetchUser answer => snd (fetchUser answer b)
  | Login answer => snd (login answer b)
  | Logout answer => store_logout answer b
  | Initialize answer => initialize answer b
  end.

(** Calls made one after the other, the first of the list first. *)
Definition acts (l : list Action) (b : Browser) : Browser :=
  fold_left (fun b a => act a b) l b.

(** The page as the module leaves it when it is loaded: the store is
    created from [localStorage] and [initialize] is called. *)
Definition loaded (localStorage_token : option string) (answer : Answer Profile) : Browser :=
  initialize answer
    {| store := useAuthStore localStorage_token;
       localStorage_token := localStorage_token;
       location_href := None |}.

(** *** pages/AuthCallback.tsx *)

Inductive Status := status_loading | status_success | status_error.

(** The state of the component, and whether the move to ["/"] has been
    scheduled. *)
Record CallbackView := {
  cv_status : Status;
  cv_errorMessage : string;
  cv_navigates : bool
}.

Record SearchParams := {
  param_token : option string;
  param_message : option string;
  param_error : option string
}.

(** The [handleCallback] of the component's effect.  [decodeURIComponent]
    is [None] where the function throws. *)
Definition AuthCallback_handleCallback (decodeURIComponent : string -> option string)
    (searchParams : SearchParams) (answer : Answer Profile) (b : Browser)
  : CallbackView * Browser :=
  let token := param_token searchParams in
  let error := match truthy (param_message searchParams) with
               | Some m => Some m
               | None => param_error searchParams
               end in
  match truthy error with
  | Some error =>
      match decodeURIComponent error with
      | Some text =>
          ({| cv_status := status_error; cv_errorMessage := text; cv_navigates := false |}, b)
      | None =>
          ({| cv_status := status_error; cv_errorMessage := ""; cv_navigates := false |}, b)
      end
  | None =>
      match truthy token with
      | Some token =>
          match fetchUser answer (setToken token b) with
          | (true, b') =>
              ({| cv_status := status_success; cv_errorMessage := "";
                  cv_navigates := true |}, b')
          | (false, b') =>
              ({| cv_status := status_error;
                  cv_errorMessage := "Failed to authenticate. Please try again.";
                  cv_navigates := false |}, b')
          end
      | None =>
          ({| cv_status := status_error;
              cv_errorMessage := "No authentication token received";
              cv_navigates := false |}, b)
      end
  end.

(** No token is kept in [localStorage] that the store does not hold. *)
Definition tokenInStore (b : Browser) : Prop :=
  localStorage_token b = None \/ localStorage_token b = st_token (store b).

End Frontend.

Arguments st_user {Profile} _.
Arguments st_token {Profile} _.
Arguments isAuthenticated {Profile} _.
Arguments isLoading {Profile} _.
Arguments st_error {Profile} _.
Arguments store {Profile} _.
Arguments localStorage_token {Profile} _.
Arguments location_href {Profile} _.
Arguments responseInterceptor {Profile} status b.
Arguments requestInterceptor {Profile} b.
Arguments setToken {Profile} token b.
Arguments fetchUser {Profile} answer b.
Arguments login {Profile} answer b.
Arguments store_logout {Profile} answer b.
Arguments initialize {Profile} answer b.
Arguments act {Profile} a b.
Arguments acts {Profile} l b.
Arguments AuthCallback_handleCallback {Profile} decodeURIComponent searchParams answer b.
Arguments tokenInStore {Profile} b.
Arguments SetToken {Profile} token.
Arguments FetchUser {Profile} answer.
Arguments Login {Profile} answer.
Arguments Logout {Profile} answer.
Arguments Initialize {Profile} answer.

(** ** Vocabulary of the further properties *)

(** The key the codec can work with, as a test on the configured text. *)
Definition hexKey (env : Env) : bool :=
  match ENCRYPTION_KEY env with
  | Some key => Nat.eqb (String.length key) 64 && allHex key
  | None => false
  end.

(** The token of the Authorization header, when the header starts with
    "Bearer ". *)
Definition bearerToken (req : AuthenticatedRequest) : option Token :=
  match authorization req with
  | Some (Bearer t) => Some t
  | _ => None
  end.

(** What obtaining an access token may change: the credential store and
    the bytes drawn, and the provider traffic by one exchange at most. *)
Definition tokenWork (w w' : World) : Prop :=
  user w' = user w /\ eventLog w' = eventLog w /\ now w' = now w
  /\ (sent w' = sent w \/ exists rt, sent w' = sent w ++ [RefreshAccessToken rt]).

(** The three errors [handleYouTubeQuotaError] makes. *)
Definition providerFailures : list thrown :=
  [ApiError 429 "YouTube API quota exceeded. Please try again later.";
   ApiError 403 "You do not have permission to perform this action.";
   ApiError 500 "An error occurred with the YouTube API"].

(** No rejection of a provider call is an instance of the backend's own
    [ApiError] class. *)
Definition foreignRejections (P : Provider) : Prop :=
  (forall h rt e, token_endpoint P h rt = Throw e -> instanceof_ApiError e = false)
  /\ (forall h a e, channels_list P h a = Throw e -> instanceof_ApiError e = false)
  /\ (forall h a i e, comments_list P h a i = Throw e -> instanceof_ApiError e = false)
  /\ (forall h a i e, comments_delete P h a i = Throw e -> instanceof_ApiError e = false).

(** Every row of the user table is stored under its own id. *)
Definition keyedById (w : World) : Prop :=
  forall k u, user w !! k = Some u -> user_id u = k.

(** Every time span the token library reads is positive. *)
Definition positiveSpans (J : JwtLib) : Prop :=
  forall s span, timespan J s = Some span -> 0 < span.

(** A computation that neither reads nor writes the event log. *)
Definition ignoresEventLog {A} (c : M A) : Prop :=
  forall l w, c (setEventLog l w) = (fst (c w), setEventLog l (snd (c w))).

(** ** Further concrete inputs *)

Module Cases.

(** A provider on which the caller owns Bob's channel and every
    [comments.delete] runs into the quota. *)
Definition outOfQuota : Provider :=
  {| token_endpoint := token_endpoint (Sample.provider (Some [Some "UC-bob"]));
     channels_list := fun _ _ => Ok (Some [Some "UC-bob"]);
     comments_list := fun _ _ _ => Ok (Some [Sample.bobComment]);
     commentThreads_list := fun _ _ _ _ _ => Throw Sample.quota;
     comments_delete := fun _ _ _ => Throw Sample.quota |}.

End Cases.

(** A backend whose OAuth and comment-writing calls all go through, for
    running the definitions: the code of the login is the access token. *)
Module Online.

Definition google : Google :=
  {| getToken := fun _ _ code =>
       Ok {| tr_access_token := code; tr_refresh_token := Some ("R-" +:+ code);
             tr_expiry_date := None; tr_scope := None |};
     userinfo_get := fun _ _ _ =>
       Ok {| gi_id := Some "g-1"; gi_email := Some "alice@example.org";
             gi_name := Some "Alice"; gi_picture := None |};
     revokeToken := fun _ _ _ => Ok tt;
     commentThreads_insert := fun _ _ _ _ _ =>
       Ok {| thread_id := Some "t9"; thread_topLevelComment := None;
             thread_totalReplyCount := None; thread_replies := None |};
     comments_insert := fun _ _ _ _ _ => Throw Sample.forbidden |}.

Definition toISOString (t : Z) : string := "1970-01-01T00:16:40.000Z".

Definition cuid (w : World) : string :=
  "u" +:+ Buffer.toHex [Buffer.byteOf (N.of_nat (size (user w)) + 1)].

Definition backend (w : World) : Backend := {| b_world := w; b_calls := [] |}.

End Online.

Module Relogin.

(** Google on a later consent: no refresh token comes with the tokens. *)
Definition google : Google :=
  {| getToken := fun _ _ code =>
       Ok {| tr_access_token := code; tr_refresh_token := None;
             tr_expiry_date := Some 2000000; tr_scope := Some "openid" |};
     userinfo_get := userinfo_get Online.google;
     revokeToken := revokeToken Online.google;
     commentThreads_insert := commentThreads_insert Online.google;
     comments_insert := comments_insert Online.google |}.

(** Google answering with a profile that has no email. *)
Definition anonymous : Google :=
  {| getToken := getToken Online.google;
     userinfo_get := fun _ _ _ =>
       Ok {| gi_id := Some "g-1"; gi_email := None; gi_name := None; gi_picture := None |};
     revokeToken := revokeToken Online.google;
     commentThreads_insert := commentThreads_insert Online.google;
     comments_insert := comments_insert Online.google |}.

End Relogin.

(** * Properties *)

(** ** Hex text and splitting *)

Lemma fromHex_byte (x : byte) (r : string) :
  Buffer.fromHex
    (String (Buffer.hexDigit (Byte.to_N x / 16))
       (String (Buffer.hexDigit (Byte.to_N x mod 16)) r))
  = x :: Buffer.fromHex r.
Proof. destruct x; reflexivity. Qed.

Lemma fromHex_toHex (b : list byte) : Buffer.fromHex (Buffer.toHex b) = b.
Proof.
  induction b as [|x b IH]; [reflexivity|].
  cbn [Buffer.toHex]. rewrite fromHex_byte. now rewrite IH.
Qed.

Lemma append_String (a : ascii) (s r : string) :
  String a s +:+ r = String a (s +:+ r).
Proof. reflexivity. Qed.

Lemma hexDigit_not_colon (x : byte) :
  Ascii.eqb (Buffer.hexDigit (Byte.to_N x / 16)) ":" = false
  /\ Ascii.eqb (Buffer.hexDigit (Byte.to_N x mod 16)) ":" = false.
Proof. destruct x; split; reflexivity. Qed.

Lemma toHex_no_colon (b : list byte) : occurs ":" (Buffer.toHex b) = false.
Proof.
  induction b as [|x b IH]; [reflexivity|].
  cbn [Buffer.toHex occurs]. destruct (hexDigit_not_colon x) as [-> ->]. exact IH.
Qed.

Lemma toHex_empty (b : list byte) : Buffer.toHex b = "" <-> b = [].
Proof. destruct b; cbn; split; congruence. Qed.

Lemma split_cons_nonempty (sep : ascii) (s : string) : split sep s <> [].
Proof.
  induction s as [|c r IH]; cbn; [congruence|].
  destruct (Ascii.eqb c sep); [congruence|].
  destruct (split sep r); congruence.
Qed.

Lemma split_free (sep : ascii) (a : string) :
  occurs sep a = false -> split sep a = [a].
Proof.
  induction a as [|c r IH]; cbn; [reflexivity|].
  intros H. apply orb_false_iff in H as [Hc Hr].
  rewrite Hc, (IH Hr). reflexivity.
Qed.

Lemma split_app (sep : ascii) (a b : string) :
  occurs sep a = false ->
  split sep (a +:+ String sep b) = a :: split sep b.
Proof.
  induction a as [|c r IH]; intros H.
  - change ("" +:+ String sep b) with (String sep b).
    cbn [split]. now rewrite Ascii.eqb_refl.
  - cbn in H. apply orb_false_iff in H as [Hc Hr].
    rewrite append_String. cbn [split]. rewrite Hc, (IH Hr). reflexivity.
Qed.

Lemma split_envelope (a b c : list byte) :
  split ":" (Buffer.toHex a +:+ ":" +:+ Buffer.toHex b +:+ ":" +:+ Buffer.toHex c)
  = [Buffer.toHex a; Buffer.toHex b; Buffer.toHex c].
Proof.
  change (":" +:+ ?x) with (String ":" x).
  rewrite split_app by apply toHex_no_colon.
  change (":" +:+ ?x) with (String ":" x).
  rewrite split_app by apply toHex_no_colon.
  rewrite split_free by apply toHex_no_colon. reflexivity.
Qed.

(** ** Lengths in code units *)

Lemma units_hex (a : ascii) (h : N) (p : nat) (r : string) :
  Buffer.unhex a = Some h -> units p (String a r) = S (units 0 r).
Proof.
  cbn [units]. unfold Buffer.unhex.
  destruct a as [[] [] [] [] [] [] [] []]; vm_compute N_of_ascii;
    cbv [N.leb N.ltb N.compare Pos.compare Pos.compare_cont andb];
    intros; try discriminate; reflexivity.
Qed.

Lemma toHex_units (x : byte) (p : nat) (r : string) :
  units p (String (Buffer.hexDigit (Byte.to_N x / 16))
             (String (Buffer.hexDigit (Byte.to_N x mod 16)) r))
  = S (S (units 0 r)).
Proof. destruct x; reflexivity. Qed.

Lemma jsLength_toHex (b : list byte) : jsLength (Buffer.toHex b) = (2 * length b)%nat.
Proof.
  unfold jsLength. induction b as [|x r IH]; [reflexivity|].
  cbn [Buffer.toHex length]. rewrite toHex_units, IH. lia.
Qed.

Lemma odd_double (n : nat) : Nat.odd (2 * n) = false.
Proof. rewrite Nat.odd_mul. reflexivity. Qed.

Lemma units_positive (s : string) : units 0 s = O -> s = "".
Proof.
  destruct s as [|c r]; [reflexivity|]. cbn [units].
  repeat match goal with |- context [if ?b then _ else _] => destruct b end; discriminate.
Qed.

(** ** The encryption codec *)

Lemma toUtf8_fromUtf8 (s : string) : Buffer.toUtf8 (Buffer.fromUtf8 s) = s.
Proof. apply string_of_list_byte_of_string. Qed.

Lemma fromUtf8_nil (s : string) : Buffer.fromUtf8 s = [] -> s = "".
Proof.
  intros H. rewrite <- (toUtf8_fromUtf8 s), H. reflexivity.
Qed.

Lemma toHex_nonempty (b : list byte) : b <> [] -> Buffer.toHex b <> "".
Proof. intros H E. now apply toHex_empty in E. Qed.

Lemma length_nonempty {A} (l : list A) (n : nat) : length l = S n -> l <> [].
Proof. destruct l; cbn; congruence. Qed.

Section Codec.

Variable env : Env.
Variable C : AesGcm.
Variable entropy : nat -> byte.
Variable keyBuffer : list byte.
Hypothesis laws : AesGcmLaws C.
Hypothesis key : usableKey env keyBuffer.

Lemma seal_ok (iv : list byte) (text : string) :
  seal env C iv text
  = Ok (Buffer.toHex iv +:+ ":" +:+
        Buffer.toHex (snd (gcm_seal C keyBuffer iv (Buffer.fromUtf8 text))) +:+ ":" +:+
        Buffer.toHex (fst (gcm_seal C keyBuffer iv (Buffer.fromUtf8 text)))).
Proof.
  destruct key as [Hk Hl]. unfold seal, sealWith. rewrite Hk, Hl. cbn [Nat.eqb negb].
  change (negb (Nat.eqb 32 32)) with false. cbv iota.
  destruct (gcm_seal C keyBuffer iv (Buffer.fromUtf8 text)); reflexivity.
Qed.

Lemma encrypt_ok (text : string) (w : World) :
  encrypt env C entropy text w
  = (seal env C (map entropy (seq (drawn w) IV_LENGTH)) text,
     setDrawn (drawn w + IV_LENGTH) w).
Proof.
  destruct key as [Hk _]. unfold encrypt, seal. rewrite Hk. reflexivity.
Qed.

(** What [decrypt] does with an envelope, in terms of its fields. *)
Lemma decrypt_fields (e : string) :
  decrypt env C e =
  match envelopeFields e with
  | None => Throw (JsError "Invalid encrypted text format")
  | Some (i, t, c) =>
      if Nat.odd (jsLength c) then Throw (invalidHexLength c)
      else
        match gcm_open C keyBuffer (Buffer.fromHex i) (Buffer.fromHex t) (Buffer.fromHex c) with
        | Some p => Ok (Buffer.toUtf8 p)
        | None => Throw (JsError "Unsupported state or unable to authenticate data")
        end
  end.
Proof.
  destruct key as [Hk Hl]. unfold decrypt, envelopeFields. rewrite Hk, Hl.
  change (negb (Nat.eqb 32 32)) with false. cbv iota.
  destruct (split ":" e) as [|i [|t [|c r]]] eqn:E; cbn [lookup list_lookup].
  - now destruct (split_cons_nonempty ":" e).
  - unfold missing at 2. cbn [truthy]. now rewrite orb_true_r.
  - unfold missing at 3. cbn [truthy]. now rewrite orb_true_r.
  - unfold missing, truthy.
    destruct (String.eqb i ""), (String.eqb t ""), (String.eqb c ""); reflexivity.
Qed.

(** A sealed non-empty text opens to itself. *)
Lemma decrypt_seal (iv : list byte) (text : string) :
  iv <> [] -> text <> "" ->
  forall e, seal env C iv text = Ok e -> decrypt env C e = Ok text.
Proof.
  intros Hiv Htext e He. rewrite seal_ok in He. injection He as <-.
  rewrite decrypt_fields. unfold envelopeFields. rewrite split_envelope.
  pose proof (gcm_tag_length C laws keyBuffer iv (Buffer.fromUtf8 text)) as Ht.
  pose proof (gcm_length C laws keyBuffer iv (Buffer.fromUtf8 text)) as Hc.
  destruct key as [_ Hl].
  pose proof (gcm_open_seal C laws keyBuffer iv (Buffer.fromUtf8 text) Hl Hiv) as Ho.
  destruct (gcm_seal C keyBuffer iv (Buffer.fromUtf8 text)) as [c t].
  cbn [fst snd] in *.
  assert (Buffer.toHex iv <> "") as H1 by now apply toHex_nonempty.
  assert (Buffer.toHex t <> "") as H2
    by (apply toHex_nonempty; eapply length_nonempty; exact Ht).
  assert (Buffer.toHex c <> "") as H3.
  { apply toHex_nonempty. intros ->. cbn in Hc.
    apply Htext, fromUtf8_nil. destruct (Buffer.fromUtf8 text); [reflexivity|discriminate]. }
  apply String.eqb_neq in H1, H2, H3. rewrite H1, H2, H3. cbn [orb].
  rewrite jsLength_toHex, odd_double.
  rewrite !fromHex_toHex, Ho, toUtf8_fromUtf8. reflexivity.
Qed.

(** The envelope of the empty text has an empty third field, which
    [decrypt] takes for a malformed envelope. *)
Lemma decrypt_seal_empty (iv : list byte) :
  forall e, seal env C iv "" = Ok e ->
  decrypt env C e = Throw (JsError "Invalid encrypted text format").
Proof.
  intros e He. rewrite seal_ok in He. injection He as <-.
  rewrite decrypt_fields. unfold envelopeFields. rewrite split_envelope.
  pose proof (gcm_length C laws keyBuffer iv (Buffer.fromUtf8 "")) as Hc.
  destruct (gcm_seal C keyBuffer iv (Buffer.fromUtf8 "")) as [c t].
  cbn [fst snd] in *. destruct c; [|discriminate].
  cbn [Buffer.toHex]. now rewrite !orb_true_r.
Qed.

End Codec.

Lemma PlainGcm_laws : AesGcmLaws PlainGcm.cipher.
Proof.
  split; cbn [gcm_seal gcm_open PlainGcm.cipher PlainGcm.seal fst snd].
  - intros k iv p Hk Hiv. unfold PlainGcm.open.
    rewrite Hk, String.eqb_refl. destruct iv; [contradiction|reflexivity].
  - reflexivity.
  - intros k iv p. unfold PlainGcm.tagOf. now rewrite length_map, length_seq.
Qed.

Lemma Sample_key :
  usableKey Sample.env
    (Buffer.fromHex "000102030405060708090a0b0c0d0e0f101112131415161718191a1b1c1d1e1f").
Proof. split; reflexivity. Qed.

Lemma unhex_upperHex (c : ascii) : Buffer.unhex (upperHex c) = Buffer.unhex c.
Proof. destruct c as [[] [] [] [] [] [] [] []]; reflexivity. Qed.

Lemma upperHex_colon (c : ascii) : Ascii.eqb (upperHex c) ":" = Ascii.eqb c ":".
Proof. destruct c as [[] [] [] [] [] [] [] []]; reflexivity. Qed.

Lemma fromHex_upperHexAll (s : string) :
  Buffer.fromHex (upperHexAll s) = Buffer.fromHex s.
Proof.
  revert s. fix IH 1. intros [|a [|b r]]; try reflexivity.
  cbn [upperHexAll Buffer.fromHex]. rewrite !unhex_upperHex, (IH r). reflexivity.
Qed.

Lemma upperHexAll_empty (s : string) :
  String.eqb (upperHexAll s) "" = String.eqb s "".
Proof. destruct s; reflexivity. Qed.

Lemma split_upperHexAll (s : string) :
  split ":" (upperHexAll s) = map upperHexAll (split ":" s).
Proof.
  induction s as [|c r IH]; [reflexivity|].
  cbn [upperHexAll split]. rewrite upperHex_colon, IH.
  destruct (Ascii.eqb c ":"); [reflexivity|].
  destruct (split ":" r) eqn:E; [now destruct (split_cons_nonempty ":" r)|reflexivity].
Qed.

Lemma upperHex_cases (c : ascii) :
  upperHex c = c \/ exists h, Buffer.unhex c = Some h /\ Buffer.unhex (upperHex c) = Some h.
Proof.
  destruct c as [[] [] [] [] [] [] [] []];
    first [left; reflexivity | right; eexists; split; reflexivity].
Qed.

Lemma units_upperHexAll (s : string) (p : nat) : units p (upperHexAll s) = units p s.
Proof.
  revert p. induction s as [|c r IH]; intros p; [reflexivity|].
  cbn [upperHexAll]. destruct (upperHex_cases c) as [->|[h [H1 H2]]].
  - cbn [units]. destruct p; rewrite !IH; reflexivity.
  - rewrite (units_hex _ h p _ H1), (units_hex _ h p _ H2), IH. reflexivity.
Qed.

(** Writing the hex letters of an envelope in upper case changes nothing
    for [decrypt], whatever the cipher. *)
Lemma decrypt_upperHexAll (env : Env) (C : AesGcm) (e : string) :
  decrypt env C (upperHexAll e) = decrypt env C e.
Proof.
  unfold decrypt. destruct (loadKey env) as [kb|]; [|reflexivity].
  rewrite split_upperHexAll.
  destruct (split ":" e) as [|i [|t [|c r]]]; try reflexivity;
    cbn [map lookup list_lookup];
    unfold missing, truthy, default, from_option, id, invalidHexLength, jsLength;
    rewrite ?upperHexAll_empty, ?fromHex_upperHexAll, ?units_upperHexAll;
    repeat match goal with
           | |- context [String.eqb ?x ""] => destruct (String.eqb x "")
           end; reflexivity.
Qed.





(** One more hex digit at the end of the same envelope: the third field
    has eleven characters and [decipher.update] refuses it. *)
Example decrypt_odd_length :
  decrypt Sample.env PlainGcm.cipher
    "abd0f51a3f6489aed3f81d42678cb1d6:9495969798999a9b9c9d9e9fa0a1a2a3:68656c6c6f0"
  = Throw (JsError "The argument 'encoding' is invalid for data of length 11. Received 'hex'").
Proof. vm_compute. reflexivity. Qed.

(** ** The error classifier *)

Lemma strictEq_true (x : option string) (s : string) :
  strictEq x s = true <-> x = Some s.
Proof.
  destruct x as [v|]; cbn; [|split; discriminate].
  destruct (String.eqb_spec v s); split; congruence.
Qed.

Lemma optZ_eqb_true (x : option Z) (n : Z) : optZ_eqb x n = true <-> x = Some n.
Proof.
  destruct x as [m|]; cbn; [|split; discriminate].
  destruct (Z.eqb_spec m n); split; congruence.
Qed.

Lemma classify_quota (error : thrown) :
  responseStatus error = Some 403 -> responseReason error = Some "quotaExceeded" ->
  handleYouTubeQuotaError error
  = ApiError 429 "YouTube API quota exceeded. Please try again later.".
Proof.
  intros Hs Hr. unfold handleYouTubeQuotaError. now rewrite Hs, Hr.
Qed.

Lemma classify_forbidden (error : thrown) :
  responseStatus error = Some 403 -> responseReason error = Some "forbidden" ->
  handleYouTubeQuotaError error
  = ApiError 403 "You do not have permission to perform this action.".
Proof.
  intros Hs Hr. unfold handleYouTubeQuotaError. now rewrite Hs, Hr.
Qed.

Lemma classify_other (error : thrown) :
  ~ (responseStatus error = Some 403 /\
     (responseReason error = Some "quotaExceeded" \/
      responseReason error = Some "forbidden")) ->
  handleYouTubeQuotaError error = ApiError 500 "An error occurred with the YouTube API".
Proof.
  intros H. unfold handleYouTubeQuotaError.
  destruct (optZ_eqb (responseStatus error) 403) eqn:Hs; [|reflexivity].
  apply optZ_eqb_true in Hs.
  destruct (strictEq (responseReason error) "quotaExceeded") eqn:Hq.
  { apply strictEq_true in Hq. destruct H. auto. }
  destruct (strictEq (responseReason error) "forbidden") eqn:Hf.
  { apply strictEq_true in Hf. destruct H. auto. }
  reflexivity.
Qed.

(** C8: the classifier always answers with an [ApiError]; a 403 with reason
    "quotaExceeded" is [QuotaExceeded], a 403 with reason "forbidden" is
    [PermissionDenied], and every other input is the generic
    [UpstreamError]. *)
Theorem classifier_total (error : thrown) :
  (exists st msg, handleYouTubeQuotaError error = ApiError st msg)
  /\ (responseStatus error = Some 403 /\ responseReason error = Some "quotaExceeded" ->
      kindOf (handleYouTubeQuotaError error) = QuotaExceeded)
  /\ (responseStatus error = Some 403 /\ responseReason error = Some "forbidden" ->
      kindOf (handleYouTubeQuotaError error) = PermissionDenied)
  /\ (~ (responseStatus error = Some 403 /\
         (responseReason error = Some "quotaExceeded" \/
          responseReason error = Some "forbidden")) ->
      kindOf (handleYouTubeQuotaError error) = UpstreamError).
Proof.
  repeat split.
  - unfold handleYouTubeQuotaError.
    destruct (optZ_eqb _ _); [|eauto].
    destruct (strictEq _ "quotaExceeded"); [eauto|].
    destruct (strictEq _ "forbidden"); eauto.
  - intros [Hs Hr]. now rewrite classify_quota.
  - intros [Hs Hr]. now rewrite classify_forbidden.
  - intros H. now rewrite classify_other.
Qed.

Lemma classifier_total_witness :
  kindOf (handleYouTubeQuotaError Sample.quota) = QuotaExceeded
  /\ kindOf (handleYouTubeQuotaError Sample.forbidden) = PermissionDenied
  /\ kindOf (handleYouTubeQuotaError Sample.backendError) = UpstreamError.
Proof.
  split; [|split].
  - apply (proj1 (proj2 (classifier_total Sample.quota))). split; reflexivity.
  - apply (proj1 (proj2 (proj2 (classifier_total Sample.forbidden)))). split; reflexivity.
  - apply (proj2 (proj2 (proj2 (classifier_total Sample.backendError)))).
    intros [H _]. discriminate H.
Defined.

(** C5, as stated, fails: a provider 404 and a provider 401 are classified
    like an unrecognised 500, as the generic [UpstreamError]. *)
Lemma classifier_404_401_counterexample :
  kindOf (handleYouTubeQuotaError Sample.notFound) <> ResourceNotFound
  /\ kindOf (handleYouTubeQuotaError Sample.unauthorized) <> ReauthorizationRequired
  /\ handleYouTubeQuotaError Sample.notFound = handleYouTubeQuotaError Sample.backendError
  /\ handleYouTubeQuotaError Sample.unauthorized = handleYouTubeQuotaError Sample.backendError.
Proof. repeat split; try reflexivity; vm_compute; discriminate. Qed.

(** C5, as amended: the classifier maps every provider error with HTTP
    status 404 or 401 to the generic [UpstreamError] kind, the [ApiError] with
    status 500. *)
Theorem classifier_404_401 (error : thrown) :
  responseStatus error = Some 404 \/ responseStatus error = Some 401 ->
  handleYouTubeQuotaError error = ApiError 500 "An error occurred with the YouTube API"
  /\ kindOf (handleYouTubeQuotaError error) = UpstreamError.
Proof.
  intros H.
  assert (handleYouTubeQuotaError error
          = ApiError 500 "An error occurred with the YouTube API") as E.
  { apply classify_other. intros [Hs _]. destruct H as [H|H]; congruence. }
  now rewrite E.
Qed.

Lemma classifier_404_401_witness :
  (handleYouTubeQuotaError Sample.notFound
     = ApiError 500 "An error occurred with the YouTube API"
   /\ kindOf (handleYouTubeQuotaError Sample.notFound) = UpstreamError)
  /\ (handleYouTubeQuotaError Sample.unauthorized
     = ApiError 500 "An error occurred with the YouTube API"
   /\ kindOf (handleYouTubeQuotaError Sample.unauthorized) = UpstreamError).
Proof.
  split.
  - apply (classifier_404_401 Sample.notFound). left. reflexivity.
  - apply (classifier_404_401 Sample.unauthorized). right. reflexivity.
Defined.

(** ** Session tokens *)

Section SessionProperties.

Variable env : Env.
Variable J : JwtLib.

Lemma generateToken_inv (u : RequestUser) (w w' : World) (tok : Token) :
  generateToken env J u w = (Ok tok, w') ->
  exists secret p,
    truthy (JWT_SECRET env) = Some secret
    /\ tok = Jws p (hs256 J secret p)
    /\ userId p = req_id u /\ iat p = now w / 1000 /\ w' = w.
Proof.
  unfold generateToken. destruct (truthy (JWT_SECRET env)) as [secret|]; [|discriminate].
  unfold jwt_sign, bind, Date_now, throw, ret.
  destruct (timespan J _) as [span|]; [|discriminate].
  intros H. injection H as <- <-. eexists secret, _. repeat split; reflexivity.
Qed.

(** What the middleware answers once [jwt.verify] has thrown one of the
    errors of the jsonwebtoken package. *)
Lemma authenticate_bearer (p : JwtPayload) (s : string) (cookie : option Token)
    (secret : string) (w : World) :
  truthy (JWT_SECRET env) = Some secret ->
  authenticate env J {| authorization := Some (Bearer (Jws p s)); cookie_token := cookie |} w
  = match jwt_verify J (Jws p s) secret w with
    | (Ok decoded, w') =>
        match user w' !! userId decoded with
        | Some u => (Ok {| req_id := user_id u; req_email := user_email u;
                           req_googleId := user_googleId u |}, w')
        | None => (Throw (ApiError 401 "User not found"), w')
        end
    | (Throw (JwtError _ _), w') => (Throw (ApiError 401 "Invalid token"), w')
    | (Throw e, w') => (Throw e, w')
    end.
Proof.
  intros Hs. unfold authenticate, tryCatch. cbn [authorization noToken andb].
  rewrite Hs. unfold bind at 1.
  destruct (jwt_verify J (Jws p s) secret w) as [[decoded|e] w'] eqn:E.
  - unfold bind, user_findUnique, throw, ret.
    destruct (user w' !! userId decoded); reflexivity.
  - unfold jwt_verify, bind, Date_now, throw, ret in E.
    destruct (negb _); [injection E as <- <-; reflexivity|].
    destruct (exp p <=? now w / 1000); [injection E as <- <-; reflexivity|discriminate].
Qed.

(** No request is answered with "Token expired". *)
Lemma authenticate_never_token_expired (req : AuthenticatedRequest) (w : World) :
  fst (authenticate env J req w) <> Throw (ApiError 401 "Token expired").
Proof.
  unfold authenticate, tryCatch, jwt_verify, bind, user_findUnique, Date_now, throw, ret.
  repeat match goal with
         | |- context [match ?x with _ => _ end] =>
             match x with
             | context [match _ with _ => _ end] => fail 1
             | _ => destruct x eqn:?
             end
         | H : (_, _) = (_, _) |- _ => injection H as <- <-
         end; cbn; try discriminate; try congruence.
Qed.

End SessionProperties.

(** C6 on the code: a token issued by [generateToken] and presented after
    its expiry is answered with the [ApiError] 401 "Invalid token", the very
    answer given to the same token with another signature; and the branch of
    the middleware for "Token expired" is never taken, whatever the
    request. *)
Theorem authenticate_expired_as_invalid (env : Env) (J : JwtLib) (u : RequestUser)
    (w w' later : World) (p : JwtPayload) (s s' : string) (cookie : option Token) :
  generateToken env J u w = (Ok (Jws p s), w') ->
  exp p <= now later / 1000 ->
  s' <> s ->
  authenticate env J {| authorization := Some (Bearer (Jws p s)); cookie_token := cookie |} later
    = (Throw (ApiError 401 "Invalid token"), later)
  /\ authenticate env J {| authorization := Some (Bearer (Jws p s')); cookie_token := cookie |} w
    = (Throw (ApiError 401 "Invalid token"), w)
  /\ (forall req w0, fst (authenticate env J req w0) <> Throw (ApiError 401 "Token expired")).
Proof.
  intros Hgen Hexp Hs'.
  destruct (generateToken_inv env J u w w' _ Hgen) as (secret & p0 & Hsec & Htok & _).
  injection Htok as <- ->.
  rewrite !(authenticate_bearer env J _ _ _ secret) by exact Hsec.
  unfold jwt_verify, bind, Date_now, throw, ret.
  rewrite String.eqb_refl. cbn [negb].
  apply Z.leb_le in Hexp. rewrite Hexp.
  apply String.eqb_neq in Hs'. rewrite Hs'.
  split; [reflexivity|]. split; [reflexivity|].
  apply authenticate_never_token_expired.
Qed.

Lemma authenticate_expired_as_invalid_witness :
  authenticate Sample.env Sample.jwt
    {| authorization :=
         Some (Bearer (Jws Sample.alicePayload (hs256 Sample.jwt "s3cret" Sample.alicePayload)));
       cookie_token := None |} Sample.later
    = (Throw (ApiError 401 "Invalid token"), Sample.later)
  /\ authenticate Sample.env Sample.jwt
    {| authorization := Some (Bearer (Jws Sample.alicePayload "forged"));
       cookie_token := None |} Sample.world
    = (Throw (ApiError 401 "Invalid token"), Sample.world)
  /\ (forall req w0,
        fst (authenticate Sample.env Sample.jwt req w0) <> Throw (ApiError 401 "Token expired")).
Proof.
  apply (authenticate_expired_as_invalid Sample.env Sample.jwt Sample.alice
           Sample.world Sample.world Sample.later).
  - reflexivity.
  - vm_compute. discriminate.
  - vm_compute. discriminate.
Defined.

(** A token presented in time, with its signature intact, is accepted. *)
Example authenticate_in_time :
  exists tok,
    fst (generateToken Sample.env Sample.jwt Sample.alice Sample.registered) = Ok tok
    /\ fst (authenticate Sample.env Sample.jwt
              {| authorization := Some (Bearer tok); cookie_token := None |}
              Sample.registered) = Ok Sample.alice.
Proof. eexists. split; vm_compute; reflexivity. Qed.

(** ** Access tokens and their refresh *)

Section Refresh.

Variable env : Env.
Variable C : AesGcm.
Variable entropy : nat -> byte.
Variable P : Provider.

(** The fresh path: nothing but a read and a decryption. *)
Lemma getValidAccessToken_fresh (userId : string) (w : World) (tokenRecord : OAuthToken) :
  oAuthToken w !! userId = Some tokenRecord ->
  (accessTokenExpiresAt tokenRecord - now w <? BUFFER_MS) = false ->
  getValidAccessToken env C entropy P userId w
  = (decrypt env C (accessToken tokenRecord), w).
Proof.
  intros Hrec Hfresh.
  unfold getValidAccessToken, bind, oAuthToken_findUnique, Date_now.
  rewrite Hrec, Hfresh. reflexivity.
Qed.

(** The stale path is [refreshAccessToken] on the stored envelope. *)
Lemma getValidAccessToken_stale (userId : string) (w : World) (tokenRecord : OAuthToken) :
  oAuthToken w !! userId = Some tokenRecord ->
  (accessTokenExpiresAt tokenRecord - now w <? BUFFER_MS) = true ->
  getValidAccessToken env C entropy P userId w
  = refreshAccessToken env C entropy P userId (refreshToken tokenRecord) w.
Proof.
  intros Hrec Hstale.
  unfold getValidAccessToken, bind, oAuthToken_findUnique, Date_now.
  rewrite Hrec, Hstale. reflexivity.
Qed.

Lemma truthy_of_nonempty (s : string) : s <> "" -> truthy (Some s) = Some s.
Proof. intros H. cbn. apply String.eqb_neq in H. now rewrite H. Qed.

(** The client, for a refresh token that is not empty. *)
Lemma oauth2Client_refreshAccessToken_spec (rt : string) (w : World) :
  rt <> "" ->
  oauth2Client_refreshAccessToken P rt w
  = (match token_endpoint P (sent w) rt with
     | Ok tokens => Ok (withRefreshToken (Some rt) tokens)
     | Throw e => Throw e
     end,
     setSent (sent w ++ [RefreshAccessToken rt]) w).
Proof.
  intros H. unfold oauth2Client_refreshAccessToken. now rewrite (truthy_of_nonempty rt H).
Qed.

(** Without a refresh token the client sends nothing. *)
Lemma oauth2Client_refreshAccessToken_empty (w : World) :
  oauth2Client_refreshAccessToken P "" w = (Throw (JsError "No refresh token is set."), w).
Proof. reflexivity. Qed.

Lemma refreshAccessToken_undecryptable (userId e : string) (err : thrown) (w : World) :
  decrypt env C e = Throw err ->
  refreshAccessToken env C entropy P userId e w = (Throw err, w).
Proof.
  intros H. unfold refreshAccessToken, bind, lift. now rewrite H.
Qed.

Variable keyBuffer : list byte.
Hypothesis key : usableKey env keyBuffer.

Lemma encrypt_envelope (text : string) (w : World) :
  encrypt env C entropy text w
  = (Ok (envelopeOf C keyBuffer (ivAt entropy (drawn w)) text),
     setDrawn (drawn w + IV_LENGTH) w).
Proof.
  rewrite (encrypt_ok env C entropy keyBuffer key).
  now rewrite (seal_ok env C keyBuffer key).
Qed.

(** The [data] of the update, and the bytes drawn to build it. *)
Lemma updateData_spec (credentials : Credentials) (a : string) (w : World) :
  updateData env C entropy credentials a w
  = (Ok {| data_accessToken := envelopeOf C keyBuffer (ivAt entropy (drawn w)) a;
           data_accessTokenExpiresAt :=
             default (now w + 3600000) (truthyZ (expiry_date credentials));
           data_refreshToken :=
             match truthy (refresh_token credentials) with
             | Some r => Some (envelopeOf C keyBuffer
                                 (ivAt entropy (drawn w + IV_LENGTH)) r)
             | None => None
             end |},
     setDrawn (match truthy (refresh_token credentials) with
               | Some _ => drawn w + IV_LENGTH + IV_LENGTH
               | None => drawn w + IV_LENGTH
               end)%nat w).
Proof.
  unfold updateData. unfold bind at 1. rewrite encrypt_envelope.
  unfold bind at 1.
  destruct (truthyZ (expiry_date credentials)) as [d|];
    destruct (truthy (refresh_token credentials)) as [r|];
    cbn [default from_option id]; unfold bind, ret, Date_now;
    rewrite ?encrypt_envelope; reflexivity.
Qed.

End Refresh.

(** The two ways of the client. *)
Lemma oauth2Client_refreshAccessToken_cases (P : Provider) (rt : string) (w : World) :
  (rt = ""
   /\ oauth2Client_refreshAccessToken P rt w = (Throw (JsError "No refresh token is set."), w))
  \/ (rt <> ""
      /\ oauth2Client_refreshAccessToken P rt w
         = (match token_endpoint P (sent w) rt with
            | Ok tokens => Ok (withRefreshToken (Some rt) tokens)
            | Throw e => Throw e
            end,
            setSent (sent w ++ [RefreshAccessToken rt]) w)).
Proof.
  destruct (String.eqb_spec rt "") as [->|H].
  - left. split; reflexivity.
  - right. split; [exact H|]. apply oauth2Client_refreshAccessToken_spec, H.
Qed.

Lemma truthy_nonempty (x : option string) (s : string) : truthy x = Some s -> s <> "".
Proof.
  destruct x as [v|]; cbn; [|discriminate].
  destruct (String.eqb_spec v ""); [discriminate|congruence].
Qed.

Lemma ivAt_nonempty (entropy : nat -> byte) (n : nat) : ivAt entropy n <> [].
Proof. discriminate. Qed.

Lemma decrypt_envelopeOf (env : Env) (C : AesGcm) (keyBuffer : list byte)
    (entropy : nat -> byte) (n : nat) (text : string) :
  AesGcmLaws C -> usableKey env keyBuffer -> text <> "" ->
  decrypt env C (envelopeOf C keyBuffer (ivAt entropy n) text) = Ok text.
Proof.
  intros laws key Ht.
  apply (decrypt_seal env C keyBuffer laws key (ivAt entropy n) text);
    [apply ivAt_nonempty|exact Ht|apply (seal_ok env C keyBuffer key)].
Qed.

(** C3: with more than the five-minute buffer left, [getValidAccessToken]
    answers with the decryption of the stored access token, issues no
    provider call and leaves the credential store as it was. *)
Theorem fresh_token_no_io (env : Env) (C : AesGcm) (entropy : nat -> byte) (P : Provider)
    (userId : string) (w : World) (tokenRecord : OAuthToken) :
  oAuthToken w !! userId = Some tokenRecord ->
  BUFFER_MS < accessTokenExpiresAt tokenRecord - now w ->
  let r := getValidAccessToken env C entropy P userId w in
  fst r = decrypt env C (accessToken tokenRecord)
  /\ sent (snd r) = sent w
  /\ oAuthToken (snd r) = oAuthToken w.
Proof.
  intros Hrec Hfresh.
  rewrite (getValidAccessToken_fresh env C entropy P userId w tokenRecord Hrec).
  - repeat split.
  - apply Z.ltb_ge. lia.
Qed.

Lemma fresh_token_no_io_witness :
  let w := Sample.worldWith "R1" 3600000 in
  let r := getValidAccessToken Sample.env PlainGcm.cipher Sample.entropy
             (Sample.provider None) "u1" w in
  fst r = decrypt Sample.env PlainGcm.cipher (Sample.sealed 100 "A1")
  /\ sent (snd r) = sent w
  /\ oAuthToken (snd r) = oAuthToken w.
Proof.
  apply (fresh_token_no_io Sample.env PlainGcm.cipher Sample.entropy (Sample.provider None)
           "u1" (Sample.worldWith "R1" 3600000)
           {| accessToken := Sample.sealed 100 "A1"; refreshToken := Sample.sealed 200 "R1";
              accessTokenExpiresAt := 1000000 + 3600000; scope := "youtube" |}).
  - reflexivity.
  - vm_compute. reflexivity.
Defined.

(** C4, as stated, fails twice: with exactly the buffer window left the call
    succeeds although the refresh secret is empty, and with less left it
    fails with the codec's format error, which is not a
    [ReauthorizationRequired]. *)
Lemma empty_refresh_counterexample :
  seal Sample.env PlainGcm.cipher (ivAt Sample.entropy 200) ""
    = Ok (Sample.sealed 200 "")
  /\ getValidAccessToken Sample.env PlainGcm.cipher Sample.entropy (Sample.provider None)
       "u1" (Sample.worldWith "" 300000)
     = (Ok "A1", Sample.worldWith "" 300000)
  /\ fst (getValidAccessToken Sample.env PlainGcm.cipher Sample.entropy (Sample.provider None)
            "u1" (Sample.worldWith "" 299999))
     = Throw (JsError "Invalid encrypted text format")
  /\ kindOf (JsError "Invalid encrypted text format") <> ReauthorizationRequired.
Proof.
  split; [reflexivity|]. split; [vm_compute; reflexivity|].
  split; [vm_compute; reflexivity|]. vm_compute. discriminate.
Qed.

Lemma loadKey_Throw (env : Env) (e : thrown) :
  loadKey env = Throw e ->
  e = JsError "ENCRYPTION_KEY must be a 64-character hex string (32 bytes)".
Proof.
  unfold loadKey. destruct (ENCRYPTION_KEY env) as [key|]; [|congruence].
  destruct (negb (Nat.eqb (jsLength key) 64)); congruence.
Qed.

Lemma seal_Ok_usableKey (env : Env) (C : AesGcm) (iv : list byte) (text e : string) :
  seal env C iv text = Ok e -> exists keyBuffer, usableKey env keyBuffer.
Proof.
  unfold seal, sealWith, usableKey. destruct (loadKey env) as [kb|]; [|discriminate].
  destruct (Nat.eqb_spec (length kb) 32) as [Hl|]; [|discriminate].
  intros _. now exists kb.
Qed.

(** C4, as amended: when the stored refresh secret is empty (the empty
    column, or the envelope of the empty string) and less than the buffer
    window is left, [getValidAccessToken] fails with an error of the codec:
    "Invalid encrypted text format", a [DecryptionError], when
    ENCRYPTION_KEY passes the check on its length, and the error on the key,
    a [ConfigurationError], when it does not.  Neither is a
    [ReauthorizationRequired], and the world (credential store and provider
    traffic) is left as it was. *)
Theorem empty_refresh_fails (env : Env) (C : AesGcm) (entropy : nat -> byte) (P : Provider)
    (userId : string) (w : World) (tokenRecord : OAuthToken) :
  AesGcmLaws C ->
  oAuthToken w !! userId = Some tokenRecord ->
  emptySecret env C (refreshToken tokenRecord) ->
  accessTokenExpiresAt tokenRecord - now w < BUFFER_MS ->
  let failure :=
    match loadKey env with
    | Ok _ => JsError "Invalid encrypted text format"
    | Throw _ => JsError "ENCRYPTION_KEY must be a 64-character hex string (32 bytes)"
    end in
  getValidAccessToken env C entropy P userId w = (Throw failure, w)
  /\ kindOf failure = match loadKey env with
                      | Ok _ => DecryptionError
                      | Throw _ => ConfigurationError
                      end
  /\ kindOf failure <> ReauthorizationRequired.
Proof.
  intros laws Hrec Hempty Hstale failure.
  split; [|subst failure; destruct (loadKey env); split; first [reflexivity | vm_compute; discriminate]].
  rewrite (getValidAccessToken_stale env C entropy P userId w tokenRecord Hrec)
    by (apply Z.ltb_lt; exact Hstale).
  apply refreshAccessToken_undecryptable. subst failure.
  destruct Hempty as [->|[iv Hseal]].
  - unfold decrypt. destruct (loadKey env) as [kb|e] eqn:Hk; [reflexivity|].
    now rewrite (loadKey_Throw env e Hk).
  - destruct (seal_Ok_usableKey env C iv _ _ Hseal) as [keyBuffer key].
    rewrite (proj1 key).
    exact (decrypt_seal_empty env C keyBuffer laws key iv _ Hseal).
Qed.

Lemma empty_refresh_fails_witness :
  getValidAccessToken Sample.env PlainGcm.cipher Sample.entropy (Sample.provider None)
    "u1" (Sample.worldWith "" 0)
  = (Throw (JsError "Invalid encrypted text format"), Sample.worldWith "" 0)
  /\ kindOf (JsError "Invalid encrypted text format") = DecryptionError.
Proof.
  destruct (empty_refresh_fails Sample.env PlainGcm.cipher Sample.entropy (Sample.provider None)
              "u1" (Sample.worldWith "" 0)
              {| accessToken := Sample.sealed 100 "A1"; refreshToken := Sample.sealed 200 "";
                 accessTokenExpiresAt := 1000000 + 0; scope := "youtube" |}
              PlainGcm_laws) as (Hrun & Hkind & _).
  - reflexivity.
  - right. exists (ivAt Sample.entropy 200). reflexivity.
  - vm_compute. reflexivity.
  - split; [exact Hrun | exact Hkind].
Defined.

(** The same call without ENCRYPTION_KEY: the check on the key comes
    first. *)
Example empty_refresh_without_key :
  getValidAccessToken {| ENCRYPTION_KEY := None; JWT_SECRET := None; JWT_EXPIRES_IN := None |}
    PlainGcm.cipher Sample.entropy (Sample.provider None) "u1" (Sample.worldWith "" 0)
  = (Throw (JsError "ENCRYPTION_KEY must be a 64-character hex string (32 bytes)"),
     Sample.worldWith "" 0).
Proof. vm_compute. reflexivity. Qed.

(** A secret can only be read with a usable key. *)
Lemma decrypt_Ok_usableKey (env : Env) (C : AesGcm) (e x : string) :
  decrypt env C e = Ok x -> exists keyBuffer, usableKey env keyBuffer.
Proof.
  unfold decrypt, usableKey. destruct (loadKey env) as [kb|]; [|discriminate].
  destruct (_ || _); [discriminate|].
  destruct (Nat.eqb_spec (length kb) 32) as [Hl|]; [|discriminate].
  intros _. now exists kb.
Qed.

(** C7: what a successful refresh stores.  The row gets the new access
    token and its expiry; scope and the rows of other users are untouched.
    The refresh secret of the row is written again, as a new envelope of
    the refresh token the exchange was made with, whatever the response
    carries: the client has put that token in the place of the response's
    own before the service sees the credentials, so a refresh token the
    provider issues with the response is not stored. *)
Theorem refresh_rotation (env : Env) (C : AesGcm) (entropy : nat -> byte) (P : Provider)
    (userId e : string) (w : World) (tokenRecord : OAuthToken)
    (rt : string) (tokens : Credentials) (a : string) :
  AesGcmLaws C ->
  oAuthToken w !! userId = Some tokenRecord ->
  decrypt env C e = Ok rt ->
  rt <> "" ->
  token_endpoint P (sent w) rt = Ok tokens ->
  truthy (access_token tokens) = Some a ->
  exists w' row,
    refreshAccessToken env C entropy P userId e w = (Ok a, w')
    /\ oAuthToken w' = <[userId := row]> (oAuthToken w)
    /\ decrypt env C (accessToken row) = Ok a
    /\ accessTokenExpiresAt row = default (now w + 3600000) (truthyZ (expiry_date tokens))
    /\ scope row = scope tokenRecord
    /\ decrypt env C (refreshToken row) = Ok rt
    /\ sent w' = sent w ++ [RefreshAccessToken rt].
Proof.
  intros laws Hrec Hdec Hrt Hend Ha.
  destruct (decrypt_Ok_usableKey env C e rt Hdec) as [keyBuffer key].
  unfold refreshAccessToken, lift. unfold bind at 1. rewrite Hdec.
  unfold bind at 1. rewrite (oauth2Client_refreshAccessToken_spec P rt w Hrt), Hend.
  unfold withRefreshToken. cbn [access_token]. rewrite Ha.
  unfold bind at 1. rewrite (updateData_spec env C entropy keyBuffer key).
  cbn [refresh_token expiry_date]. rewrite (truthy_of_nonempty rt Hrt).
  unfold bind, oAuthToken_update, ret. cbn [oAuthToken setDrawn setSent].
  rewrite Hrec. eexists _, _. split; [reflexivity|].
  cbn [oAuthToken setOAuthToken setDrawn setSent now drawn sent].
  split; [reflexivity|].
  cbn [applyUpdate accessToken refreshToken accessTokenExpiresAt scope
       data_accessToken data_refreshToken data_accessTokenExpiresAt default from_option id].
  split; [eapply decrypt_envelopeOf; [eassumption..|]; eapply truthy_nonempty; eassumption|].
  split; [reflexivity|]. split; [reflexivity|].
  split; [eapply decrypt_envelopeOf; eassumption|]. reflexivity.
Qed.

(** The failing input of C7: the provider answers the exchange made with
    "R1" with a new refresh token "R2"; the row then holds "R1" again. *)
Lemma refresh_rotation_witness :
  let w := Sample.worldWith "R1" 0 in
  token_endpoint Sample.rotating (sent w) "R1"
  = Ok {| access_token := Some "A2"; refresh_token := Some "R2"; expiry_date := Some 5000000 |}
  /\ exists w' row,
       refreshAccessToken Sample.env PlainGcm.cipher Sample.entropy Sample.rotating
         "u1" (Sample.sealed 200 "R1") w = (Ok "A2", w')
       /\ oAuthToken w' = <["u1" := row]> (oAuthToken w)
       /\ decrypt Sample.env PlainGcm.cipher (accessToken row) = Ok "A2"
       /\ accessTokenExpiresAt row = 5000000
       /\ decrypt Sample.env PlainGcm.cipher (refreshToken row) = Ok "R1".
Proof.
  cbv zeta. split; [reflexivity|].
  destruct (refresh_rotation Sample.env PlainGcm.cipher Sample.entropy Sample.rotating
              "u1" (Sample.sealed 200 "R1") (Sample.worldWith "R1" 0)
              {| accessToken := Sample.sealed 100 "A1"; refreshToken := Sample.sealed 200 "R1";
                 accessTokenExpiresAt := 1000000 + 0; scope := "youtube" |}
              "R1" {| access_token := Some "A2"; refresh_token := Some "R2";
                      expiry_date := Some 5000000 |}
              "A2" PlainGcm_laws)
    as (w' & row & Hrun & Hrow & Haccess & Hexpiry & _ & Hrefresh & _).
  - reflexivity.
  - vm_compute. reflexivity.
  - discriminate.
  - reflexivity.
  - reflexivity.
  - exists w', row. repeat split; assumption.
Defined.

(** The same through [getValidAccessToken], evaluated: the stored refresh
    secret opens to "R1", not to the "R2" of the response. *)
Example rotating_provider_example :
  exists w' row,
    getValidAccessToken Sample.env PlainGcm.cipher Sample.entropy Sample.rotating
      "u1" (Sample.worldWith "R1" 0) = (Ok "A2", w')
    /\ oAuthToken w' !! "u1" = Some row
    /\ decrypt Sample.env PlainGcm.cipher (accessToken row) = Ok "A2"
    /\ decrypt Sample.env PlainGcm.cipher (refreshToken row) = Ok "R1"
    /\ refreshToken row <> Sample.sealed 200 "R1"
    /\ accessTokenExpiresAt row = 5000000
    /\ sent w' = [RefreshAccessToken "R1"].
Proof.
  eexists _, _. split; [vm_compute; reflexivity|].
  split; [vm_compute; reflexivity|].
  repeat split; try (vm_compute; reflexivity). vm_compute. discriminate.
Qed.

(** A stored refresh secret that opens to the empty text is no refresh
    token for the client: nothing is sent and the call fails. *)
Lemma refreshAccessToken_no_refresh_token (env : Env) (C : AesGcm) (entropy : nat -> byte)
    (P : Provider) (userId e : string) (w : World) :
  decrypt env C e = Ok "" ->
  refreshAccessToken env C entropy P userId e w
  = (Throw (JsError "No refresh token is set."), w).
Proof.
  intros H. unfold refreshAccessToken, lift. unfold bind at 1. rewrite H.
  unfold bind at 1. rewrite oauth2Client_refreshAccessToken_empty. reflexivity.
Qed.

(** ** Comments *)

Lemma strictNe_true (a b : option string) : strictNe a b = true <-> a <> b.
Proof.
  destruct a as [x|], b as [y|]; cbn; try (split; congruence).
  destruct (String.eqb_spec x y); cbn; split; congruence.
Qed.

(** How [canDelete] relates to the two channel ids of the answer. *)
Lemma toComment_canDelete (uc : string) (id : option string) (sn : option CommentSnippet) :
  let c := toComment uc id sn in
  (canDelete c = true -> c_authorChannelId c = uc)
  /\ (uc <> "" -> c_authorChannelId c = uc -> canDelete c = true).
Proof.
  cbn [toComment canDelete c_authorChannelId]. unfold orElse, truthy, strictEq.
  destruct (sn ≫= authorChannelId) as [v|].
  - destruct (String.eqb_spec v ""); destruct (String.eqb_spec v uc);
      split; intros; congruence.
  - split; intros; congruence.
Qed.

Lemma allComments_toThread (uc : string) (items : list ThreadResource) (c : Comment) :
  In c (flat_map (fun t => topLevelComment t :: replies t) (map (toThread uc) items)) ->
  exists id sn, c = toComment uc id sn.
Proof.
  intros H. apply in_flat_map in H as (t & Ht & Hc).
  apply in_map_iff in Ht as (thread & <- & _).
  destruct Hc as [<-|Hc]; [eexists _, _; reflexivity|].
  cbn [replies toThread] in Hc.
  destruct (thread_replies thread) as [l|]; [|contradiction].
  apply in_map_iff in Hc as (reply & <- & _). eexists _, _; reflexivity.
Qed.

Section Comments.

Variable env : Env.
Variable C : AesGcm.
Variable entropy : nat -> byte.
Variable P : Provider.

Lemma getComments_inv (userId videoId : string) (pageToken : option string)
    (maxResults : Z) (w w' : World) (page : CommentsPage) :
  getComments env C entropy P userId videoId pageToken maxResults w = (Ok page, w') ->
  exists items, comments page = map (toThread (userChannelId page)) items.
Proof.
  unfold getComments, tryCatch. unfold bind at 1.
  destruct (getClient env C entropy P userId w) as [[youtube|e] w1];
    [|unfold throw; discriminate].
  unfold bind at 1, youtube_channels_list.
  destruct (channels_list P (sent w1) youtube) as [channelResponse|e];
    [|unfold throw; discriminate].
  unfold bind, youtube_commentThreads_list, ret.
  destruct (commentThreads_list P _ youtube videoId maxResults pageToken) as [response|e];
    [|unfold throw; discriminate].
  intros H. injection H as <- _. cbn [comments userChannelId].
  destruct (page_items response) as [items|]; [now exists items|now exists []].
Qed.

End Comments.

(** C10, as stated, fails: a caller without a channel gets [userChannelId]
    "", a comment without a reported author channel gets [authorChannelId]
    "", the two are equal and yet [canDelete] is false. *)
Lemma canDelete_counterexample :
  exists page c,
    fst (getComments Sample.env PlainGcm.cipher Sample.entropy (Sample.provider None)
           "u1" "video1" None 20 (Sample.worldWith "R1" 3600000)) = Ok page
    /\ In c (allComments page)
    /\ c_authorChannelId c = userChannelId page
    /\ canDelete c = false.
Proof.
  eexists _, _. split; [vm_compute; reflexivity|].
  split; [left; reflexivity|]. split; reflexivity.
Qed.

(** C10, as amended: in every page returned by [getComments], a comment
    (top-level or reply) with [canDelete] true has the author channel id
    equal to the returned user channel id; and when the returned user
    channel id is not empty, [canDelete] is true exactly when the two are
    equal. *)
Theorem canDelete_iff_own_channel (env : Env) (C : AesGcm) (entropy : nat -> byte)
    (P : Provider) (userId videoId : string) (pageToken : option string) (maxResults : Z)
    (w w' : World) (page : CommentsPage) :
  getComments env C entropy P userId videoId pageToken maxResults w = (Ok page, w') ->
  forall c, In c (allComments page) ->
    (canDelete c = true -> c_authorChannelId c = userChannelId page)
    /\ (userChannelId page <> "" ->
        (canDelete c = true <-> c_authorChannelId c = userChannelId page)).
Proof.
  intros Hget c Hc.
  destruct (getComments_inv env C entropy P _ _ _ _ _ _ _ Hget) as [items Hitems].
  unfold allComments in Hc. rewrite Hitems in Hc.
  destruct (allComments_toThread _ _ _ Hc) as (id & sn & ->).
  destruct (toComment_canDelete (userChannelId page) id sn) as [H1 H2].
  split; [exact H1|]. intros Hne. split; [exact H1|exact (H2 Hne)].
Qed.

Lemma canDelete_iff_own_channel_witness :
  exists page w',
    getComments Sample.env PlainGcm.cipher Sample.entropy
      (Sample.provider (Some [Some "UC-bob"])) "u1" "video1" None 20
      (Sample.worldWith "R1" 3600000) = (Ok page, w')
    /\ forall c, In c (allComments page) ->
         (canDelete c = true -> c_authorChannelId c = userChannelId page)
         /\ (userChannelId page <> "" ->
             (canDelete c = true <-> c_authorChannelId c = userChannelId page)).
Proof.
  eexists _, _. split; [vm_compute; reflexivity|].
  eapply (canDelete_iff_own_channel Sample.env PlainGcm.cipher Sample.entropy
            (Sample.provider (Some [Some "UC-bob"])) "u1" "video1" None 20
            (Sample.worldWith "R1" 3600000)).
  vm_compute. reflexivity.
Defined.


(** ** Concurrent calls of [getValidAccessToken] *)

Lemma setSent_same (w : World) : setSent (sent w) w = w.
Proof. now destruct w. Qed.

Section Interleaving.

Variable env : Env.
Variable C : AesGcm.
Variable entropy : nat -> byte.
Variable P : Provider.

Lemma encrypt_sent (text : string) (w : World) :
  sent (snd (encrypt env C entropy text w)) = sent w.
Proof.
  unfold encrypt. destruct (loadKey env); [|reflexivity].
  unfold bind, randomBytes, lift. reflexivity.
Qed.

Lemma updateData_sent (credentials : Credentials) (a : string) (w : World) :
  sent (snd (updateData env C entropy credentials a w)) = sent w.
Proof.
  unfold updateData. unfold bind at 1.
  pose proof (encrypt_sent a w) as H1.
  destruct (encrypt env C entropy a w) as [[x|e] w1]; cbn [snd] in *; [|exact H1].
  unfold bind at 1.
  destruct (truthyZ (expiry_date credentials)); unfold bind, ret, Date_now;
    (destruct (truthy (refresh_token credentials)) as [r|]; [|exact H1]);
    pose proof (encrypt_sent r w1) as H2;
    destruct (encrypt env C entropy r w1) as [[y|e] w2]; cbn [snd] in *; congruence.
Qed.

End Interleaving.

Section Callers.

Variable env : Env.
Variable C : AesGcm.
Variable entropy : nat -> byte.
Variable P : Provider.

Lemma run_app (s1 s2 : list nat) (s : Process) :
  run env C entropy P (s1 ++ s2) s = run env C entropy P s2 (run env C entropy P s1 s).
Proof. apply fold_left_app. Qed.

(** A call that runs alone, with no request in flight, goes through its
    three suspensions and ends as [getValidAccessToken] does. *)
Lemma run_alone (userId : string) (w : World) (client : option string) :
  exists c,
    run env C entropy P [0; 0; 0]%nat
      {| world := w; credentials_refresh_token := client;
         refreshTokenPromises := ∅; tasks := [Loading userId] |}
    = {| world := snd (getValidAccessToken env C entropy P userId w);
         credentials_refresh_token := c;
         refreshTokenPromises := ∅;
         tasks := [Settled (fst (getValidAccessToken env C entropy P userId w))] |}.
Proof.
  destruct (getValidAccessToken env C entropy P userId w) as [r w'] eqn:E. cbn [fst snd].
  unfold getValidAccessToken, bind, oAuthToken_findUnique, Date_now in E.
  unfold run. cbn [fold_left].
  unfold resume at 3. cbn [tasks lookup list_lookup]. unfold load. cbn [world].
  destruct (oAuthToken w !! userId) as [tokenRecord|];
    [|injection E as <- <-; eexists; reflexivity].
  destruct (accessTokenExpiresAt tokenRecord - now w <? BUFFER_MS);
    [|injection E as <- <-; eexists; reflexivity].
  unfold refreshAccessToken, lift, bind in E.
  destruct (decrypt env C (refreshToken tokenRecord)) as [rt|e];
    [|injection E as <- <-; eexists; reflexivity].
  destruct (oauth2Client_refreshAccessToken_cases P rt w) as [[-> Hc]|[Hrt Hc]];
    rewrite Hc in E; clear Hc.
  { injection E as <- <-. eexists; reflexivity. }
  rewrite (truthy_of_nonempty rt Hrt). cbn [refreshTokenPromises]. rewrite lookup_empty.
  unfold resume at 2. cbn [tasks insert list_insert lookup list_lookup].
  unfold deliver. cbn [refreshTokenPromises world credentials_refresh_token tasks].
  rewrite lookup_insert_eq, delete_insert_eq, delete_empty. cbn [fold_left].
  unfold receive. cbn [tasks lookup list_lookup world credentials_refresh_token
                       refreshTokenPromises].
  destruct (token_endpoint P (sent w) rt) as [tokens|e];
    [|injection E as <- <-; eexists; reflexivity].
  destruct (truthy (access_token (withRefreshToken (Some rt) tokens))) as [a|];
    [|injection E as <- <-; eexists; reflexivity].
  destruct (updateData env C entropy (withRefreshToken (Some rt) tokens) a _)
    as [[d|e] w1]; [|injection E as <- <-; eexists; reflexivity].
  unfold resume. cbn [tasks insert list_insert lookup list_lookup].
  unfold write. cbn [world]. unfold ret in E.
  destruct (oAuthToken_update userId d w1) as [[[]|e] w2];
    injection E as <- <-; eexists; reflexivity.
Qed.

(** One round over the calls [k], [k+1], ...: when each step turns the call
    it is given from [Pre] to [Post], touches no other call and keeps the
    invariant, every call ends in [Post]. *)
Lemma round (f : nat -> Process -> Process) (I : nat -> Process -> Prop)
    (Pre Post : Task -> Prop) :
  (forall i s t, I i s -> tasks s !! i = Some t -> Pre t ->
     exists t', Post t' /\ tasks (f i s) = <[i := t']> (tasks s) /\ I (S i) (f i s)) ->
  forall m k s,
    I k s -> length (tasks s) = (k + m)%nat ->
    (forall j t, (k <= j)%nat -> tasks s !! j = Some t -> Pre t) ->
    (forall j t, (j < k)%nat -> tasks s !! j = Some t -> Post t) ->
    I (k + m)%nat (fold_left (fun s0 i => f i s0) (seq k m) s)
    /\ length (tasks (fold_left (fun s0 i => f i s0) (seq k m) s)) = (k + m)%nat
    /\ (forall j t, tasks (fold_left (fun s0 i => f i s0) (seq k m) s) !! j = Some t -> Post t).
Proof.
  intros Hstep. induction m as [|m IH]; intros k s HI Hlen Hpre Hpost.
  - cbn [seq fold_left]. rewrite Nat.add_0_r in *. split; [exact HI|]. split; [exact Hlen|].
    intros j t Hj. apply (Hpost j t); [|exact Hj]. apply lookup_lt_Some in Hj. lia.
  - cbn [seq fold_left].
    destruct (lookup_lt_is_Some_2 (tasks s) k) as [t Ht]; [lia|].
    destruct (Hstep k s t HI Ht (Hpre k t (Nat.le_refl k) Ht)) as (t' & Hp & Hts & HI').
    replace (k + S m)%nat with (S k + m)%nat by lia.
    apply IH.
    + exact HI'.
    + rewrite Hts, length_insert. lia.
    + intros j t0 Hj. rewrite Hts, list_lookup_insert_ne by lia. apply Hpre. lia.
    + intros j t0 Hj. rewrite Hts.
      destruct (Nat.eq_dec j k) as [->|Hne].
      * rewrite list_lookup_insert_eq by lia. intros [= <-]. exact Hp.
      * rewrite list_lookup_insert_ne by lia. apply Hpost. lia.
Qed.

Lemma exchanges_snoc (w w' : World) (rt : string) :
  sent w' = sent w ++ [RefreshAccessToken rt] -> exchanges w' = S (exchanges w).
Proof.
  intros H. unfold exchanges. rewrite H.
  rewrite filter_app, length_app, filter_cons_True by reflexivity.
  rewrite filter_nil. cbn [length]. lia.
Qed.

End Callers.

Section SharedExchange.

Variable env : Env.
Variable C : AesGcm.
Variable entropy : nat -> byte.
Variable P : Provider.
Variable keyBuffer : list byte.
Hypothesis key : usableKey env keyBuffer.
Variable userId rt : string.
Variable tokenRecord : OAuthToken.
Variable w : World.
Hypothesis Hrow : oAuthToken w !! userId = Some tokenRecord.
Hypothesis Hstale : (accessTokenExpiresAt tokenRecord - now w <? BUFFER_MS) = true.
Hypothesis Hdec : decrypt env C (refreshToken tokenRecord) = Ok rt.
Hypothesis Hrt : rt <> "".

(** It is what a call that runs alone receives. *)
Lemma getValidAccessToken_outcome :
  fst (getValidAccessToken env C entropy P userId w)
  = outcomeOf (token_endpoint P (sent w) rt).
Proof.
  rewrite (getValidAccessToken_stale env C entropy P userId w tokenRecord Hrow Hstale).
  unfold refreshAccessToken, lift. unfold bind at 1. rewrite Hdec.
  unfold bind at 1. rewrite (oauth2Client_refreshAccessToken_spec P rt w Hrt).
  unfold outcomeOf.
  destruct (token_endpoint P (sent w) rt) as [tokens|e]; [|reflexivity].
  unfold withRefreshToken at 1. cbn [access_token].
  destruct (truthy (access_token tokens)) as [a|]; [|reflexivity].
  unfold bind at 1. rewrite (updateData_spec env C entropy keyBuffer key).
  unfold bind, oAuthToken_update, ret. cbn [oAuthToken setDrawn setSent].
  rewrite Hrow. reflexivity.
Qed.

Lemma load_step (i : nat) (s : Process) (t : Task) :
  inFlight P rt w i s -> tasks s !! i = Some t -> t = Loading userId ->
  exists t', t' = Exchanging userId rt
    /\ tasks (resume env C entropy P i s) = <[i := t']> (tasks s)
    /\ inFlight P rt w (S i) (resume env C entropy P i s).
Proof.
  intros HI Ht ->. exists (Exchanging userId rt). split; [reflexivity|].
  unfold resume. rewrite Ht. unfold load.
  destruct i as [|i]; cbn [inFlight] in HI.
  - destruct HI as [Hw Hp]. rewrite Hw, Hrow, Hstale, Hdec, (truthy_of_nonempty rt Hrt), Hp.
    rewrite lookup_empty. cbn [tasks]. split; [reflexivity|].
    cbn [inFlight world credentials_refresh_token refreshTokenPromises seq].
    repeat split.
  - destruct HI as (Hw & Hc & Hp). rewrite Hw. cbn [oAuthToken now setSent].
    rewrite Hrow, Hstale, Hdec, (truthy_of_nonempty rt Hrt), Hp, lookup_singleton_eq.
    cbn [tasks]. split; [reflexivity|].
    cbn [inFlight world credentials_refresh_token refreshTokenPromises].
    split; [reflexivity|]. split; [reflexivity|].
    rewrite insert_singleton_eq. rewrite (seq_S (S i) 0). reflexivity.
Qed.

Lemma receive_step (i : nat) (s : Process) (t : Task) :
  answered userId rt w s -> tasks s !! i = Some t -> t = Exchanging userId rt ->
  exists t', holds userId (outcomeOf (token_endpoint P (sent w) rt)) t'
    /\ tasks (receive env C entropy (token_endpoint P (sent w) rt) i s) = <[i := t']> (tasks s)
    /\ answered userId rt w (receive env C entropy (token_endpoint P (sent w) rt) i s).
Proof.
  intros (Hc & Hp & Hs & Ho) Ht ->. unfold receive, outcomeOf. rewrite Ht.
  destruct (token_endpoint P (sent w) rt) as [tokens|e].
  2:{ eexists. split; [reflexivity|]. split; [reflexivity|].
      unfold answered, setTask.
      cbn [world credentials_refresh_token refreshTokenPromises].
      refine (conj _ (conj _ (conj _ _))); first [assumption | reflexivity]. }
  rewrite Hc.
  replace (truthy (access_token (withRefreshToken (Some rt) tokens)))
    with (truthy (access_token tokens)) by reflexivity.
  destruct (truthy (access_token tokens)) as [a|].
  2:{ eexists. split; [reflexivity|]. split; [reflexivity|].
      unfold answered, setTask.
      cbn [world credentials_refresh_token refreshTokenPromises].
      refine (conj _ (conj _ (conj _ _))); first [assumption | reflexivity]. }
  rewrite (updateData_spec env C entropy keyBuffer key).
  eexists. split; [eexists; reflexivity|]. split; [reflexivity|].
  unfold answered. cbn [world credentials_refresh_token refreshTokenPromises
                        withRefreshToken refresh_token sent oAuthToken setDrawn].
  refine (conj _ (conj _ (conj _ _))); first [reflexivity | assumption].
Qed.

Lemma write_step (i : nat) (s : Process) (t : Task) :
  answered userId rt w s -> tasks s !! i = Some t ->
  holds userId (outcomeOf (token_endpoint P (sent w) rt)) t ->
  exists t', t' = Settled (outcomeOf (token_endpoint P (sent w) rt))
    /\ tasks (resume env C entropy P i s) = <[i := t']> (tasks s)
    /\ answered userId rt w (resume env C entropy P i s).
Proof.
  intros (Hc & Hp & Hs & Ho) Ht Hh. eexists. split; [reflexivity|].
  unfold resume. rewrite Ht.
  destruct (outcomeOf (token_endpoint P (sent w) rt)) as [a|e]; cbn [holds] in Hh.
  - destruct Hh as [d ->]. unfold write, oAuthToken_update.
    destruct Ho as [row Ho]. rewrite Ho. cbn [tasks]. split; [reflexivity|].
    unfold answered. cbn [world credentials_refresh_token refreshTokenPromises
                          sent oAuthToken setOAuthToken].
    rewrite lookup_insert_eq. refine (conj _ (conj _ (conj _ _))); eauto.
  - subst t. rewrite list_insert_id by exact Ht. split; [reflexivity|].
    unfold answered. refine (conj _ (conj _ (conj _ _))); assumption.
Qed.

(** Once the answer is there, resuming a call makes it write its row and
    settle, and leaves the other calls alone. *)
Lemma resume_received (i : nat) (s : Process) :
  answered userId rt w s ->
  (forall j t, tasks s !! j = Some t ->
     received userId (outcomeOf (token_endpoint P (sent w) rt)) t) ->
  answered userId rt w (resume env C entropy P i s)
  /\ length (tasks (resume env C entropy P i s)) = length (tasks s)
  /\ (forall j t, tasks (resume env C entropy P i s) !! j = Some t ->
        received userId (outcomeOf (token_endpoint P (sent w) rt)) t)
  /\ (forall j, tasks s !! j = Some (Settled (outcomeOf (token_endpoint P (sent w) rt))) ->
        tasks (resume env C entropy P i s) !! j
        = Some (Settled (outcomeOf (token_endpoint P (sent w) rt))))
  /\ ((i < length (tasks s))%nat ->
      tasks (resume env C entropy P i s) !! i
      = Some (Settled (outcomeOf (token_endpoint P (sent w) rt)))).
Proof.
  intros Ha Hall.
  destruct (tasks s !! i) as [t|] eqn:Ht.
  2:{ assert (Hid : resume env C entropy P i s = s) by (unfold resume; now rewrite Ht).
      rewrite Hid. split; [exact Ha|]. split; [reflexivity|]. split; [exact Hall|].
      split; [auto|]. intros Hi. apply lookup_ge_None in Ht. lia. }
  assert (Hi : (i < length (tasks s))%nat) by (eapply lookup_lt_Some; exact Ht).
  destruct (Hall i t Ht) as [Hh | ->].
  - destruct (write_step i s t Ha Ht Hh) as (t' & -> & Hts & Ha').
    rewrite Hts. split; [exact Ha'|]. split; [apply length_insert|].
    split; [|split].
    + intros j t0. destruct (Nat.eq_dec i j) as [<-|Hne].
      * rewrite list_lookup_insert_eq by exact Hi. intros [= <-]. right. reflexivity.
      * rewrite list_lookup_insert_ne by exact Hne. apply Hall.
    + intros j Hj. destruct (Nat.eq_dec i j) as [<-|Hne].
      * apply list_lookup_insert_eq, Hi.
      * rewrite list_lookup_insert_ne by exact Hne. exact Hj.
    + intros _. apply list_lookup_insert_eq, Hi.
  - assert (Hid : resume env C entropy P i s = s) by (unfold resume; now rewrite Ht).
    rewrite Hid. split; [exact Ha|]. split; [reflexivity|]. split; [exact Hall|].
    split; [auto|]. intros _. exact Ht.
Qed.

Lemma run_received (rest : list nat) (s : Process) :
  answered userId rt w s ->
  (forall j t, tasks s !! j = Some t ->
     received userId (outcomeOf (token_endpoint P (sent w) rt)) t) ->
  answered userId rt w (run env C entropy P rest s)
  /\ length (tasks (run env C entropy P rest s)) = length (tasks s)
  /\ (forall j t, tasks (run env C entropy P rest s) !! j = Some t ->
        received userId (outcomeOf (token_endpoint P (sent w) rt)) t)
  /\ (forall j,
        tasks s !! j = Some (Settled (outcomeOf (token_endpoint P (sent w) rt)))
        \/ (In j rest /\ (j < length (tasks s))%nat) ->
        tasks (run env C entropy P rest s) !! j
        = Some (Settled (outcomeOf (token_endpoint P (sent w) rt)))).
Proof.
  revert s. induction rest as [|i rest IH]; intros s Ha Hall.
  - cbn [run fold_left]. split; [exact Ha|]. split; [reflexivity|]. split; [exact Hall|].
    intros j [Hj|[[] _]]. exact Hj.
  - change (run env C entropy P (i :: rest) s)
      with (run env C entropy P rest (resume env C entropy P i s)).
    destruct (resume_received i s Ha Hall) as (Ha1 & Hl1 & Hall1 & Hkeep & Hdone).
    destruct (IH _ Ha1 Hall1) as (Ha2 & Hl2 & Hall2 & Hset).
    split; [exact Ha2|]. split; [congruence|]. split; [exact Hall2|].
    intros j Hj. apply Hset.
    destruct Hj as [Hj|[[<-|Hin] Hlt]].
    + left. apply Hkeep, Hj.
    + left. apply Hdone, Hlt.
    + right. split; [exact Hin | congruence].
Qed.

(** [n] calls that have all loaded the credential before the answer to the
    exchange arrives, resumed in any way from then on. *)
Lemma shared (n i : nat) (rest : list nat) (client : option string) :
  (i < n)%nat ->
  let s := run env C entropy P (seq 0 n ++ i :: rest)
             {| world := w; credentials_refresh_token := client;
                refreshTokenPromises := ∅; tasks := replicate n (Loading userId) |} in
  length (tasks s) = n
  /\ (forall j t, tasks s !! j = Some t ->
        received userId (outcomeOf (token_endpoint P (sent w) rt)) t)
  /\ (forall j, (j < n)%nat -> In j rest ->
        tasks s !! j = Some (Settled (outcomeOf (token_endpoint P (sent w) rt))))
  /\ sent (world s) = sent w ++ [RefreshAccessToken rt]
  /\ refreshTokenPromises s = ∅.
Proof.
  intros Hn. cbv zeta. rewrite run_app.
  set (s0 := {| world := w; credentials_refresh_token := client;
                refreshTokenPromises := ∅; tasks := replicate n (Loading userId) |}).
  (* every call loads the credential *)
  destruct (round (resume env C entropy P) (inFlight P rt w)
              (fun t => t = Loading userId) (fun t => t = Exchanging userId rt)
              load_step n 0%nat s0) as (H1 & Hl1 & Ht1).
  { split; reflexivity. }
  { cbn [tasks s0]. rewrite length_replicate. reflexivity. }
  { intros j t _ Hj. cbn [tasks s0] in Hj. apply lookup_replicate in Hj as [-> _]. reflexivity. }
  { intros j t Hj. lia. }
  cbn [Nat.add] in H1, Hl1. fold (run env C entropy P (seq 0 n) s0) in *.
  set (s1 := run env C entropy P (seq 0 n) s0) in *.
  destruct n as [|n']; [lia|]. cbn [inFlight] in H1. destruct H1 as (Hw1 & Hc1 & Hp1).
  (* the answer arrives *)
  destruct (lookup_lt_is_Some_2 (tasks s1) i) as [t0 Ht0]; [lia|].
  pose proof (Ht1 i t0 Ht0) as ->.
  set (s2 := {| world := world s1; credentials_refresh_token := credentials_refresh_token s1;
                refreshTokenPromises := ∅; tasks := tasks s1 |}).
  change (run env C entropy P (i :: rest) s1)
    with (run env C entropy P rest (resume env C entropy P i s1)).
  assert (Hres : resume env C entropy P i s1
                 = fold_left (fun s' k => receive env C entropy
                                            (token_endpoint P (sent w) rt) k s')
                     (seq 0 (S n')) s2).
  { unfold resume. rewrite Ht0. unfold deliver.
    rewrite Hp1, lookup_singleton_eq, delete_singleton_eq. reflexivity. }
  rewrite Hres. clear Hres.
  destruct (round (receive env C entropy (token_endpoint P (sent w) rt))
              (fun _ => answered userId rt w)
              (fun t => t = Exchanging userId rt)
              (holds userId (outcomeOf (token_endpoint P (sent w) rt)))
              receive_step (S n') 0%nat s2) as (H2 & Hl2 & Ht2).
  { unfold answered. cbn [s2 world credentials_refresh_token refreshTokenPromises].
    rewrite Hw1. cbn [sent oAuthToken setSent]. rewrite Hrow.
    refine (conj _ (conj _ (conj _ _))); eauto. }
  { exact Hl1. }
  { intros j t _ Hj. exact (Ht1 j t Hj). }
  { intros j t Hj. lia. }
  cbn [Nat.add] in H2, Hl2.
  set (s3 := fold_left _ (seq 0 (S n')) s2) in *.
  (* the calls write their rows as they are resumed *)
  destruct (run_received rest s3 H2) as (H3 & Hl3 & Hall3 & Hset3).
  { intros j t Hj. left. exact (Ht2 j t Hj). }
  destruct H3 as (_ & Hp3 & Hs3 & _).
  split; [congruence|]. split; [exact Hall3|]. split; [|split; assumption].
  intros j Hj Hin. apply Hset3. right. split; [exact Hin | lia].
Qed.

End SharedExchange.

(** C1, as stated, fails.  Two calls for one user overlap: the second
    loads the stale credential after the answer to the first call's
    exchange has arrived and before the first call has written the row.  No
    request is in flight then, so the second call starts an exchange of its
    own: two exchanges are issued and the calls end with two different
    access tokens. *)
Lemma late_caller_counterexample :
  let s := run Sample.env PlainGcm.cipher Sample.entropy (Sample.provider None)
             [0; 0; 1; 1; 0; 1]%nat
             {| world := Sample.worldWith "R1" 0; credentials_refresh_token := None;
                refreshTokenPromises := ∅; tasks := [Loading "u1"; Loading "u1"] |} in
  tasks s = [Settled (Ok "A-00"); Settled (Ok "A-01")]
  /\ exchanges (world s) = 2%nat
  /\ sent (world s) = [RefreshAccessToken "R1"; RefreshAccessToken "R1"].
Proof. vm_compute. repeat split; reflexivity. Qed.

(** C1, as amended: when N calls of [getValidAccessToken] for one user have
    all loaded the credential while it is stale (less than the buffer
    window left, a refresh token stored) before the answer to the exchange
    arrives, one exchange is issued, however the calls are resumed from
    then on, and every call receives the same result: the access token of
    that exchange, or its failure, which is what a call that runs alone
    receives.  A call has settled with it as soon as it has been resumed
    once more; until then it holds the token and is about to write the
    row.  The sharing is the client's, one request in flight for a refresh
    token; the service has none of its own. *)
Theorem shared_exchange_in_flight (env : Env) (C : AesGcm) (entropy : nat -> byte)
    (P : Provider) (userId : string) (tokenRecord : OAuthToken) (rt : string)
    (w : World) (n i : nat) (rest : list nat) (client : option string) :
  oAuthToken w !! userId = Some tokenRecord ->
  accessTokenExpiresAt tokenRecord - now w < BUFFER_MS ->
  decrypt env C (refreshToken tokenRecord) = Ok rt ->
  rt <> "" ->
  (i < n)%nat ->
  let r := fst (getValidAccessToken env C entropy P userId w) in
  let s := run env C entropy P (seq 0 n ++ i :: rest)
             {| world := w; credentials_refresh_token := client;
                refreshTokenPromises := ∅; tasks := replicate n (Loading userId) |} in
  exchanges (world s) = S (exchanges w)
  /\ sent (world s) = sent w ++ [RefreshAccessToken rt]
  /\ refreshTokenPromises s = ∅
  /\ length (tasks s) = n
  /\ (forall j t, tasks s !! j = Some t ->
        t = Settled r \/ exists a d, r = Ok a /\ t = Writing userId a d)
  /\ (forall j, (j < n)%nat -> In j rest -> tasks s !! j = Some (Settled r))
  /\ (rest = seq 0 n -> tasks s = replicate n (Settled r)).
Proof.
  intros Hrow Hstale Hdec Hrt Hn.
  destruct (decrypt_Ok_usableKey env C _ rt Hdec) as [keyBuffer key].
  apply Z.ltb_lt in Hstale.
  destruct (shared env C entropy P keyBuffer key userId rt tokenRecord w
              Hrow Hstale Hdec Hrt n i rest client Hn) as (Hl & Hall & Hset & Hs & Hp).
  cbv zeta.
  rewrite (getValidAccessToken_outcome env C entropy P keyBuffer key userId rt tokenRecord w
             Hrow Hstale Hdec Hrt).
  split; [apply (exchanges_snoc _ _ rt), Hs|].
  split; [exact Hs|]. split; [exact Hp|]. split; [exact Hl|].
  split; [|split; [exact Hset|]].
  - intros j t Hj. destruct (Hall j t Hj) as [Hh | ->]; [|left; reflexivity].
    destruct (outcomeOf (token_endpoint P (sent w) rt)) as [a|e]; cbn [holds] in Hh.
    + destruct Hh as [d ->]. right. eauto.
    + left. exact Hh.
  - intros ->. symmetry. apply replicate_as_Forall. split; [exact Hl|].
    apply Forall_lookup. intros j t Hj. pose proof (lookup_lt_Some _ _ _ Hj) as Hlt.
    rewrite Hl in Hlt. rewrite Hset in Hj; [congruence | exact Hlt |].
    apply in_seq. lia.
Qed.

Lemma shared_exchange_in_flight_witness :
  let s := run Sample.env PlainGcm.cipher Sample.entropy (Sample.provider None)
             (seq 0 3 ++ 0%nat :: seq 0 3)
             {| world := Sample.worldWith "R1" 0; credentials_refresh_token := None;
                refreshTokenPromises := ∅; tasks := replicate 3 (Loading "u1") |} in
  tasks s = replicate 3 (Settled (Ok "A-00"))
  /\ exchanges (world s) = 1%nat.
Proof.
  destruct (shared_exchange_in_flight Sample.env PlainGcm.cipher Sample.entropy
              (Sample.provider None) "u1"
              {| accessToken := Sample.sealed 100 "A1"; refreshToken := Sample.sealed 200 "R1";
                 accessTokenExpiresAt := 1000000 + 0; scope := "youtube" |}
              "R1" (Sample.worldWith "R1" 0) 3 0%nat (seq 0 3) None)
    as (He & _ & _ & _ & _ & _ & Ht).
  - reflexivity.
  - vm_compute. reflexivity.
  - vm_compute. reflexivity.
  - discriminate.
  - lia.
  - split; [exact (Ht eq_refl) | exact He].
Defined.

(** The two calls of the counterexample, when both have loaded the
    credential before the answer arrives: one exchange, one token. *)
Example early_caller_shares :
  let s := run Sample.env PlainGcm.cipher Sample.entropy (Sample.provider None)
             [0; 1; 0; 0; 1]%nat
             {| world := Sample.worldWith "R1" 0; credentials_refresh_token := None;
                refreshTokenPromises := ∅; tasks := [Loading "u1"; Loading "u1"] |} in
  tasks s = [Settled (Ok "A-00"); Settled (Ok "A-00")]
  /\ sent (world s) = [RefreshAccessToken "R1"].
Proof. vm_compute. repeat split; reflexivity. Qed.

(** Two calls for two users, interleaved: the call for "u1" receives its
    answer after the call for "u2" has set its own refresh token on the
    client, and stores that token as the refresh secret of "u1". *)
Example interleaved_users :
  let s := run Sample.env PlainGcm.cipher Sample.entropy (Sample.provider None)
             [0; 1; 0; 0; 1; 1]%nat
             {| world := Sample.twoUsers; credentials_refresh_token := None;
                refreshTokenPromises := ∅; tasks := [Loading "u1"; Loading "u2"] |} in
  tasks s = [Settled (Ok "A-00"); Settled (Ok "A-01")]
  /\ sent (world s) = [RefreshAccessToken "R1"; RefreshAccessToken "R2"]
  /\ (row ← oAuthToken (world s) !! "u1";
      Some (decrypt Sample.env PlainGcm.cipher (refreshToken row))) = Some (Ok "R2")
  /\ (row ← oAuthToken (world s) !! "u2";
      Some (decrypt Sample.env PlainGcm.cipher (refreshToken row))) = Some (Ok "R2").
Proof. vm_compute. repeat split; reflexivity. Qed.

(** ** Deleting a comment *)

Lemma deletions_app (w : World) (l : list Request) :
  Forall (fun r => isDelete r = false) l ->
  length (filter (fun r => isDelete r = true) (sent w ++ l)) = deletions w.
Proof.
  intros H. unfold deletions. rewrite filter_app, length_app.
  induction H as [|r l Hr _ IH]; [cbn; lia|].
  rewrite filter_cons_False by congruence. exact IH.
Qed.

(** Obtaining an access token issues no [comments.delete]. *)
Lemma getValidAccessToken_deletions (env : Env) (C : AesGcm) (entropy : nat -> byte)
    (P : Provider) (userId : string) (w : World) :
  deletions (snd (getValidAccessToken env C entropy P userId w)) = deletions w.
Proof.
  unfold getValidAccessToken, bind, oAuthToken_findUnique, Date_now.
  destruct (oAuthToken w !! userId) as [tokenRecord|]; [|reflexivity].
  destruct (accessTokenExpiresAt tokenRecord - now w <? BUFFER_MS); [|reflexivity].
  unfold refreshAccessToken, lift, bind.
  destruct (decrypt env C (refreshToken tokenRecord)) as [rt|e]; [|reflexivity].
  destruct (oauth2Client_refreshAccessToken_cases P rt w) as [[_ ->]|[_ ->]]; [reflexivity|].
  assert (deletions (setSent (sent w ++ [RefreshAccessToken rt]) w) = deletions w) as Hw
    by (apply (deletions_app w [RefreshAccessToken rt]); repeat constructor).
  destruct (token_endpoint P (sent w) rt) as [tokens|e]; [|exact Hw].
  set (credentials := withRefreshToken (Some rt) tokens).
  destruct (truthy (access_token credentials)) as [a|]; [|exact Hw].
  pose proof (updateData_sent env C entropy credentials a
                (setSent (sent w ++ [RefreshAccessToken rt]) w)) as Hs.
  destruct (updateData env C entropy credentials a _) as [[d|e] w1]; cbn [snd] in *.
  - unfold oAuthToken_update, ret.
    destruct (oAuthToken w1 !! userId); cbn [snd]; unfold deletions in *;
      cbn [sent setOAuthToken]; now rewrite Hs.
  - unfold deletions in *. now rewrite Hs.
Qed.

(** C9: when the comment that [comments.list] reports has an author channel
    other than the caller's channel reported by [channels.list],
    [deleteComment] fails with the [ApiError] 403 (kind [PermissionDenied])
    and no [comments.delete] call is issued: the provider traffic of the call
    ends with the two lookups, and credential store and event log are as the
    token lookup left them. *)
Theorem deleteComment_foreign_denied (env : Env) (C : AesGcm) (entropy : nat -> byte)
    (P : Provider) (create : World -> Event -> bool)
    (userId commentId : string) (w w1 : World) (youtube : string)
    (comment : CommentResource) (others : list CommentResource)
    (channelResponse : option (list (option string))) :
  getClient env C entropy P userId w = (Ok youtube, w1) ->
  comments_list P (sent w1) youtube commentId = Ok (Some (comment :: others)) ->
  channels_list P (sent w1 ++ [CommentsList youtube commentId]) youtube = Ok channelResponse ->
  comment_snippet comment ≫= authorChannelId <> firstChannelId channelResponse ->
  exists w',
    deleteComment env C entropy P create userId commentId w
    = (Throw (ApiError 403 "You can only delete your own comments"), w')
    /\ kindOf (ApiError 403 "You can only delete your own comments") = PermissionDenied
    /\ deletions w' = deletions w
    /\ sent w' = sent w1 ++ [CommentsList youtube commentId; ChannelsListMine youtube]
    /\ oAuthToken w' = oAuthToken w1 /\ eventLog w' = eventLog w1.
Proof.
  intros Hclient Hcomment Hchannel Hne.
  unfold deleteComment, tryCatch. unfold bind at 1. rewrite Hclient.
  unfold bind at 1, youtube_comments_list. rewrite Hcomment. cbn [mbind option_bind head].
  unfold bind at 1, youtube_channels_list. cbn [sent setSent]. rewrite Hchannel.
  apply strictNe_true in Hne. rewrite Hne. unfold throw. cbn [instanceof_ApiError].
  eexists. split; [reflexivity|]. cbn [sent setSent oAuthToken eventLog].
  rewrite <- app_assoc. repeat split.
  pose proof (getValidAccessToken_deletions env C entropy P userId w) as Hd.
  unfold getClient in Hclient. rewrite Hclient in Hd. cbn [snd] in Hd. rewrite <- Hd.
  unfold deletions at 1. cbn [sent setSent].
  apply deletions_app. repeat constructor.
Qed.

Lemma deleteComment_foreign_denied_witness :
  exists w',
    deleteComment Sample.env PlainGcm.cipher Sample.entropy
      (Sample.provider (Some [Some "UC-alice"])) Sample.stored "u1" "c1"
      (Sample.worldWith "R1" 3600000)
    = (Throw (ApiError 403 "You can only delete your own comments"), w')
    /\ kindOf (ApiError 403 "You can only delete your own comments") = PermissionDenied
    /\ deletions w' = deletions (Sample.worldWith "R1" 3600000)
    /\ sent w' = sent (Sample.worldWith "R1" 3600000)
                   ++ [CommentsList "A1" "c1"; ChannelsListMine "A1"]
    /\ oAuthToken w' = oAuthToken (Sample.worldWith "R1" 3600000)
    /\ eventLog w' = eventLog (Sample.worldWith "R1" 3600000).
Proof.
  apply (deleteComment_foreign_denied Sample.env PlainGcm.cipher Sample.entropy
           (Sample.provider (Some [Some "UC-alice"])) Sample.stored "u1" "c1"
           (Sample.worldWith "R1" 3600000) (Sample.worldWith "R1" 3600000) "A1"
           Sample.bobComment [] (Some [Some "UC-alice"])).
  - vm_compute. reflexivity.
  - reflexivity.
  - reflexivity.
  - vm_compute. discriminate.
Defined.

(** A comment of the caller's own channel is deleted, and the deletion is
    logged. *)
Example deleteComment_own :
  let r := deleteComment Sample.env PlainGcm.cipher Sample.entropy
             (Sample.provider (Some [Some "UC-bob"])) Sample.stored "u1" "c1"
             (Sample.worldWith "R1" 3600000) in
  fst r = Ok tt
  /\ sent (snd r) = [CommentsList "A1" "c1"; ChannelsListMine "A1"; CommentsDelete "A1" "c1"]
  /\ map eventType (eventLog (snd r)) = ["comment_deleted"].
Proof. repeat split; vm_compute; reflexivity. Qed.

(** * Further properties *)

(** ** The key of the codec *)

Lemma toHex_length (b : list byte) :
  String.length (Buffer.toHex b) = (2 * length b)%nat.
Proof. induction b as [|x r IH]; cbn [Buffer.toHex String.length length]; [reflexivity | lia]. Qed.

Lemma unhex_hexDigit (x : byte) :
  Buffer.unhex (Buffer.hexDigit (Byte.to_N x / 16)) <> None
  /\ Buffer.unhex (Buffer.hexDigit (Byte.to_N x mod 16)) <> None.
Proof. destruct x; split; discriminate. Qed.

Lemma allHex_toHex (b : list byte) : allHex (Buffer.toHex b) = true.
Proof.
  induction b as [|x r IH]; [reflexivity|].
  cbn [Buffer.toHex allHex].
  destruct (unhex_hexDigit x) as [H1 H2].
  destruct (Buffer.unhex (Buffer.hexDigit (Byte.to_N x / 16))); [|congruence].
  destruct (Buffer.unhex (Buffer.hexDigit (Byte.to_N x mod 16))); [|congruence].
  exact IH.
Qed.

Lemma fromHex_allHex (n : nat) (s : string) :
  allHex s = true -> String.length s = (2 * n)%nat -> length (Buffer.fromHex s) = n.
Proof.
  revert s; induction n as [|n IH]; intros s Hs Hl.
  - destruct s; [reflexivity | discriminate].
  - destruct s as [|a [|b r]]; cbn [String.length] in Hl; try lia.
    cbn [allHex] in Hs. cbn [Buffer.fromHex].
    destruct (Buffer.unhex a); [|discriminate].
    destruct (Buffer.unhex b); [|discriminate].
    cbn [length]. f_equal. apply IH; [exact Hs | lia].
Qed.

Lemma fromHex_short (s : string) :
  allHex s = false -> (2 * length (Buffer.fromHex s) + 1 <= String.length s)%nat.
Proof.
  enough (H : (allHex s = false -> (2 * length (Buffer.fromHex s) + 1 <= String.length s)%nat)
              /\ forall c, allHex (String c s) = false ->
                   (2 * length (Buffer.fromHex (String c s)) + 1 <= String.length (String c s))%nat)
    by apply H.
  induction s as [|b r [IH1 IH2]].
  - split; [discriminate|]. intros c _. cbn. lia.
  - split; [apply IH2|].
    intros c H. cbn [allHex] in H. cbn [Buffer.fromHex String.length].
    destruct (Buffer.unhex c); [|cbn [length]; lia].
    destruct (Buffer.unhex b); [|cbn [length]; lia].
    cbn [length]. specialize (IH1 H). lia.
Qed.

Lemma jsLength_allHex (s : string) : allHex s = true -> jsLength s = String.length s.
Proof.
  unfold jsLength. induction s as [|a r IH]; [reflexivity|].
  cbn [allHex String.length]. destruct (Buffer.unhex a) as [h|] eqn:E; [|discriminate].
  intros H. rewrite (units_hex a h 0 r E), (IH H). reflexivity.
Qed.

(** A text that decodes to [n] bytes and has [2 * n] code units is made of
    [2 * n] hex digits. *)
Lemma fromHex_full (n : nat) (s : string) :
  length (Buffer.fromHex s) = n -> jsLength s = (2 * n)%nat ->
  allHex s = true /\ String.length s = (2 * n)%nat.
Proof.
  unfold jsLength. revert s; induction n as [|n IH]; intros s Hb Hu.
  - apply units_positive in Hu. subst s. split; reflexivity.
  - destruct s as [|a [|b r]]; try discriminate.
    cbn [Buffer.fromHex] in Hb. cbn [allHex String.length].
    destruct (Buffer.unhex a) as [h|] eqn:Ea; [|discriminate].
    destruct (Buffer.unhex b) as [l|] eqn:Eb; [|discriminate].
    rewrite (units_hex a h 0 _ Ea), (units_hex b l 0 _ Eb) in Hu.
    cbn [length] in Hb.
    destruct (IH r) as [Hh Hl]; [lia | lia |]. split; [exact Hh | lia].
Qed.

Lemma hexKey_usable (env : Env) :
  hexKey env = true -> exists keyBuffer, usableKey env keyBuffer.
Proof.
  unfold hexKey, usableKey, loadKey.
  destruct (ENCRYPTION_KEY env) as [key|]; [|discriminate].
  intros H. apply andb_true_iff in H as [Hl Hh].
  rewrite (jsLength_allHex key Hh), Hl. cbn [negb]. eexists; split; [reflexivity|].
  apply fromHex_allHex; [exact Hh | apply Nat.eqb_eq in Hl; exact Hl].
Qed.

Lemma usable_hexKey (env : Env) (keyBuffer : list byte) :
  usableKey env keyBuffer -> hexKey env = true.
Proof.
  unfold hexKey, usableKey, loadKey.
  destruct (ENCRYPTION_KEY env) as [key|]; [|intros [? _]; discriminate].
  destruct (Nat.eqb (jsLength key) 64) eqn:Hl; cbn [negb]; [|intros [? _]; discriminate].
  intros [[= <-] Hlen]. apply Nat.eqb_eq in Hl.
  destruct (fromHex_full 32 key Hlen Hl) as [-> ->]. reflexivity.
Qed.

(** X1: [encrypt] succeeds exactly when ENCRYPTION_KEY is set to 64 hex
    digits, and [decrypt] succeeds only then.  The check on the key counts
    [key.length], the UTF-16 code units of the text: without a key of 64
    units [encrypt] fails with the message on the key and touches nothing;
    with a key of 64 units that is not made of hex digits only, the check
    passes and the cipher fails with "Invalid key length", after the nonce
    has been drawn. *)
Theorem encrypt_needs_hex_key (env : Env) (C : AesGcm) (entropy : nat -> byte) :
  (forall text w, isOk (fst (encrypt env C entropy text w)) = true <-> hexKey env = true)
  /\ (forall e x, decrypt env C e = Ok x -> hexKey env = true)
  /\ (forall text w,
        (forall key, ENCRYPTION_KEY env = Some key -> jsLength key <> 64%nat) ->
        encrypt env C entropy text w
        = (Throw (JsError "ENCRYPTION_KEY must be a 64-character hex string (32 bytes)"), w))
  /\ (forall key text w,
        ENCRYPTION_KEY env = Some key -> jsLength key = 64%nat -> allHex key = false ->
        encrypt env C entropy text w
        = (Throw (JsError "Invalid key length"), setDrawn (drawn w + 16) w)).
Proof.
  split; [|split; [|split]].
  - intros text w. split.
    + intros H. unfold encrypt in H.
      destruct (loadKey env) as [keyBuffer|e] eqn:Hk; [|discriminate].
      unfold bind, randomBytes, lift, sealWith in H. cbn [fst] in H.
      destruct (Nat.eqb (length keyBuffer) 32) eqn:Hl; [|discriminate].
      apply (usable_hexKey env keyBuffer). split; [exact Hk | apply Nat.eqb_eq; exact Hl].
    + intros H. destruct (hexKey_usable env H) as [keyBuffer Hu].
      rewrite (encrypt_ok env C entropy keyBuffer Hu), (seal_ok env C keyBuffer Hu).
      reflexivity.
  - intros e x H. destruct (decrypt_Ok_usableKey env C e x H) as [kb Hu].
    exact (usable_hexKey env kb Hu).
  - intros text w H. unfold encrypt, loadKey.
    destruct (ENCRYPTION_KEY env) as [key|]; [|reflexivity].
    specialize (H key eq_refl). apply Nat.eqb_neq in H. rewrite H. reflexivity.
  - intros key text w Hk Hl Hh. unfold encrypt, loadKey. rewrite Hk.
    rewrite (proj2 (Nat.eqb_eq _ _) Hl). cbn [negb].
    unfold bind, randomBytes, lift, sealWith.
    destruct (Nat.eqb (length (Buffer.fromHex key)) 32) eqn:E.
    + apply Nat.eqb_eq in E. destruct (fromHex_full 32 key E Hl) as [Hh' _]. congruence.
    + reflexivity.
Qed.

(** A key of 64 code units, the first of which is no hex digit. *)
Lemma encrypt_needs_hex_key_witness :
  encrypt {| ENCRYPTION_KEY :=
               Some "g00102030405060708090a0b0c0d0e0f101112131415161718191a1b1c1d1e1f";
             JWT_SECRET := None; JWT_EXPIRES_IN := None |}
          PlainGcm.cipher Sample.entropy "A1" Sample.world
  = (Throw (JsError "Invalid key length"), setDrawn 16 Sample.world).
Proof.
  destruct (encrypt_needs_hex_key
              {| ENCRYPTION_KEY :=
                   Some "g00102030405060708090a0b0c0d0e0f101112131415161718191a1b1c1d1e1f";
                 JWT_SECRET := None; JWT_EXPIRES_IN := None |}
              PlainGcm.cipher Sample.entropy) as (_ & _ & _ & H).
  apply (H _ "A1" Sample.world eq_refl); reflexivity.
Defined.

(** A key of 64 code units and 65 bytes: 63 hex digits and a letter with an
    accent.  It passes the check on the length, and the cipher refuses the
    31 bytes it decodes to. *)
Example encrypt_key_of_64_units :
  let key := "000102030405060708090a0b0c0d0e0f101112131415161718191a1b1c1d1e1é" in
  String.length key = 65%nat
  /\ jsLength key = 64%nat
  /\ encrypt {| ENCRYPTION_KEY := Some key; JWT_SECRET := None; JWT_EXPIRES_IN := None |}
             PlainGcm.cipher Sample.entropy "A1" Sample.world
     = (Throw (JsError "Invalid key length"), setDrawn 16 Sample.world).
Proof. vm_compute. repeat split; reflexivity. Qed.

(** X2: [generateEncryptionKey] draws thirty-two bytes and returns a text
    that is a usable ENCRYPTION_KEY: 64 hex digits, which the codec decodes
    to the very bytes that were drawn. *)
Theorem generated_key_usable (entropy : nat -> byte) (w : World)
    (secret expires : option string) :
  exists key,
    generateEncryptionKey entropy w = (Ok key, setDrawn (drawn w + 32) w)
    /\ hexKey {| ENCRYPTION_KEY := Some key; JWT_SECRET := secret;
                 JWT_EXPIRES_IN := expires |} = true
    /\ usableKey {| ENCRYPTION_KEY := Some key; JWT_SECRET := secret;
                    JWT_EXPIRES_IN := expires |}
         (map entropy (seq (drawn w) 32)).
Proof.
  eexists. split; [reflexivity|].
  assert (Hlen : String.length (Buffer.toHex (map entropy (seq (drawn w) 32))) = 64%nat).
  { rewrite toHex_length, length_map, length_seq. reflexivity. }
  split.
  - unfold hexKey. cbn [ENCRYPTION_KEY]. rewrite Hlen, allHex_toHex. reflexivity.
  - assert (Hj : jsLength (Buffer.toHex (map entropy (seq (drawn w) 32))) = 64%nat).
    { rewrite jsLength_toHex, length_map, length_seq. reflexivity. }
    unfold usableKey, loadKey. cbn [ENCRYPTION_KEY]. rewrite Hj. cbn [Nat.eqb negb].
    rewrite fromHex_toHex. split; [reflexivity|].
    rewrite length_map, length_seq. reflexivity.
Qed.

(** ** The envelope *)

Lemma split_append (sep : ascii) (a b : string) :
  split sep (a +:+ String sep b) = split sep a ++ split sep b.
Proof.
  induction a as [|c r IH].
  - change ("" +:+ String sep b) with (String sep b).
    change (split sep (String sep b))
      with (if Ascii.eqb sep sep then EmptyString :: split sep b
            else match split sep b with
                 | h :: t => String sep h :: t
                 | [] => [String sep EmptyString]
                 end).
    rewrite Ascii.eqb_refl. reflexivity.
  - rewrite append_String. cbn [split]. destruct (Ascii.eqb c sep).
    + rewrite IH. reflexivity.
    + rewrite IH. destruct (split sep r) as [|h t] eqn:E.
      * exfalso. exact (split_cons_nonempty sep r E).
      * reflexivity.
Qed.

(** X3: [decrypt] reads the first three fields of its argument and nothing
    else: text appended to an envelope after a further colon changes
    neither the result nor the error. *)
Theorem decrypt_ignores_trailing_fields (env : Env) (C : AesGcm) (e junk : string) :
  (3 <= length (split ":" e))%nat ->
  decrypt env C (e +:+ ":" +:+ junk) = decrypt env C e.
Proof.
  intros H. unfold decrypt.
  change (":" +:+ junk) with (String ":" junk).
  rewrite split_append.
  destruct (split ":" e) as [|i [|t [|c rest]]]; cbn [length] in H; try lia.
  reflexivity.
Qed.

Lemma decrypt_ignores_trailing_fields_witness :
  decrypt Sample.env PlainGcm.cipher (Sample.sealed 100 "A1" +:+ ":" +:+ "00ff:x")
  = decrypt Sample.env PlainGcm.cipher (Sample.sealed 100 "A1").
Proof.
  apply decrypt_ignores_trailing_fields. vm_compute. lia.
Defined.

Lemma length_append (a b : string) :
  String.length (a +:+ b) = (String.length a + String.length b)%nat.
Proof. induction a as [|c r IH]; [reflexivity|]. rewrite append_String. cbn [String.length]. lia. Qed.

Lemma fromUtf8_length (s : string) : length (Buffer.fromUtf8 s) = String.length s.
Proof.
  unfold Buffer.fromUtf8, list_byte_of_string.
  rewrite length_map. induction s as [|c r IH]; [reflexivity|].
  cbn [list_ascii_of_string length String.length]. lia.
Qed.

(** X4: under a usable key, [encrypt] draws sixteen bytes, changes nothing
    else, and returns three hex fields separated by colons: 32 digits of
    nonce, 32 digits of tag and two digits per byte of the text, 66
    characters more than twice the text in all. *)
Theorem envelope_shape (env : Env) (C : AesGcm) (entropy : nat -> byte)
    (keyBuffer : list byte) (text : string) (w : World) :
  AesGcmLaws C -> usableKey env keyBuffer ->
  exists iv tag data,
    encrypt env C entropy text w
    = (Ok (iv +:+ ":" +:+ tag +:+ ":" +:+ data), setDrawn (drawn w + 16) w)
    /\ split ":" (iv +:+ ":" +:+ tag +:+ ":" +:+ data) = [iv; tag; data]
    /\ iv = Buffer.toHex (map entropy (seq (drawn w) 16))
    /\ String.length tag = 32%nat
    /\ String.length data = (2 * String.length text)%nat
    /\ String.length (iv +:+ ":" +:+ tag +:+ ":" +:+ data)
       = (66 + 2 * String.length text)%nat.
Proof.
  intros laws Hu.
  rewrite (encrypt_ok env C entropy keyBuffer Hu), (seal_ok env C keyBuffer Hu).
  set (iv := map entropy (seq (drawn w) IV_LENGTH)).
  set (sealed := gcm_seal C keyBuffer iv (Buffer.fromUtf8 text)).
  exists (Buffer.toHex iv), (Buffer.toHex (snd sealed)), (Buffer.toHex (fst sealed)).
  assert (Ht : String.length (Buffer.toHex (snd sealed)) = 32%nat).
  { rewrite toHex_length. unfold sealed. rewrite (gcm_tag_length C laws). reflexivity. }
  assert (Hd : String.length (Buffer.toHex (fst sealed)) = (2 * String.length text)%nat).
  { rewrite toHex_length. unfold sealed. rewrite (gcm_length C laws), fromUtf8_length.
    reflexivity. }
  assert (Hi : String.length (Buffer.toHex iv) = 32%nat).
  { rewrite toHex_length. unfold iv. rewrite length_map, length_seq. reflexivity. }
  split; [reflexivity|].
  split; [apply split_envelope|].
  split; [reflexivity|].
  split; [exact Ht|]. split; [exact Hd|].
  rewrite !length_append, Hi, Ht, Hd. cbn [String.length]. lia.
Qed.

Lemma envelope_shape_witness :
  exists iv tag data,
    encrypt Sample.env PlainGcm.cipher Sample.entropy "hello" Sample.world
    = (Ok (iv +:+ ":" +:+ tag +:+ ":" +:+ data), setDrawn (drawn Sample.world + 16) Sample.world)
    /\ split ":" (iv +:+ ":" +:+ tag +:+ ":" +:+ data) = [iv; tag; data]
    /\ iv = Buffer.toHex (map Sample.entropy (seq (drawn Sample.world) 16))
    /\ String.length tag = 32%nat
    /\ String.length data = (2 * String.length "hello")%nat
    /\ String.length (iv +:+ ":" +:+ tag +:+ ":" +:+ data)
       = (66 + 2 * String.length "hello")%nat.
Proof.
  exact (envelope_shape Sample.env PlainGcm.cipher Sample.entropy _ "hello" Sample.world
           PlainGcm_laws Sample_key).
Defined.

(** ** Sessions *)

Section SessionFacts.

Variable env : Env.
Variable J : JwtLib.

Lemma generateToken_payload (u : RequestUser) (w w' : World) (tok : Token) :
  generateToken env J u w = (Ok tok, w') ->
  exists secret span,
    truthy (JWT_SECRET env) = Some secret
    /\ timespan J (orElse (JWT_EXPIRES_IN env) "7d") = Some span
    /\ tok = Jws {| userId := req_id u; email := req_email u; googleId := req_googleId u;
                    iat := now w / 1000; exp := now w / 1000 + span |}
                 (hs256 J secret
                    {| userId := req_id u; email := req_email u; googleId := req_googleId u;
                       iat := now w / 1000; exp := now w / 1000 + span |})
    /\ w' = w.
Proof.
  unfold generateToken, jwt_sign, bind, Date_now, throw, ret.
  destruct (truthy (JWT_SECRET env)) as [secret|]; [|discriminate].
  destruct (timespan J (orElse (JWT_EXPIRES_IN env) "7d")) as [span|]; [|discriminate].
  intros [= <- <-]. exists secret, span. repeat split.
Qed.

(** [authenticate] on a request whose token, after the fallback to the
    cookie, is a signed payload. *)
Lemma authenticate_jws (req : AuthenticatedRequest) (p : JwtPayload) (s secret : string)
    (w : World) :
  truthy (JWT_SECRET env) = Some secret ->
  (bearerToken req = Some (Jws p s)
   \/ (noToken (bearerToken req) = true /\ cookie_token req = Some (Jws p s))) ->
  authenticate env J req w
  = if negb (String.eqb s (hs256 J secret p)) then (Throw (ApiError 401 "Invalid token"), w)
    else if (exp p <=? now w / 1000)%Z then (Throw (ApiError 401 "Invalid token"), w)
    else match user w !! userId p with
         | Some u => (Ok {| req_id := user_id u; req_email := user_email u;
                            req_googleId := user_googleId u |}, w)
         | None => (Throw (ApiError 401 "User not found"), w)
         end.
Proof.
  intros Hs H. unfold authenticate, bearerToken in *.
  assert (Htok : (let token := match authorization req with
                               | Some (Bearer t) => Some t
                               | _ => None
                               end in
                  if noToken token && negb (noToken (cookie_token req))
                  then cookie_token req else token) = Some (Jws p s)).
  { destruct H as [H|[H1 H2]].
    - cbv zeta. rewrite H. reflexivity.
    - cbv zeta. rewrite H1, H2. reflexivity. }
  cbv zeta in Htok |- *. rewrite Htok. cbn [noToken]. rewrite Hs.
  unfold tryCatch, jwt_verify, throw, Date_now, user_findUnique, ret, bind.
  destruct (negb (String.eqb s (hs256 J secret p))); [reflexivity|].
  cbv beta iota.
  destruct (exp p <=? now w / 1000)%Z; [reflexivity|].
  cbv beta iota.
  destruct (user w !! userId p); reflexivity.
Qed.

End SessionFacts.

(** X5: a token from [generateToken] is valid for the configured span
    (seven days when JWT_EXPIRES_IN is not set): presented before its expiry,
    as a Bearer header or, when the header carries no token, as the cookie,
    it authenticates as the user row stored under the id it was issued for,
    with the row's current email and Google id, and is refused with
    "User not found" when that row is gone.  The header wins over the
    cookie, and [authenticate] leaves the state as it is. *)
Theorem session_round_trip (env : Env) (J : JwtLib) (u : RequestUser) (w w1 : World)
    (tok : Token) :
  generateToken env J u w = (Ok tok, w1) ->
  exists p s span,
    tok = Jws p s
    /\ timespan J (orElse (JWT_EXPIRES_IN env) "7d") = Some span
    /\ exp p = now w / 1000 + span
    /\ forall (req : AuthenticatedRequest) (w2 : World),
         bearerToken req = Some tok
         \/ (noToken (bearerToken req) = true /\ cookie_token req = Some tok) ->
         now w2 / 1000 < exp p ->
         authenticate env J req w2
         = match user w2 !! req_id u with
           | Some row => (Ok {| req_id := user_id row; req_email := user_email row;
                                req_googleId := user_googleId row |}, w2)
           | None => (Throw (ApiError 401 "User not found"), w2)
           end.
Proof.
  intros H. destruct (generateToken_payload env J u w w1 tok H)
    as (secret & span & Hs & Hspan & -> & ->).
  eexists _, _, span. split; [reflexivity|]. split; [exact Hspan|]. split; [reflexivity|].
  intros req w2 Hreq Hexp.
  rewrite (authenticate_jws env J req _ _ secret w2 Hs Hreq).
  rewrite String.eqb_refl. cbn [negb exp userId] in *.
  destruct (Z.leb_spec (now w / 1000 + span) (now w2 / 1000)); [lia|].
  reflexivity.
Qed.

Lemma session_round_trip_witness :
  exists p s span,
    Jws Sample.alicePayload (hs256 Sample.jwt "s3cret" Sample.alicePayload) = Jws p s
    /\ timespan Sample.jwt (orElse (JWT_EXPIRES_IN Sample.env) "7d") = Some span
    /\ exp p = now Sample.registered / 1000 + span
    /\ forall (req : AuthenticatedRequest) (w2 : World),
         bearerToken req
           = Some (Jws Sample.alicePayload (hs256 Sample.jwt "s3cret" Sample.alicePayload))
         \/ (noToken (bearerToken req) = true
             /\ cookie_token req
                = Some (Jws Sample.alicePayload (hs256 Sample.jwt "s3cret" Sample.alicePayload))) ->
         now w2 / 1000 < exp p ->
         authenticate Sample.env Sample.jwt req w2
         = match user w2 !! req_id Sample.alice with
           | Some row => (Ok {| req_id := user_id row; req_email := user_email row;
                                req_googleId := user_googleId row |}, w2)
           | None => (Throw (ApiError 401 "User not found"), w2)
           end.
Proof.
  apply (session_round_trip Sample.env Sample.jwt Sample.alice Sample.registered
           Sample.registered).
  reflexivity.
Defined.

Section SessionReplies.

Variable env : Env.
Variable J : JwtLib.

Lemma noToken_false (t : option Token) :
  noToken t = false -> exists tk, t = Some tk /\ noToken (Some tk) = false.
Proof. destruct t as [tk|]; [eauto | discriminate]. Qed.

(** What [authenticate] does, by the token it finds. *)
Lemma authenticate_cases (req : AuthenticatedRequest) (w : World) :
  authenticate env J req w
  = if noToken (bearerToken req) && noToken (cookie_token req)
    then (Throw (ApiError 401 "Authentication required"), w)
    else match truthy (JWT_SECRET env) with
         | None => (Throw (JsError "JWT_SECRET not configured"), w)
         | Some secret =>
             match (if noToken (bearerToken req) then cookie_token req else bearerToken req) with
             | Some (Jws p s) =>
                 if negb (String.eqb s (hs256 J secret p)) || (exp p <=? now w / 1000)%Z
                 then (Throw (ApiError 401 "Invalid token"), w)
                 else match user w !! userId p with
                      | Some u => (Ok {| req_id := user_id u; req_email := user_email u;
                                         req_googleId := user_googleId u |}, w)
                      | None => (Throw (ApiError 401 "User not found"), w)
                      end
             | _ => (Throw (ApiError 401 "Invalid token"), w)
             end
         end.
Proof.
  unfold authenticate. fold (bearerToken req). cbv zeta.
  destruct (noToken (bearerToken req)) eqn:Hh; cbn [andb].
  - destruct (noToken (cookie_token req)) eqn:Hc; cbn [negb].
    + destruct (bearerToken req) as [tk|]; [rewrite Hh|]; reflexivity.
    + destruct (noToken_false _ Hc) as (tk & -> & Hk). rewrite Hk.
      destruct (truthy (JWT_SECRET env)) as [secret|]; [|reflexivity].
      destruct tk as [t|p s]; [reflexivity|].
      unfold tryCatch, jwt_verify, throw, Date_now, user_findUnique, ret, bind.
      destruct (negb (String.eqb s (hs256 J secret p))); [reflexivity|].
      cbv beta iota. cbn [orb].
      destruct (exp p <=? now w / 1000)%Z; [reflexivity|].
      cbv beta iota. destruct (user w !! userId p); reflexivity.
  - destruct (noToken_false _ Hh) as (tk & -> & Hk). rewrite Hk.
    destruct (truthy (JWT_SECRET env)) as [secret|]; [|reflexivity].
    destruct tk as [t|p s]; [reflexivity|].
    unfold tryCatch, jwt_verify, throw, Date_now, user_findUnique, ret, bind.
    destruct (negb (String.eqb s (hs256 J secret p))); [reflexivity|].
    cbv beta iota. cbn [orb].
    destruct (exp p <=? now w / 1000)%Z; [reflexivity|].
    cbv beta iota. destruct (user w !! userId p); reflexivity.
Qed.

End SessionReplies.

(** X6: [authenticate] never changes the state.  It answers
    "Authentication required" exactly when neither the Bearer header nor the
    cookie carries a token.  With JWT_SECRET configured every refusal is an
    [ApiError] of status 401 with one of three messages, which
    [errorHandler] sends as it is; without the secret a request that
    carries a token gets a plain error, which [errorHandler] answers with
    500 and whose message it shows only in development. *)
Theorem authenticate_replies (env : Env) (J : JwtLib) (req : AuthenticatedRequest)
    (w : World) :
  snd (authenticate env J req w) = w
  /\ (fst (authenticate env J req w) = Throw (ApiError 401 "Authentication required")
      <-> noToken (bearerToken req) && noToken (cookie_token req) = true)
  /\ (truthy (JWT_SECRET env) <> None ->
      forall e, fst (authenticate env J req w) = Throw e ->
        exists msg,
          e = ApiError 401 msg
          /\ In msg ["Authentication required"; "Invalid token"; "User not found"]
          /\ forall NODE_ENV,
               option_map (errorHandler NODE_ENV) (errOf e)
               = Some {| reply_status := 401; body_error := msg;
                         body_statusCode := Some 401;
                         body_details := None; body_message := None |})
  /\ (truthy (JWT_SECRET env) = None ->
      noToken (bearerToken req) && noToken (cookie_token req) = false ->
      fst (authenticate env J req w) = Throw (JsError "JWT_SECRET not configured")
      /\ forall NODE_ENV,
           option_map (errorHandler NODE_ENV) (errOf (JsError "JWT_SECRET not configured"))
           = Some {| reply_status := 500; body_error := "Internal server error";
                     body_statusCode := None; body_details := None;
                     body_message := if strictEq NODE_ENV "development"
                                     then Some "JWT_SECRET not configured" else None |}).
Proof.
  rewrite (authenticate_cases env J req w).
  destruct (noToken (bearerToken req) && noToken (cookie_token req)) eqn:Hn.
  - split; [reflexivity|]. split; [tauto|]. split.
    + intros _ e [= <-]. eexists. split; [reflexivity|]. split; [cbn; tauto|]. reflexivity.
    + discriminate.
  - destruct (truthy (JWT_SECRET env)) as [secret|] eqn:Hs.
    + assert (Hall :
        forall r : result RequestUser * World,
          r = match (if noToken (bearerToken req) then cookie_token req else bearerToken req) with
              | Some (Jws p s) =>
                  if negb (String.eqb s (hs256 J secret p)) || (exp p <=? now w / 1000)%Z
                  then (Throw (ApiError 401 "Invalid token"), w)
                  else match user w !! userId p with
                       | Some u => (Ok {| req_id := user_id u; req_email := user_email u;
                                          req_googleId := user_googleId u |}, w)
                       | None => (Throw (ApiError 401 "User not found"), w)
                       end
              | _ => (Throw (ApiError 401 "Invalid token"), w)
              end ->
          snd r = w
          /\ fst r <> Throw (ApiError 401 "Authentication required")
          /\ forall e, fst r = Throw e ->
               e = ApiError 401 "Invalid token" \/ e = ApiError 401 "User not found").
      { intros r ->.
        destruct (if noToken (bearerToken req) then cookie_token req else bearerToken req)
          as [[t|p s]|].
        - split; [reflexivity|]. split; [discriminate|]. intros e [= <-]. tauto.
        - destruct (negb (String.eqb s (hs256 J secret p)) || (exp p <=? now w / 1000)%Z).
          + split; [reflexivity|]. split; [discriminate|]. intros e [= <-]. tauto.
          + destruct (user w !! userId p).
            * split; [reflexivity|]. split; [discriminate|]. discriminate.
            * split; [reflexivity|]. split; [discriminate|]. intros e [= <-]. tauto.
        - split; [reflexivity|]. split; [discriminate|]. intros e [= <-]. tauto. }
      destruct (Hall _ eq_refl) as (H1 & H2 & H3).
      split; [exact H1|]. split; [split; [intros H; contradiction | discriminate]|].
      split; [|discriminate].
      intros _ e He. destruct (H3 e He) as [-> | ->];
        (eexists; split; [reflexivity|]; split; [cbn; tauto | reflexivity]).
    + split; [reflexivity|]. split; [split; discriminate|].
      split; [congruence|]. intros _ _. split; reflexivity.
Qed.

Lemma authenticate_replies_witness :
  fst (authenticate {| ENCRYPTION_KEY := None; JWT_SECRET := None; JWT_EXPIRES_IN := None |}
         Sample.jwt
         {| authorization := Some (OtherHeader "Basic abc");
            cookie_token := Some (Unparsable "x.y.z") |} Sample.world)
    = Throw (JsError "JWT_SECRET not configured")
  /\ forall e,
       fst (authenticate Sample.env Sample.jwt
              {| authorization := Some (Bearer (Unparsable "x.y.z")); cookie_token := None |}
              Sample.world) = Throw e ->
       exists msg,
         e = ApiError 401 msg
         /\ In msg ["Authentication required"; "Invalid token"; "User not found"]
         /\ forall NODE_ENV,
              option_map (errorHandler NODE_ENV) (errOf e)
              = Some {| reply_status := 401; body_error := msg;
                        body_statusCode := Some 401;
                        body_details := None; body_message := None |}.
Proof.
  split.
  - destruct (authenticate_replies
                {| ENCRYPTION_KEY := None; JWT_SECRET := None; JWT_EXPIRES_IN := None |}
                Sample.jwt
                {| authorization := Some (OtherHeader "Basic abc");
                   cookie_token := Some (Unparsable "x.y.z") |} Sample.world)
      as (_ & _ & _ & H).
    apply H; reflexivity.
  - destruct (authenticate_replies Sample.env Sample.jwt
                {| authorization := Some (Bearer (Unparsable "x.y.z")); cookie_token := None |}
                Sample.world) as (_ & _ & H & _).
    apply H. discriminate.
Defined.

(** ** Comment operations *)

Section TokenWork.

Variable env : Env.
Variable C : AesGcm.
Variable entropy : nat -> byte.
Variable P : Provider.

Lemma encrypt_setDrawn (text : string) (w : World) :
  exists n, snd (encrypt env C entropy text w) = setDrawn n w.
Proof.
  unfold encrypt. destruct (loadKey env).
  - unfold bind, randomBytes, lift. eexists. reflexivity.
  - exists (drawn w). destruct w; reflexivity.
Qed.

Lemma updateData_setDrawn (credentials : Credentials) (a : string) (w : World) :
  exists n, snd (updateData env C entropy credentials a w) = setDrawn n w.
Proof.
  unfold updateData. unfold bind at 1.
  destruct (encrypt_setDrawn a w) as [n1 H1].
  destruct (encrypt env C entropy a w) as [[x|e] w1]; cbn [snd] in *; [|eauto].
  subst w1. unfold bind at 1.
  assert (exists z, (match truthyZ (expiry_date credentials) with
                     | Some d => ret d
                     | None => t <- Date_now;; ret (t + 3600000)
                     end) (setDrawn n1 w) = (Ok z, setDrawn n1 w)) as [z ->].
  { destruct (truthyZ (expiry_date credentials)); eexists; reflexivity. }
  unfold bind at 1.
  destruct (truthy (refresh_token credentials)) as [r|].
  - unfold bind at 1.
    destruct (encrypt_setDrawn r (setDrawn n1 w)) as [n2 H2].
    destruct (encrypt env C entropy r (setDrawn n1 w)) as [[y|e] w2]; cbn [snd] in *;
      subst w2; exists n2; reflexivity.
  - exists n1. reflexivity.
Qed.

Lemma getValidAccessToken_tokenWork (userId : string) (w : World) :
  tokenWork w (snd (getValidAccessToken env C entropy P userId w)).
Proof.
  assert (Hrefl : tokenWork w w) by (repeat split; left; reflexivity).
  unfold getValidAccessToken, bind, oAuthToken_findUnique, Date_now.
  destruct (oAuthToken w !! userId) as [tokenRecord|]; [|exact Hrefl].
  destruct (accessTokenExpiresAt tokenRecord - now w <? BUFFER_MS); [|exact Hrefl].
  unfold refreshAccessToken, lift, bind.
  destruct (decrypt env C (refreshToken tokenRecord)) as [rt|e]; [|exact Hrefl].
  destruct (oauth2Client_refreshAccessToken_cases P rt w) as [[_ ->]|[_ ->]]; [exact Hrefl|].
  assert (Hw : tokenWork w (setSent (sent w ++ [RefreshAccessToken rt]) w))
    by (repeat split; right; eexists; reflexivity).
  destruct (token_endpoint P (sent w) rt) as [tokens|e]; [|exact Hw].
  set (credentials := withRefreshToken (Some rt) tokens).
  destruct (truthy (access_token credentials)) as [a|]; [|exact Hw].
  destruct (updateData_setDrawn credentials a
              (setSent (sent w ++ [RefreshAccessToken rt]) w)) as [n Hn].
  destruct (updateData env C entropy credentials a _) as [[d|e] w1]; cbn [snd] in *; subst w1.
  - unfold oAuthToken_update, ret. cbn [oAuthToken setDrawn setSent].
    destruct (oAuthToken w !! userId); cbn [snd];
      (repeat split; right; eexists; reflexivity).
  - repeat split; right; eexists; reflexivity.
Qed.

(** An error of [getValidAccessToken] is a plain error of the backend or
    the rejection of the exchange. *)
Lemma getValidAccessToken_error (userId : string) (w : World) (e : thrown) :
  fst (getValidAccessToken env C entropy P userId w) = Throw e ->
  (exists m, e = JsError m) \/ (exists h rt, token_endpoint P h rt = Throw e).
Proof.
  unfold getValidAccessToken, bind, oAuthToken_findUnique, Date_now, throw.
  destruct (oAuthToken w !! userId) as [tokenRecord|]; [|intros [= <-]; eauto].
  assert (Hk : loadKey env = Throw e -> exists m, e = JsError m).
  { unfold loadKey. destruct (ENCRYPTION_KEY env) as [key|]; [|intros [= <-]; eauto].
    destruct (negb (Nat.eqb (jsLength key) 64)); [intros [= <-]; eauto | discriminate]. }
  assert (Hd : forall x, decrypt env C x = Throw e -> exists m, e = JsError m).
  { intros x. unfold decrypt. destruct (loadKey env) as [kb|e0]; [|intros [= ->]; auto].
    cbv zeta.
    destruct (missing _ || missing _ || missing _); [intros [= <-]; eauto|].
    destruct (negb (Nat.eqb (length kb) 32)); [intros [= <-]; eauto|].
    destruct (Nat.odd _); [intros [= <-]; unfold invalidHexLength; eauto|].
    destruct (gcm_open C kb _ _ _); [discriminate | intros [= <-]; eauto]. }
  assert (He : forall x w0, fst (encrypt env C entropy x w0) = Throw e -> exists m, e = JsError m).
  { intros x w0. unfold encrypt. destruct (loadKey env) as [kb|e0]; [|intros [= ->]; auto].
    unfold bind, randomBytes, lift, sealWith.
    destruct (negb (Nat.eqb (length kb) 32)); [intros [= <-]; eauto|].
    destruct (gcm_seal C kb _ _). discriminate. }
  destruct (accessTokenExpiresAt tokenRecord - now w <? BUFFER_MS).
  2:{ unfold lift. cbn [fst]. intros H. left. eapply Hd, H. }
  unfold refreshAccessToken, lift, bind.
  destruct (decrypt env C (refreshToken tokenRecord)) as [rt|e0] eqn:Hdec;
    [|cbn [fst]; intros [= <-]; left; eapply Hd, Hdec].
  destruct (oauth2Client_refreshAccessToken_cases P rt w) as [[_ ->]|[_ ->]];
    [cbn [fst]; intros [= <-]; eauto|].
  destruct (token_endpoint P (sent w) rt) as [tokens|e0] eqn:Ht;
    [|cbn [fst]; intros [= <-]; right; eauto].
  set (credentials := withRefreshToken (Some rt) tokens).
  destruct (truthy (access_token credentials)) as [a|]; [|intros [= <-]; eauto].
  unfold updateData. unfold bind at 1.
  destruct (encrypt env C entropy a _) as [[x|e0] w1] eqn:E1.
  2:{ cbn [fst]. intros [= <-]. left. eapply (He a). rewrite E1. reflexivity. }
  unfold bind at 1.
  assert (exists z, (match truthyZ (expiry_date credentials) with
                     | Some d => ret d
                     | None => t <- Date_now;; ret (t + 3600000)
                     end) w1 = (Ok z, w1)) as [z ->].
  { destruct (truthyZ (expiry_date credentials)); eexists; reflexivity. }
  unfold bind at 1.
  destruct (truthy (refresh_token credentials)) as [r|].
  - unfold bind at 1.
    destruct (encrypt env C entropy r w1) as [[y|e0] w2] eqn:E2.
    2:{ cbn [fst]. intros [= <-]. left. eapply (He r). rewrite E2. reflexivity. }
    unfold ret, oAuthToken_update.
    destruct (oAuthToken w2 !! userId); cbn [fst]; [discriminate | intros [= <-]; eauto].
  - unfold ret, oAuthToken_update.
    destruct (oAuthToken w1 !! userId); cbn [fst]; [discriminate | intros [= <-]; eauto].
Qed.

End TokenWork.

Lemma handleYouTubeQuotaError_failures (error : thrown) :
  In (handleYouTubeQuotaError error) providerFailures.
Proof.
  unfold handleYouTubeQuotaError, providerFailures.
  destruct (optZ_eqb (responseStatus error) 403); [|cbn; tauto].
  destruct (strictEq (responseReason error) "quotaExceeded"); [cbn; tauto|].
  destruct (strictEq (responseReason error) "forbidden"); cbn; tauto.
Qed.

Lemma setEventLog_restore (l : list Event) (w : World) :
  setEventLog (eventLog w) (setEventLog l w) = w.
Proof. destruct w; reflexivity. Qed.

Section CommentFacts.

Variable env : Env.
Variable C : AesGcm.
Variable entropy : nat -> byte.
Variable P : Provider.
Variable create : World -> Event -> bool.

(** [deleteComment], call by call. *)
Lemma deleteComment_steps (userId commentId : string) (w : World) :
  let rethrow e := if instanceof_ApiError e then e else handleYouTubeQuotaError e in
  deleteComment env C entropy P create userId commentId w
  = match getValidAccessToken env C entropy P userId w with
    | (Throw e, w1) => (Throw (rethrow e), w1)
    | (Ok youtube, w1) =>
        let w2 := setSent (sent w1 ++ [CommentsList youtube commentId]) w1 in
        match comments_list P (sent w1) youtube commentId with
        | Throw e => (Throw (rethrow e), w2)
        | Ok commentResponse =>
            match commentResponse ≫= head with
            | None => (Throw (ApiError 404 "Comment not found"), w2)
            | Some comment =>
                let w3 := setSent (sent w2 ++ [ChannelsListMine youtube]) w2 in
                match channels_list P (sent w2) youtube with
                | Throw e => (Throw (rethrow e), w3)
                | Ok channelResponse =>
                    if strictNe (comment_snippet comment ≫= authorChannelId)
                                (firstChannelId channelResponse)
                    then (Throw (ApiError 403 "You can only delete your own comments"), w3)
                    else
                      let w4 := setSent (sent w3 ++ [CommentsDelete youtube commentId]) w3 in
                      match comments_delete P (sent w3) youtube commentId with
                      | Throw e => (Throw (rethrow e), w4)
                      | Ok _ =>
                          (Ok tt,
                           setEventLog
                             (eventLog w4
                              ++ inserted create w4 {| eventType := "comment_deleted";
                                                       event_userId := Some userId;
                                                       event_timestamp := now w4 |}) w4)
                      end
                end
            end
        end
    end.
Proof.
  cbv zeta. unfold deleteComment, tryCatch, getClient. unfold bind at 1.
  destruct (getValidAccessToken env C entropy P userId w) as [[youtube|e] w1].
  2:{ unfold throw. destruct (instanceof_ApiError e); reflexivity. }
  unfold bind at 1, youtube_comments_list.
  destruct (comments_list P (sent w1) youtube commentId) as [commentResponse|e].
  2:{ unfold throw. destruct (instanceof_ApiError e); reflexivity. }
  destruct (commentResponse ≫= head) as [comment|]; [|reflexivity].
  unfold bind at 1, youtube_channels_list.
  destruct (channels_list P _ youtube) as [channelResponse|e].
  2:{ unfold throw. destruct (instanceof_ApiError e); reflexivity. }
  destruct (strictNe _ _); [reflexivity|].
  unfold bind, youtube_comments_delete.
  destruct (comments_delete P _ youtube commentId) as [[]|e].
  - reflexivity.
  - unfold throw. destruct (instanceof_ApiError e); reflexivity.
Qed.

End CommentFacts.

(** X7: [deleteComment] writes to the event log only when it succeeds, and
    then at most the one row "comment_deleted": the row is there when the
    database accepts the insert and missing when it rejects it, which the
    call does not report.  On success the provider traffic ends with the
    two lookups and the one [comments.delete], all three with the same
    access token and the last for the comment asked for; on failure the
    event log is as before.  The user table is never touched.  (The
    database is asked in the state the call has reached at the insert,
    which is its final state without the row.) *)
Theorem deleteComment_logs_only_deleted (env : Env) (C : AesGcm) (entropy : nat -> byte)
    (P : Provider) (create : World -> Event -> bool)
    (userId commentId : string) (w : World) :
  let r := deleteComment env C entropy P create userId commentId w in
  user (snd r) = user w
  /\ match fst r with
     | Ok _ =>
         eventLog (snd r)
         = eventLog w
           ++ inserted create (setEventLog (eventLog w) (snd r))
                {| eventType := "comment_deleted"; event_userId := Some userId;
                   event_timestamp := now w |}
         /\ deletions (snd r) = S (deletions w)
         /\ exists youtube,
              sent (snd r)
              = sent (snd (getValidAccessToken env C entropy P userId w))
                ++ [CommentsList youtube commentId; ChannelsListMine youtube;
                    CommentsDelete youtube commentId]
     | Throw _ => eventLog (snd r) = eventLog w
     end.
Proof.
  cbv zeta. rewrite deleteComment_steps. cbv zeta.
  pose proof (getValidAccessToken_tokenWork env C entropy P userId w) as (Hu & He & Hn & _).
  pose proof (getValidAccessToken_deletions env C entropy P userId w) as Hd.
  destruct (getValidAccessToken env C entropy P userId w) as [[youtube|e] w1];
    cbn [fst snd] in *; [|split; assumption].
  destruct (comments_list P (sent w1) youtube commentId) as [commentResponse|e];
    [|split; assumption].
  destruct (commentResponse ≫= head) as [comment|]; [|split; assumption].
  destruct (channels_list P _ youtube) as [channelResponse|e]; [|split; assumption].
  destruct (strictNe _ _); [split; assumption|].
  destruct (comments_delete P _ youtube commentId) as [[]|e]; [|split; assumption].
  cbn [fst snd].
  match goal with
  | |- context [setEventLog (eventLog ?x ++ inserted create ?x ?row) ?x] =>
      set (w4 := x);
      assert (H4 : eventLog w4 = eventLog w) by exact He;
      assert (Hn4 : now w4 = now w) by exact Hn
  end.
  split; [exact Hu|]. split; [|split].
  - rewrite <- H4 at 2. rewrite setEventLog_restore. cbn [eventLog setEventLog].
    rewrite H4, Hn4. reflexivity.
  - clear H4 Hn4. subst w4. unfold deletions in *. cbn [sent setEventLog setSent].
    rewrite <- !app_assoc. cbn [app].
    rewrite filter_app, length_app, Hd.
    rewrite !filter_cons_False by discriminate.
    rewrite filter_cons_True by reflexivity. cbn [length filter]. rewrite filter_nil. cbn [length]. lia.
  - clear H4 Hn4. subst w4. exists youtube. cbn [sent setEventLog setSent].
    rewrite <- !app_assoc. reflexivity.
Qed.

(** With a database that stores every row the deletion is logged, and with
    one that rejects the insert the deletion still succeeds, unlogged. *)
Example deleteComment_unlogged :
  let r := deleteComment Sample.env PlainGcm.cipher Sample.entropy
             (Sample.provider (Some [Some "UC-bob"])) Sample.refused "u1" "c1"
             (Sample.worldWith "R1" 3600000) in
  fst r = Ok tt
  /\ sent (snd r) = [CommentsList "A1" "c1"; ChannelsListMine "A1"; CommentsDelete "A1" "c1"]
  /\ eventLog (snd r) = [].
Proof. repeat split; vm_compute; reflexivity. Qed.

(** X8: when no provider call is rejected with an [ApiError] of the
    backend's own, every failure of [deleteComment] is one of five errors:
    404 "Comment not found", 403 for a comment of another channel, or one
    of the three errors of [handleYouTubeQuotaError].  When it is one of the
    first two, no [comments.delete] was issued. *)
Theorem deleteComment_failures (env : Env) (C : AesGcm) (entropy : nat -> byte)
    (P : Provider) (create : World -> Event -> bool)
    (userId commentId : string) (w : World) (e : thrown) :
  foreignRejections P ->
  fst (deleteComment env C entropy P create userId commentId w) = Throw e ->
  In e (ApiError 404 "Comment not found"
        :: ApiError 403 "You can only delete your own comments"
        :: providerFailures)
  /\ (e = ApiError 404 "Comment not found"
      \/ e = ApiError 403 "You can only delete your own comments" ->
      deletions (snd (deleteComment env C entropy P create userId commentId w)) = deletions w).
Proof.
  intros (Ft & Fc & Fl & Fd).
  rewrite deleteComment_steps. cbv zeta.
  pose proof (getValidAccessToken_deletions env C entropy P userId w) as Hd.
  pose proof (getValidAccessToken_error env C entropy P userId w) as Herr.
  assert (Hre : forall e0, instanceof_ApiError e0 = false ->
            (if instanceof_ApiError e0 then e0 else handleYouTubeQuotaError e0) = e ->
            In e (ApiError 404 "Comment not found"
                  :: ApiError 403 "You can only delete your own comments"
                  :: providerFailures)
            /\ (e = ApiError 404 "Comment not found"
                \/ e = ApiError 403 "You can only delete your own comments" -> False)).
  { intros e0 -> <-. split.
    - right. right. apply handleYouTubeQuotaError_failures.
    - pose proof (handleYouTubeQuotaError_failures e0) as H.
      unfold providerFailures in H. cbn [In] in H.
      intros [E|E]; rewrite E in H; intuition discriminate. }
  destruct (getValidAccessToken env C entropy P userId w) as [[youtube|e0] w1];
    cbn [fst snd] in *.
  2:{ intros [= H]. destruct (Hre e0) as [H1 H2]; [|exact H|split; [exact H1|tauto]].
      destruct (Herr e0 eq_refl) as [[m ->]|(h & rt & Hp)]; [reflexivity|eauto]. }
  assert (Hd2 : forall l, Forall (fun r => isDelete r = false) l ->
            deletions (setSent (sent w1 ++ l) w1) = deletions w).
  { intros l Hl. rewrite <- Hd. apply deletions_app, Hl. }
  destruct (comments_list P (sent w1) youtube commentId) as [commentResponse|e0] eqn:Hl.
  2:{ intros [= H]. destruct (Hre e0) as [H1 H2]; [eauto|exact H|split; [exact H1|tauto]]. }
  destruct (commentResponse ≫= head) as [comment|].
  2:{ intros [= <-]. split; [cbn; tauto|]. intros _. cbn [snd].
      apply (Hd2 [CommentsList youtube commentId]). repeat constructor. }
  destruct (channels_list P _ youtube) as [channelResponse|e0] eqn:Hc.
  2:{ intros [= H]. destruct (Hre e0) as [H1 H2]; [eauto|exact H|split; [exact H1|tauto]]. }
  destruct (strictNe _ _).
  { intros [= <-]. split; [cbn; tauto|]. intros _. cbn [snd sent setSent].
    rewrite <- app_assoc.
    apply (Hd2 [CommentsList youtube commentId; ChannelsListMine youtube]).
    repeat constructor. }
  destruct (comments_delete P _ youtube commentId) as [[]|e0] eqn:Hdel; [discriminate|].
  intros [= H]. destruct (Hre e0) as [H1 H2]; [eauto|exact H|split; [exact H1|tauto]].
Qed.

Lemma deleteComment_failures_witness :
  In (ApiError 429 "YouTube API quota exceeded. Please try again later.")
     (ApiError 404 "Comment not found"
      :: ApiError 403 "You can only delete your own comments"
      :: providerFailures)
  /\ (ApiError 429 "YouTube API quota exceeded. Please try again later."
      = ApiError 404 "Comment not found"
      \/ ApiError 429 "YouTube API quota exceeded. Please try again later."
         = ApiError 403 "You can only delete your own comments" ->
      deletions (snd (deleteComment Sample.env PlainGcm.cipher Sample.entropy
                        Cases.outOfQuota Sample.stored "u1" "c1" (Sample.worldWith "R1" 3600000)))
      = deletions (Sample.worldWith "R1" 3600000)).
Proof.
  apply (deleteComment_failures Sample.env PlainGcm.cipher Sample.entropy Cases.outOfQuota
           Sample.stored "u1" "c1" (Sample.worldWith "R1" 3600000)).
  - repeat split; intros ? ? ?; intros; cbn in *; try discriminate;
      match goal with H : Throw _ = Throw _ |- _ => injection H as <- end; reflexivity.
  - vm_compute. reflexivity.
Defined.

(** X9: for a user with no stored credentials every comment operation
    fails with the [ApiError] 500 "An error occurred with the YouTube API"
    (an upstream error, not a missing authorization), and no provider call
    is made, no event logged and nothing drawn. *)
Theorem comment_ops_without_credentials (env : Env) (C : AesGcm) (entropy : nat -> byte)
    (P : Provider) (G : Google) (toISOString : Z -> string)
    (create : World -> Event -> bool) (userId : string)
    (b : Backend) :
  oAuthToken (b_world b) !! userId = None ->
  (forall videoId pageToken maxResults,
     getComments env C entropy P userId videoId pageToken maxResults (b_world b)
     = (Throw (ApiError 500 "An error occurred with the YouTube API"), b_world b))
  /\ (forall commentId,
        deleteComment env C entropy P create userId commentId (b_world b)
        = (Throw (ApiError 500 "An error occurred with the YouTube API"), b_world b))
  /\ (forall videoId text,
        addComment env C entropy P G toISOString create userId videoId text b
        = (Throw (ApiError 500 "An error occurred with the YouTube API"), b))
  /\ (forall parentId text,
        replyToComment env C entropy P G toISOString create userId parentId text b
        = (Throw (ApiError 500 "An error occurred with the YouTube API"), b))
  /\ kindOf (ApiError 500 "An error occurred with the YouTube API") = UpstreamError.
Proof.
  intros H.
  assert (Hg : getValidAccessToken env C entropy P userId (b_world b)
               = (Throw (JsError "No OAuth token found for user"), b_world b)).
  { unfold getValidAccessToken, bind, oAuthToken_findUnique. rewrite H. reflexivity. }
  repeat split.
  - intros. unfold getComments, tryCatch, getClient. unfold bind at 1. rewrite Hg. reflexivity.
  - intros. rewrite deleteComment_steps. cbv zeta. rewrite Hg. reflexivity.
  - intros. unfold addComment, tryCatchB, getClient. unfold bindB at 1. unfold inWorld.
    rewrite Hg. destruct b; reflexivity.
  - intros. unfold replyToComment, tryCatchB, getClient. unfold bindB at 1. unfold inWorld.
    rewrite Hg. destruct b; reflexivity.
Qed.

Lemma comment_ops_without_credentials_witness :
  deleteComment Sample.env PlainGcm.cipher Sample.entropy (Sample.provider None)
    Sample.stored "u1" "c1" Sample.registered
  = (Throw (ApiError 500 "An error occurred with the YouTube API"), Sample.registered).
Proof.
  destruct (comment_ops_without_credentials Sample.env PlainGcm.cipher Sample.entropy
              (Sample.provider None) Online.google Online.toISOString Sample.stored "u1"
              (Online.backend Sample.registered) eq_refl) as (_ & H & _).
  exact (H "c1").
Defined.

(** X10: [getComments] writes no event and no user row.  When it succeeds
    it has asked the provider for the caller's channel and then for the
    threads, with one access token and the page size and page token it was
    given, and it returns one thread per item of the answer, in the
    answer's order; when it fails, the error is one of the three of
    [handleYouTubeQuotaError]. *)
Theorem getComments_outcomes (env : Env) (C : AesGcm) (entropy : nat -> byte)
    (P : Provider) (userId videoId : string) (pageToken : option string)
    (maxResults : Z) (w : World) :
  let r := getComments env C entropy P userId videoId pageToken maxResults w in
  eventLog (snd r) = eventLog w
  /\ user (snd r) = user w
  /\ match fst r with
     | Ok page =>
         exists youtube response,
           sent (snd r)
           = sent (snd (getValidAccessToken env C entropy P userId w))
             ++ [ChannelsListMine youtube;
                 CommentThreadsList youtube videoId maxResults pageToken]
           /\ commentThreads_list P
                (sent (snd (getValidAccessToken env C entropy P userId w))
                 ++ [ChannelsListMine youtube]) youtube videoId maxResults pageToken
              = Ok response
           /\ comments page
              = map (toThread (userChannelId page)) (default [] (page_items response))
           /\ nextPageToken page = truthy (page_nextPageToken response)
     | Throw e => In e providerFailures
     end.
Proof.
  cbv zeta.
  destruct (getComments env C entropy P userId videoId pageToken maxResults w)
    as [res w'] eqn:E.
  unfold getComments, tryCatch, getClient in E. unfold bind at 1 in E.
  pose proof (getValidAccessToken_tokenWork env C entropy P userId w) as (Hu & He & _ & _).
  destruct (getValidAccessToken env C entropy P userId w) as [[youtube|e] w1];
    cbn [fst snd] in *.
  2:{ unfold throw in E. injection E as <- <-. repeat split; try assumption.
      apply handleYouTubeQuotaError_failures. }
  unfold bind at 1, youtube_channels_list in E.
  destruct (channels_list P (sent w1) youtube) as [channelResponse|e].
  2:{ unfold throw in E. injection E as <- <-. repeat split; try assumption.
      apply handleYouTubeQuotaError_failures. }
  unfold bind at 1, youtube_commentThreads_list in E. cbn [sent setSent] in E.
  destruct (commentThreads_list P _ youtube videoId maxResults pageToken)
    as [response|e] eqn:Hr.
  2:{ unfold throw in E. injection E as <- <-. repeat split; try assumption.
      apply handleYouTubeQuotaError_failures. }
  unfold ret in E. injection E as <- <-. cbn [eventLog user sent setSent].
  split; [exact He|]. split; [exact Hu|].
  exists youtube, response. rewrite <- app_assoc. split; [reflexivity|].
  split; [exact Hr|]. cbn [comments userChannelId nextPageToken].
  split; [|reflexivity]. destruct (page_items response); reflexivity.
Qed.

Lemma orElse_nonempty (x : option string) (d : string) : d <> "" -> orElse x d <> "".
Proof.
  intros H. unfold orElse. destruct (truthy x) as [s|] eqn:E; [|exact H].
  exact (truthy_nonempty x s E).
Qed.

Section Posting.

Variable env : Env.
Variable C : AesGcm.
Variable entropy : nat -> byte.
Variable P : Provider.
Variable G : Google.
Variable toISOString : Z -> string.

Lemma posted_shape (id : option string) (snippet : option CommentSnippet)
    (text : string) (t : Z) :
  canDelete (posted toISOString id snippet text t) = true
  /\ c_likeCount (posted toISOString id snippet text t) = 0
  /\ (text <> "" -> c_textOriginal (posted toISOString id snippet text t) <> ""
                    /\ c_textDisplay (posted toISOString id snippet text t) <> "").
Proof.
  split; [reflexivity|]. split; [reflexivity|].
  intros H. split; apply orElse_nonempty, H.
Qed.

End Posting.

(** X11: [addComment] and [replyToComment] send exactly one insert call,
    with the access token of the user and the text as given.  They write to
    the event log only after that call is accepted, and then at most their
    one row: it is there when the database accepts it and missing when it
    rejects it, and the call succeeds either way.  The comment they return
    is marked deletable, has no likes, and has a non-empty text whenever
    the text given is non-empty, whatever the provider's answer leaves out.
    A failure is one of the three errors of [handleYouTubeQuotaError] and
    leaves the event log as it was.  (The database is asked in the state
    the call has reached at the insert, which is its final state without
    the row.) *)
Theorem posting_outcomes (env : Env) (C : AesGcm) (entropy : nat -> byte)
    (P : Provider) (G : Google) (toISOString : Z -> string)
    (create : World -> Event -> bool)
    (userId target text : string) (b : Backend) :
  (let r := addComment env C entropy P G toISOString create userId target text b in
   match fst r with
   | Ok thread =>
       eventLog (b_world (snd r))
       = eventLog (b_world b)
         ++ inserted create (setEventLog (eventLog (b_world b)) (b_world (snd r)))
              {| eventType := "comment_added"; event_userId := Some userId;
                 event_timestamp := now (b_world b) |}
       /\ (exists youtube,
             b_calls (snd r) = b_calls b ++ [CommentThreadsInsert youtube target text]
             /\ fst (getValidAccessToken env C entropy P userId (b_world b)) = Ok youtube)
       /\ canDelete (topLevelComment thread) = true
       /\ replies thread = [] /\ totalReplyCount thread = 0
       /\ (text <> "" -> c_textOriginal (topLevelComment thread) <> "")
   | Throw e =>
       In e providerFailures /\ eventLog (b_world (snd r)) = eventLog (b_world b)
   end)
  /\ (let r := replyToComment env C entropy P G toISOString create userId target text b in
      match fst r with
      | Ok reply =>
          eventLog (b_world (snd r))
          = eventLog (b_world b)
            ++ inserted create (setEventLog (eventLog (b_world b)) (b_world (snd r)))
                 {| eventType := "reply_added"; event_userId := Some userId;
                    event_timestamp := now (b_world b) |}
          /\ (exists youtube,
                b_calls (snd r) = b_calls b ++ [CommentsInsert youtube target text]
                /\ fst (getValidAccessToken env C entropy P userId (b_world b)) = Ok youtube)
          /\ canDelete reply = true
          /\ (text <> "" -> c_textOriginal reply <> "")
      | Throw e =>
          In e providerFailures /\ eventLog (b_world (snd r)) = eventLog (b_world b)
      end).
Proof.
  pose proof (getValidAccessToken_tokenWork env C entropy P userId (b_world b))
    as (_ & He & Hn & _).
  split; cbv zeta.
  - destruct (addComment env C entropy P G toISOString create userId target text b)
      as [res b'] eqn:E.
    unfold addComment, tryCatchB, getClient in E. unfold bindB at 1 in E.
    unfold inWorld at 1 in E.
    destruct (getValidAccessToken env C entropy P userId (b_world b)) as [[youtube|e] w1];
      cbn [fst snd] in *.
    2:{ unfold throwB in E. injection E as <- <-. cbn [b_world].
        split; [apply handleYouTubeQuotaError_failures | exact He]. }
    unfold bindB at 1, youtube_commentThreads_insert in E. cbn [b_world b_calls] in E.
    destruct (commentThreads_insert G _ _ youtube target text) as [thread|e].
    2:{ unfold throwB in E. injection E as <- <-. cbn [b_world].
        split; [apply handleYouTubeQuotaError_failures | exact He]. }
    unfold bindB, inWorld, EventService_log, Date_now, retB in E.
    cbn [b_world b_calls eventLog setEventLog now] in E. injection E as <- <-.
    cbn [b_world b_calls topLevelComment replies totalReplyCount].
    rewrite <- He at 2. rewrite setEventLog_restore. cbn [eventLog setEventLog].
    rewrite He, Hn. split; [reflexivity|]. split; [eauto|].
    split; [reflexivity|]. split; [reflexivity|]. split; [reflexivity|].
    intros Ht. apply posted_shape, Ht.
  - destruct (replyToComment env C entropy P G toISOString create userId target text b)
      as [res b'] eqn:E.
    unfold replyToComment, tryCatchB, getClient in E. unfold bindB at 1 in E.
    unfold inWorld at 1 in E.
    destruct (getValidAccessToken env C entropy P userId (b_world b)) as [[youtube|e] w1];
      cbn [fst snd] in *.
    2:{ unfold throwB in E. injection E as <- <-. cbn [b_world].
        split; [apply handleYouTubeQuotaError_failures | exact He]. }
    unfold bindB at 1, youtube_comments_insert in E. cbn [b_world b_calls] in E.
    destruct (comments_insert G _ _ youtube target text) as [reply|e].
    2:{ unfold throwB in E. injection E as <- <-. cbn [b_world].
        split; [apply handleYouTubeQuotaError_failures | exact He]. }
    unfold bindB, inWorld, EventService_log, Date_now, retB in E.
    cbn [b_world b_calls eventLog setEventLog now] in E. injection E as <- <-.
    cbn [b_world b_calls].
    rewrite <- He at 2. rewrite setEventLog_restore. cbn [eventLog setEventLog].
    rewrite He, Hn. split; [reflexivity|]. split; [eauto|].
    split; [reflexivity|].
    intros Ht. apply posted_shape, Ht.
Qed.

(** ** Login and logout *)

Section LoginFacts.

Variable env : Env.
Variable C : AesGcm.
Variable entropy : nat -> byte.
Variable P : Provider.
Variable G : Google.
Variable J : JwtLib.
Variable cuid : World -> string.
Variable create : World -> Event -> bool.

(** [handleCallback], call by call. *)
Lemma handleCallback_steps (code : string) (b : Backend) :
  handleCallback env C entropy P G J cuid create code b
  = let w := b_world b in
    let calls1 := b_calls b ++ [GetToken code] in
    match getToken G (b_calls b) (sent w) code with
    | Throw e => (Throw e, {| b_world := w; b_calls := calls1 |})
    | Ok tokens =>
        let calls2 := calls1 ++ [UserinfoGet (tr_access_token tokens)] in
        match userinfo_get G calls1 (sent w) (tr_access_token tokens) with
        | Throw e => (Throw e, {| b_world := w; b_calls := calls2 |})
        | Ok userInfo =>
            match truthy (gi_id userInfo), truthy (gi_email userInfo) with
            | Some googleId, Some email =>
                match lookupChannel P (tr_access_token tokens) w with
                | (Throw e, w1) => (Throw e, {| b_world := w1; b_calls := calls2 |})
                | (Ok channelId, w1) =>
                    match user_upsert cuid googleId email channelId w1 with
                    | (Throw e, w2) => (Throw e, {| b_world := w2; b_calls := calls2 |})
                    | (Ok u, w2) =>
                        match oAuthToken_upsert env C entropy (user_id u) tokens w2 with
                        | (Throw e, w3) => (Throw e, {| b_world := w3; b_calls := calls2 |})
                        | (Ok _, w3) =>
                            let w4 := setEventLog
                                        (eventLog w3
                                         ++ inserted create w3
                                              {| eventType := "login";
                                                 event_userId := Some (user_id u);
                                                 event_timestamp := now w3 |}) w3 in
                            match generateToken env J
                                    {| req_id := user_id u; req_email := user_email u;
                                       req_googleId := user_googleId u |} w4 with
                            | (Throw e, w5) => (Throw e, {| b_world := w5; b_calls := calls2 |})
                            | (Ok jwt, w5) =>
                                (Ok {| login_id := user_id u; login_email := user_email u;
                                       login_name := truthy (gi_name userInfo);
                                       login_avatarUrl := truthy (gi_picture userInfo);
                                       login_channelId := user_channelId u;
                                       login_token := jwt |},
                                 {| b_world := w5; b_calls := calls2 |})
                            end
                        end
                    end
                end
            | _, _ => (Throw (JsError "Failed to get user information from Google"),
                       {| b_world := w; b_calls := calls2 |})
            end
        end
    end.
Proof.
  cbv zeta. unfold handleCallback. unfold bindB at 1, oauth2Client_getToken.
  destruct (getToken G (b_calls b) (sent (b_world b)) code) as [tokens|e]; [|reflexivity].
  unfold bindB at 1, oauth2_userinfo_get. cbn [b_world b_calls].
  destruct (userinfo_get G _ _ (tr_access_token tokens)) as [userInfo|e]; [|reflexivity].
  destruct (truthy (gi_id userInfo)) as [googleId|]; [|reflexivity].
  destruct (truthy (gi_email userInfo)) as [email|]; [|reflexivity].
  unfold bindB at 1, inWorld at 1. cbn [b_world b_calls].
  destruct (lookupChannel P (tr_access_token tokens) (b_world b)) as [[channelId|e] w1];
    [|reflexivity].
  unfold bindB at 1, inWorld at 1. cbn [b_world b_calls].
  destruct (user_upsert cuid googleId email channelId w1) as [[u|e] w2]; [|reflexivity].
  unfold bindB at 1, inWorld at 1. cbn [b_world b_calls].
  destruct (oAuthToken_upsert env C entropy (user_id u) tokens w2) as [[[]|e] w3];
    [|reflexivity].
  unfold bindB at 1, inWorld at 1, EventService_log. cbn [b_world b_calls].
  unfold bindB at 1, inWorld at 1. cbn [b_world b_calls].
  destruct (generateToken env J _ _) as [[jwt|e] w5]; reflexivity.
Qed.

(** The channel lookup of the login never fails and only adds its call to
    the provider traffic. *)
Lemma lookupChannel_spec (access_token : string) (w : World) :
  exists channelId,
    lookupChannel P access_token w
    = (Ok channelId, setSent (sent w ++ [ChannelsListMine access_token]) w).
Proof.
  unfold lookupChannel, tryCatch, bind, youtube_channels_list, ret.
  destruct (channels_list P (sent w) access_token); eexists; reflexivity.
Qed.

(** [user_upsert] writes the user table only. *)
Lemma user_upsert_frame (googleId email : string) (channelId : option string)
    (w : World) :
  exists m, snd (user_upsert cuid googleId email channelId w) = setUser m w.
Proof.
  unfold user_upsert.
  assert (Hw : w = setUser (user w) w) by (destruct w; reflexivity).
  destruct (usersWhere (fun u => String.eqb (user_googleId u) googleId) w) as [|[key row] rest].
  - match goal with |- context [usersWhere ?f w] => destruct (usersWhere f w) end;
      [|exists (user w); exact Hw].
    destruct (user w !! cuid w); [exists (user w); exact Hw|].
    eexists; reflexivity.
  - match goal with |- context [usersWhere ?f w] => destruct (usersWhere f w) end;
      [|exists (user w); exact Hw].
    eexists; reflexivity.
Qed.

Lemma generateToken_world (u : RequestUser) (w : World) :
  snd (generateToken env J u w) = w.
Proof.
  unfold generateToken, jwt_sign, bind, Date_now, throw, ret.
  destruct (truthy (JWT_SECRET env)); [|reflexivity].
  destruct (timespan J _); reflexivity.
Qed.

Variable keyBuffer : list byte.
Hypothesis key : usableKey env keyBuffer.

(** The row [oAuthToken_upsert] writes, under a usable key. *)
Lemma oAuthToken_upsert_spec (userId : string) (tokenData : TokenResponse) (w : World) :
  exists n row,
    oAuthToken_upsert env C entropy userId tokenData w
    = (Ok tt, setDrawn n (setOAuthToken (<[userId := row]> (oAuthToken w)) w))
    /\ (exists k, accessToken row
                  = envelopeOf C keyBuffer (ivAt entropy k) (tr_access_token tokenData))
    /\ accessTokenExpiresAt row
       = default (now w + 3600000) (truthyZ (tr_expiry_date tokenData))
    /\ scope row = orElse (tr_scope tokenData) (joinSpace YOUTUBE_SCOPES)
    /\ match truthy (tr_refresh_token tokenData), oAuthToken w !! userId with
       | Some rt, _ => exists k, refreshToken row = envelopeOf C keyBuffer (ivAt entropy k) rt
       | None, Some r => refreshToken row = refreshToken r
       | None, None => exists k, refreshToken row = envelopeOf C keyBuffer (ivAt entropy k) ""
       end.
Proof.
  unfold oAuthToken_upsert.
  assert (Hexp : forall w0, expiryOf tokenData w0
            = (Ok (default (now w0 + 3600000) (truthyZ (tr_expiry_date tokenData))), w0)).
  { intros w0. unfold expiryOf. destruct (truthyZ (tr_expiry_date tokenData)); reflexivity. }
  unfold bind at 1. rewrite (encrypt_envelope env C entropy keyBuffer key).
  unfold bind at 1.
  assert (Hor : orElse (tr_refresh_token tokenData) ""
                = default "" (truthy (tr_refresh_token tokenData))).
  { unfold orElse. destruct (truthy (tr_refresh_token tokenData)); reflexivity. }
  destruct (truthy (tr_refresh_token tokenData)) as [rt|] eqn:Hrt.
  - unfold bind at 1. rewrite (encrypt_envelope env C entropy keyBuffer key).
    unfold ret at 1. unfold bind at 1. rewrite Hexp.
    unfold bind at 1. rewrite (encrypt_envelope env C entropy keyBuffer key).
    unfold bind at 1. rewrite (encrypt_envelope env C entropy keyBuffer key).
    unfold bind at 1. rewrite Hexp.
    cbn [oAuthToken setDrawn drawn now].
    destruct (oAuthToken w !! userId) as [r|].
    + eexists _, _. split; [reflexivity|]. cbn [accessToken accessTokenExpiresAt scope refreshToken default].
      repeat split; eauto.
    + eexists _, _. split; [reflexivity|]. cbn [accessToken accessTokenExpiresAt scope refreshToken default].
      rewrite Hor. cbn [default]. repeat split; eauto.
  - unfold ret at 1. unfold bind at 1. rewrite Hexp.
    unfold bind at 1. rewrite (encrypt_envelope env C entropy keyBuffer key).
    unfold bind at 1. rewrite (encrypt_envelope env C entropy keyBuffer key).
    unfold bind at 1. rewrite Hexp.
    cbn [oAuthToken setDrawn drawn now].
    destruct (oAuthToken w !! userId) as [r|].
    + eexists _, _. split; [reflexivity|]. cbn [accessToken accessTokenExpiresAt scope refreshToken default].
      repeat split; eauto.
    + eexists _, _. split; [reflexivity|]. cbn [accessToken accessTokenExpiresAt scope refreshToken default].
      rewrite Hor. cbn [default]. repeat split; eauto.
Qed.

End LoginFacts.

Section LoginOutcome.

Variable env : Env.
Variable C : AesGcm.
Variable entropy : nat -> byte.
Variable P : Provider.
Variable G : Google.
Variable J : JwtLib.
Variable cuid : World -> string.
Variable create : World -> Event -> bool.
Variable keyBuffer : list byte.
Hypothesis key : usableKey env keyBuffer.

(** What a login that succeeds has done. *)
Lemma handleCallback_ok (code : string) (b b' : Backend) (res : LoginResult) :
  handleCallback env C entropy P G J cuid create code b = (Ok res, b') ->
  exists tokens userInfo googleId email channelId u row,
    getToken G (b_calls b) (sent (b_world b)) code = Ok tokens
    /\ userinfo_get G (b_calls b ++ [GetToken code]) (sent (b_world b)) (tr_access_token tokens)
       = Ok userInfo
    /\ truthy (gi_id userInfo) = Some googleId
    /\ truthy (gi_email userInfo) = Some email
    /\ user_upsert cuid googleId email channelId
         (setSent (sent (b_world b) ++ [ChannelsListMine (tr_access_token tokens)]) (b_world b))
       = (Ok u, setUser (user (b_world b'))
                  (setSent (sent (b_world b) ++ [ChannelsListMine (tr_access_token tokens)])
                           (b_world b)))
    /\ generateToken env J {| req_id := user_id u; req_email := user_email u;
                              req_googleId := user_googleId u |} (b_world b')
       = (Ok (login_token res), b_world b')
    /\ res = {| login_id := user_id u; login_email := user_email u;
                login_name := truthy (gi_name userInfo);
                login_avatarUrl := truthy (gi_picture userInfo);
                login_channelId := user_channelId u;
                login_token := login_token res |}
    /\ b_calls b' = b_calls b ++ [GetToken code; UserinfoGet (tr_access_token tokens)]
    /\ sent (b_world b') = sent (b_world b) ++ [ChannelsListMine (tr_access_token tokens)]
    /\ now (b_world b') = now (b_world b)
    /\ eventLog (b_world b')
       = eventLog (b_world b)
         ++ inserted create (setEventLog (eventLog (b_world b)) (b_world b'))
              {| eventType := "login"; event_userId := Some (user_id u);
                 event_timestamp := now (b_world b) |}
    /\ oAuthToken (b_world b') = <[user_id u := row]> (oAuthToken (b_world b))
    /\ (exists k, accessToken row
                  = envelopeOf C keyBuffer (ivAt entropy k) (tr_access_token tokens))
    /\ accessTokenExpiresAt row
       = default (now (b_world b) + 3600000) (truthyZ (tr_expiry_date tokens))
    /\ scope row = orElse (tr_scope tokens) (joinSpace YOUTUBE_SCOPES)
    /\ match truthy (tr_refresh_token tokens), oAuthToken (b_world b) !! user_id u with
       | Some rt, _ => exists k, refreshToken row = envelopeOf C keyBuffer (ivAt entropy k) rt
       | None, Some r => refreshToken row = refreshToken r
       | None, None => exists k, refreshToken row = envelopeOf C keyBuffer (ivAt entropy k) ""
       end.
Proof.
  rewrite handleCallback_steps. cbv zeta.
  destruct (getToken G (b_calls b) (sent (b_world b)) code) as [tokens|e]; [|discriminate].
  destruct (userinfo_get G _ _ (tr_access_token tokens)) as [userInfo|e] eqn:Hinfo;
    [|discriminate].
  destruct (truthy (gi_id userInfo)) as [googleId|] eqn:Hid; [|discriminate].
  destruct (truthy (gi_email userInfo)) as [email|] eqn:Hemail; [|discriminate].
  destruct (lookupChannel_spec P (tr_access_token tokens) (b_world b)) as [channelId ->].
  set (w1 := setSent _ (b_world b)).
  destruct (user_upsert_frame cuid googleId email channelId w1) as [m Hm].
  destruct (user_upsert cuid googleId email channelId w1) as [[u|e] w2] eqn:Hu; [|discriminate].
  cbn [snd] in Hm. subst w2.
  destruct (oAuthToken_upsert_spec env C entropy keyBuffer key (user_id u) tokens (setUser m w1))
    as (n & row & -> & Ha & Hx & Hs & Hr).
  match goal with
  | |- context [setEventLog (eventLog ?x ++ inserted create ?x ?row) ?x] =>
      set (w3 := x);
      assert (H3 : eventLog w3 = eventLog (b_world b)) by reflexivity
  end.
  set (w4 := setEventLog _ w3).
  pose proof (generateToken_world env J {| req_id := user_id u; req_email := user_email u;
                                           req_googleId := user_googleId u |} w4) as Hg.
  destruct (generateToken env J _ w4) as [[jwt|e] w5] eqn:Hj; [|discriminate].
  cbn [snd] in Hg. subst w5.
  intros [= <- <-].
  exists tokens, userInfo, googleId, email, channelId, u, row.
  cbn [b_world b_calls login_token].
  assert (Hw3 : setEventLog (eventLog (b_world b)) w4 = w3).
  { unfold w4. rewrite <- H3. apply setEventLog_restore. }
  rewrite Hw3.
  repeat match goal with |- _ /\ _ => split end; try reflexivity; try assumption.
  rewrite <- app_assoc. reflexivity.
Qed.

End LoginOutcome.

Lemma user_upsert_stored (cuid : World -> string) (googleId email : string)
    (channelId : option string) (w w' : World) (u : User) :
  keyedById w ->
  user_upsert cuid googleId email channelId w = (Ok u, w') ->
  user w' !! user_id u = Some u
  /\ user_googleId u = googleId /\ user_email u = email /\ user_channelId u = channelId.
Proof.
  intros Hk. unfold user_upsert.
  destruct (usersWhere (fun u => String.eqb (user_googleId u) googleId) w)
    as [|[k row] rest] eqn:Hf.
  - match goal with |- context [usersWhere ?f w] => destruct (usersWhere f w) end;
      [|intros [=]].
    destruct (user w !! cuid w); [intros [=]|].
    intros H. injection H as <- <-. cbn [user setUser user_id user_googleId user_email user_channelId].
    rewrite lookup_insert_eq. repeat split.
  - match goal with |- context [usersWhere ?f w] => destruct (usersWhere f w) end;
      [|intros [=]].
    intros H. injection H as <- <-. cbn [user setUser user_id user_googleId user_email user_channelId].
    assert (Hin : In (k, row) (usersWhere (fun u => String.eqb (user_googleId u) googleId) w))
      by (rewrite Hf; left; reflexivity).
    unfold usersWhere in Hin. apply filter_In in Hin as [Hin Hg]. cbn [snd] in Hg.
    apply list_elem_of_In, elem_of_map_to_list in Hin.
    rewrite (Hk k row Hin), lookup_insert_eq.
    apply String.eqb_eq in Hg. repeat split. exact Hg.
Qed.

(** X12: after a login that succeeds, the credential row of the user holds
    the access token Google issued, with the expiry Google gave or one hour
    when it gave none, and the granted scope or the requested scopes when it
    named none.  A call of [getValidAccessToken] at that moment returns the
    issued token without any exchange.  The login has made the two OAuth
    calls and the channel lookup, in this order, and has added to the event
    log its one "login" row when the database accepted it, and nothing when
    it did not.  (The database is asked in the state the login has reached
    at the insert, which is its final state without the row.) *)
Theorem login_then_access_token (env : Env) (C : AesGcm) (entropy : nat -> byte)
    (P : Provider) (G : Google) (J : JwtLib) (cuid : World -> string)
    (create : World -> Event -> bool)
    (keyBuffer : list byte) (code : string) (b b' : Backend) (res : LoginResult)
    (tokens : TokenResponse) :
  AesGcmLaws C -> usableKey env keyBuffer ->
  handleCallback env C entropy P G J cuid create code b = (Ok res, b') ->
  getToken G (b_calls b) (sent (b_world b)) code = Ok tokens ->
  tr_access_token tokens <> "" ->
  (forall d, truthyZ (tr_expiry_date tokens) = Some d -> now (b_world b) + BUFFER_MS <= d) ->
  getValidAccessToken env C entropy P (login_id res) (b_world b')
    = (Ok (tr_access_token tokens), b_world b')
  /\ b_calls b' = b_calls b ++ [GetToken code; UserinfoGet (tr_access_token tokens)]
  /\ sent (b_world b') = sent (b_world b) ++ [ChannelsListMine (tr_access_token tokens)]
  /\ eventLog (b_world b')
     = eventLog (b_world b)
       ++ inserted create (setEventLog (eventLog (b_world b)) (b_world b'))
            {| eventType := "login"; event_userId := Some (login_id res);
               event_timestamp := now (b_world b) |}
  /\ exists row,
       oAuthToken (b_world b') = <[login_id res := row]> (oAuthToken (b_world b))
       /\ decrypt env C (accessToken row) = Ok (tr_access_token tokens)
       /\ accessTokenExpiresAt row
          = default (now (b_world b) + 3600000) (truthyZ (tr_expiry_date tokens))
       /\ scope row = orElse (tr_scope tokens) (joinSpace YOUTUBE_SCOPES).
Proof.
  intros laws key H Ht Hne Hfresh.
  destruct (handleCallback_ok env C entropy P G J cuid create keyBuffer key code b b' res H)
    as (tokens' & userInfo & googleId & email & channelId & u & row
        & Ht' & _ & _ & _ & _ & _ & Hres & Hcalls & Hsent & Hnow & Hlog & Hstore
        & [k Ha] & Hx & Hs & _).
  rewrite Ht in Ht'. injection Ht' as <-.
  assert (Hid : login_id res = user_id u) by (rewrite Hres; reflexivity).
  rewrite Hid.
  assert (Hdec : decrypt env C (accessToken row) = Ok (tr_access_token tokens)).
  { rewrite Ha. apply decrypt_envelopeOf; assumption. }
  split.
  - rewrite (getValidAccessToken_fresh env C entropy P (user_id u) (b_world b') row).
    + rewrite Hdec. reflexivity.
    + rewrite Hstore. apply lookup_insert_eq.
    + rewrite Hx, Hnow. apply Z.ltb_ge.
      destruct (truthyZ (tr_expiry_date tokens)) as [d|] eqn:E; cbv [default from_option id].
      * specialize (Hfresh d eq_refl). lia.
      * unfold BUFFER_MS. lia.
  - repeat split; try assumption.
    exists row. repeat split; assumption.
Qed.

Lemma login_then_access_token_witness :
  let b := Online.backend Sample.world in
  let r := handleCallback Sample.env PlainGcm.cipher Sample.entropy (Sample.provider None)
             Online.google Sample.jwt Online.cuid Sample.stored "code-1" b in
  exists res,
    fst r = Ok res
    /\ getValidAccessToken Sample.env PlainGcm.cipher Sample.entropy (Sample.provider None)
         (login_id res) (b_world (snd r))
       = (Ok "code-1", b_world (snd r))
    /\ b_calls (snd r) = [GetToken "code-1"; UserinfoGet "code-1"]
    /\ sent (b_world (snd r)) = [ChannelsListMine "code-1"].
Proof.
  cbv zeta.
  destruct (handleCallback Sample.env PlainGcm.cipher Sample.entropy (Sample.provider None)
              Online.google Sample.jwt Online.cuid Sample.stored "code-1" (Online.backend Sample.world))
    as [r b'] eqn:E.
  assert (exists res, r = Ok res) as [res ->].
  { pose proof E as E'. vm_compute in E'. injection E' as <- _. eauto. }
  exists res. split; [reflexivity|].
  destruct (login_then_access_token Sample.env PlainGcm.cipher Sample.entropy
              (Sample.provider None) Online.google Sample.jwt Online.cuid Sample.stored _ "code-1"
              (Online.backend Sample.world) b' res
              {| tr_access_token := "code-1"; tr_refresh_token := Some "R-code-1";
                 tr_expiry_date := None; tr_scope := None |}
              PlainGcm_laws Sample_key E eq_refl)
    as (H1 & H2 & H3 & _).
  - discriminate.
  - discriminate.
  - cbn [fst snd]. repeat split; assumption.
Defined.

Lemma seal_envelopeOf (env : Env) (C : AesGcm) (keyBuffer iv : list byte) (text : string) :
  usableKey env keyBuffer -> seal env C iv text = Ok (envelopeOf C keyBuffer iv text).
Proof. intros key. rewrite (seal_ok env C keyBuffer key). reflexivity. Qed.

(** X13: the refresh secret a login stores.  When Google sends a refresh
    token, the row holds it.  When it sends none and the user already has a
    row, the refresh secret of that row is kept as it is.  When it sends
    none and the user has no row, the row gets the envelope of the empty
    text, which [decrypt] refuses: from the moment the access token is
    within five minutes of its expiry, [getValidAccessToken] fails for this
    user with "Invalid encrypted text format", without any exchange. *)
Theorem login_refresh_secret (env : Env) (C : AesGcm) (entropy : nat -> byte)
    (P : Provider) (G : Google) (J : JwtLib) (cuid : World -> string)
    (create : World -> Event -> bool)
    (keyBuffer : list byte) (code : string) (b b' : Backend) (res : LoginResult)
    (tokens : TokenResponse) :
  AesGcmLaws C -> usableKey env keyBuffer ->
  handleCallback env C entropy P G J cuid create code b = (Ok res, b') ->
  getToken G (b_calls b) (sent (b_world b)) code = Ok tokens ->
  exists row,
    oAuthToken (b_world b') !! login_id res = Some row
    /\ match truthy (tr_refresh_token tokens), oAuthToken (b_world b) !! login_id res with
       | Some rt, _ => decrypt env C (refreshToken row) = Ok rt
       | None, Some old => refreshToken row = refreshToken old
       | None, None =>
           emptySecret env C (refreshToken row)
           /\ forall w, oAuthToken w !! login_id res = Some row ->
                accessTokenExpiresAt row - now w < BUFFER_MS ->
                getValidAccessToken env C entropy P (login_id res) w
                = (Throw (JsError "Invalid encrypted text format"), w)
       end.
Proof.
  intros laws key H Ht.
  destruct (handleCallback_ok env C entropy P G J cuid create keyBuffer key code b b' res H)
    as (tokens' & userInfo & googleId & email & channelId & u & row
        & Ht' & _ & _ & _ & _ & _ & Hres & _ & _ & _ & _ & Hstore & _ & _ & _ & Hr).
  rewrite Ht in Ht'. injection Ht' as <-.
  assert (Hid : login_id res = user_id u) by (rewrite Hres; reflexivity).
  rewrite Hid. exists row. split; [rewrite Hstore; apply lookup_insert_eq|].
  destruct (truthy (tr_refresh_token tokens)) as [rt|] eqn:Hrt.
  - destruct Hr as [k ->]. apply decrypt_envelopeOf; try assumption.
    exact (truthy_nonempty _ _ Hrt).
  - destruct (oAuthToken (b_world b) !! user_id u) as [old|]; [exact Hr|].
    destruct Hr as [k Hk].
    assert (Hseal : seal env C (ivAt entropy k) "" = Ok (refreshToken row))
      by (rewrite Hk; apply seal_envelopeOf, key).
    split; [right; eauto|].
    intros w Hrow Hstale.
    rewrite (getValidAccessToken_stale env C entropy P (user_id u) w row Hrow)
      by (apply Z.ltb_lt; exact Hstale).
    apply refreshAccessToken_undecryptable.
    exact (decrypt_seal_empty env C keyBuffer laws key _ _ Hseal).
Qed.

Lemma login_refresh_secret_witness :
  let b := Online.backend Sample.world in
  let r := handleCallback Sample.env PlainGcm.cipher Sample.entropy (Sample.provider None)
             Relogin.google Sample.jwt Online.cuid Sample.stored "code-1" b in
  exists res row,
    fst r = Ok res
    /\ oAuthToken (b_world (snd r)) !! login_id res = Some row
    /\ emptySecret Sample.env PlainGcm.cipher (refreshToken row)
    /\ forall w, oAuthToken w !! login_id res = Some row ->
         accessTokenExpiresAt row - now w < BUFFER_MS ->
         getValidAccessToken Sample.env PlainGcm.cipher Sample.entropy (Sample.provider None)
           (login_id res) w
         = (Throw (JsError "Invalid encrypted text format"), w).
Proof.
  cbv zeta.
  destruct (handleCallback Sample.env PlainGcm.cipher Sample.entropy (Sample.provider None)
              Relogin.google Sample.jwt Online.cuid Sample.stored "code-1" (Online.backend Sample.world))
    as [r b'] eqn:E.
  assert (exists res, r = Ok res /\ login_id res = "u01") as (res & -> & Hid).
  { pose proof E as E'. vm_compute in E'. injection E' as <- _. eexists. split; reflexivity. }
  destruct (login_refresh_secret Sample.env PlainGcm.cipher Sample.entropy
              (Sample.provider None) Relogin.google Sample.jwt Online.cuid Sample.stored _ "code-1"
              (Online.backend Sample.world) b' res
              {| tr_access_token := "code-1"; tr_refresh_token := None;
                 tr_expiry_date := Some 2000000; tr_scope := Some "openid" |}
              PlainGcm_laws Sample_key E eq_refl)
    as (row & Hrow & Hcase).
  rewrite Hid in Hcase. cbn in Hcase.
  exists res, row. split; [reflexivity|]. split; [exact Hrow|]. rewrite Hid. exact Hcase.
Defined.

(** X14: a login that fails before the user is identified writes nothing:
    when the code is refused, when the profile cannot be fetched, and when
    the profile lacks an id or an email (the error then is "Failed to get
    user information from Google"), the tables, the event log and the
    provider traffic are as before; only the OAuth calls made are on
    record. *)
Theorem login_failure_before_identity (env : Env) (C : AesGcm) (entropy : nat -> byte)
    (P : Provider) (G : Google) (J : JwtLib) (cuid : World -> string)
    (create : World -> Event -> bool)
    (code : string) (b : Backend) :
  match getToken G (b_calls b) (sent (b_world b)) code with
  | Throw e =>
      handleCallback env C entropy P G J cuid create code b
      = (Throw e, {| b_world := b_world b; b_calls := b_calls b ++ [GetToken code] |})
  | Ok tokens =>
      (forall e,
         userinfo_get G (b_calls b ++ [GetToken code]) (sent (b_world b))
           (tr_access_token tokens) = Throw e ->
         handleCallback env C entropy P G J cuid create code b
         = (Throw e, {| b_world := b_world b;
                        b_calls := b_calls b ++ [GetToken code;
                                                 UserinfoGet (tr_access_token tokens)] |}))
      /\ (forall userInfo,
            userinfo_get G (b_calls b ++ [GetToken code]) (sent (b_world b))
              (tr_access_token tokens) = Ok userInfo ->
            truthy (gi_id userInfo) = None \/ truthy (gi_email userInfo) = None ->
            handleCallback env C entropy P G J cuid create code b
            = (Throw (JsError "Failed to get user information from Google"),
               {| b_world := b_world b;
                  b_calls := b_calls b ++ [GetToken code;
                                           UserinfoGet (tr_access_token tokens)] |}))
  end.
Proof.
  rewrite handleCallback_steps. cbv zeta.
  destruct (getToken G (b_calls b) (sent (b_world b)) code) as [tokens|e]; [|reflexivity].
  split.
  - intros e ->. rewrite <- app_assoc. reflexivity.
  - intros userInfo -> Hm. rewrite <- app_assoc.
    destruct Hm as [-> | Hm]; [reflexivity|].
    rewrite Hm. destruct (truthy (gi_id userInfo)); reflexivity.
Qed.

Lemma login_failure_before_identity_witness :
  handleCallback Sample.env PlainGcm.cipher Sample.entropy (Sample.provider None)
    Relogin.anonymous Sample.jwt Online.cuid Sample.stored "code-1" (Online.backend Sample.registered)
  = (Throw (JsError "Failed to get user information from Google"),
     {| b_world := Sample.registered;
        b_calls := [GetToken "code-1"; UserinfoGet "code-1"] |}).
Proof.
  pose proof (login_failure_before_identity Sample.env PlainGcm.cipher Sample.entropy
                (Sample.provider None) Relogin.anonymous Sample.jwt Online.cuid Sample.stored "code-1"
                (Online.backend Sample.registered)) as H.
  cbn [getToken Relogin.anonymous Online.google] in H.
  destruct H as [_ H]. apply (H _ eq_refl). right. reflexivity.
Defined.

(** X15: the session token a successful login returns is accepted by
    [authenticate] right away, as Bearer header or as cookie, and identifies
    the user of the login: the id and email returned and the Google id of
    the profile.  [getUserProfile] finds that user, with the channel the
    login reported. *)
Theorem login_session (env : Env) (C : AesGcm) (entropy : nat -> byte)
    (P : Provider) (G : Google) (J : JwtLib) (cuid : World -> string)
    (create : World -> Event -> bool)
    (keyBuffer : list byte) (code : string) (b b' : Backend) (res : LoginResult) :
  usableKey env keyBuffer -> keyedById (b_world b) -> positiveSpans J ->
  handleCallback env C entropy P G J cuid create code b = (Ok res, b') ->
  exists row,
    getUserProfile (login_id res) (b_world b') = (Ok row, b_world b')
    /\ user_id row = login_id res /\ user_email row = login_email res
    /\ user_channelId row = login_channelId res
    /\ forall req,
         bearerToken req = Some (login_token res)
         \/ (noToken (bearerToken req) = true /\ cookie_token req = Some (login_token res)) ->
         authenticate env J req (b_world b')
         = (Ok {| req_id := login_id res; req_email := login_email res;
                  req_googleId := user_googleId row |}, b_world b').
Proof.
  intros key Hk Hpos H.
  destruct (handleCallback_ok env C entropy P G J cuid create keyBuffer key code b b' res H)
    as (tokens & userInfo & googleId & email & channelId & u & row
        & _ & _ & _ & _ & Hup & Hjwt & Hres & _ & _ & _ & _ & _).
  apply user_upsert_stored in Hup as (Hu & _); [|exact Hk].
  cbn [user setUser] in Hu.
  assert (Hid : login_id res = user_id u) by (rewrite Hres; reflexivity).
  assert (Hem : login_email res = user_email u) by (rewrite Hres; reflexivity).
  assert (Hch : login_channelId res = user_channelId u) by (rewrite Hres; reflexivity).
  exists u. rewrite Hid, Hem, Hch.
  split; [unfold getUserProfile, bind, user_findUnique, ret; rewrite Hu; reflexivity|].
  repeat split.
  intros req Hreq.
  destruct (generateToken_payload env J _ _ _ _ Hjwt)
    as (secret & span & Hs & Hspan & Htok & _).
  rewrite Htok in Hreq.
  rewrite (authenticate_jws env J req _ _ secret (b_world b') Hs Hreq).
  rewrite String.eqb_refl. cbn [negb exp userId req_id].
  specialize (Hpos _ _ Hspan).
  destruct (Z.leb_spec (now (b_world b') / 1000 + span) (now (b_world b') / 1000)); [lia|].
  rewrite Hu. reflexivity.
Qed.

Lemma login_session_witness :
  let b := Online.backend Sample.world in
  let r := handleCallback Sample.env PlainGcm.cipher Sample.entropy (Sample.provider None)
             Online.google Sample.jwt Online.cuid Sample.stored "code-1" b in
  exists res row,
    fst r = Ok res
    /\ getUserProfile (login_id res) (b_world (snd r)) = (Ok row, b_world (snd r))
    /\ authenticate Sample.env Sample.jwt
         {| authorization := None; cookie_token := Some (login_token res) |}
         (b_world (snd r))
       = (Ok {| req_id := login_id res; req_email := login_email res;
                req_googleId := user_googleId row |}, b_world (snd r)).
Proof.
  cbv zeta.
  destruct (handleCallback Sample.env PlainGcm.cipher Sample.entropy (Sample.provider None)
              Online.google Sample.jwt Online.cuid Sample.stored "code-1" (Online.backend Sample.world))
    as [r b'] eqn:E.
  assert (exists res, r = Ok res) as (res & ->).
  { pose proof E as E'. vm_compute in E'. injection E' as <- _. eexists. reflexivity. }
  destruct (login_session Sample.env PlainGcm.cipher Sample.entropy
              (Sample.provider None) Online.google Sample.jwt Online.cuid Sample.stored _ "code-1"
              (Online.backend Sample.world) b' res Sample_key)
    as (row & Hp & _ & _ & _ & Hauth).
  - intros k u Hku. cbn in Hku. rewrite lookup_empty in Hku. discriminate.
  - intros s span. cbn. destruct (String.eqb s "7d"); [intros [= <-]; lia | discriminate].
  - exact E.
  - exists res, row. split; [reflexivity|]. split; [exact Hp|].
    apply Hauth. right. split; reflexivity.
Defined.

(** X16: the session token is made last.  Without JWT_SECRET no login
    succeeds.  With a usable ENCRYPTION_KEY, when the code is accepted, the
    profile is complete and the user row can be written, the login fails
    with "JWT_SECRET not configured" only after it has stored the user's
    credentials and gone through the logging of the "login" event, whose
    row is in the table when the database accepted it. *)
Theorem login_without_session_secret (env : Env) (C : AesGcm) (entropy : nat -> byte)
    (P : Provider) (G : Google) (J : JwtLib) (cuid : World -> string)
    (create : World -> Event -> bool)
    (keyBuffer : list byte) (code : string) (b : Backend)
    (tokens : TokenResponse) (userInfo : GoogleUserInfo) (googleId email : string) :
  truthy (JWT_SECRET env) = None ->
  (forall res b', handleCallback env C entropy P G J cuid create code b <> (Ok res, b'))
  /\ (usableKey env keyBuffer ->
      getToken G (b_calls b) (sent (b_world b)) code = Ok tokens ->
      userinfo_get G (b_calls b ++ [GetToken code]) (sent (b_world b))
        (tr_access_token tokens) = Ok userInfo ->
      truthy (gi_id userInfo) = Some googleId ->
      truthy (gi_email userInfo) = Some email ->
      (forall channelId,
         isOk (fst (user_upsert cuid googleId email channelId
                      (setSent (sent (b_world b) ++ [ChannelsListMine (tr_access_token tokens)])
                               (b_world b)))) = true) ->
      exists b' uid row,
        handleCallback env C entropy P G J cuid create code b
        = (Throw (JsError "JWT_SECRET not configured"), b')
        /\ oAuthToken (b_world b') !! uid = Some row
        /\ (exists k, accessToken row
                      = envelopeOf C keyBuffer (ivAt entropy k) (tr_access_token tokens))
        /\ eventLog (b_world b')
           = eventLog (b_world b)
             ++ inserted create (setEventLog (eventLog (b_world b)) (b_world b'))
                  {| eventType := "login"; event_userId := Some uid;
                     event_timestamp := now (b_world b) |}).
Proof.
  intros Hs. split.
  - intros res b' H. rewrite handleCallback_steps in H. cbv zeta in H.
    unfold generateToken in H. rewrite Hs in H. unfold throw in H.
    repeat match type of H with
           | context [match ?x with _ => _ end] => destruct x
           end; discriminate.
  - intros key Ht Hi Hid Hem Hup.
    rewrite handleCallback_steps. cbv zeta. rewrite Ht, Hi, Hid, Hem.
    destruct (lookupChannel_spec P (tr_access_token tokens) (b_world b)) as [channelId ->].
    specialize (Hup channelId).
    set (w1 := setSent _ (b_world b)) in *.
    destruct (user_upsert_frame cuid googleId email channelId w1) as [m Hm].
    destruct (user_upsert cuid googleId email channelId w1) as [[u|e] w2]; [|discriminate].
    cbn [snd] in Hm. subst w2.
    destruct (oAuthToken_upsert_spec env C entropy keyBuffer key (user_id u) tokens
                (setUser m w1)) as (n & row & -> & Ha & _).
    unfold generateToken. rewrite Hs. unfold throw.
    match goal with
    | |- context [setEventLog (eventLog ?x ++ inserted create ?x ?r) ?x] =>
        set (w3 := x);
        assert (H3 : eventLog w3 = eventLog (b_world b)) by reflexivity;
        assert (Hn3 : now w3 = now (b_world b)) by reflexivity;
        assert (Ho3 : oAuthToken w3 !! user_id u = Some row)
          by (cbn [w3 oAuthToken setDrawn setOAuthToken]; apply lookup_insert_eq)
    end.
    eexists _, (user_id u), row. split; [reflexivity|].
    cbn [b_world]. rewrite <- H3 at 2. rewrite setEventLog_restore.
    cbn [oAuthToken eventLog setEventLog]. rewrite H3, Hn3.
    split; [exact Ho3|]. split; [exact Ha|]. reflexivity.
Qed.

Lemma login_without_session_secret_witness :
  exists b' uid row,
    handleCallback
      {| ENCRYPTION_KEY := ENCRYPTION_KEY Sample.env; JWT_SECRET := None;
         JWT_EXPIRES_IN := None |}
      PlainGcm.cipher Sample.entropy (Sample.provider None) Online.google Sample.jwt
      Online.cuid Sample.stored "code-1" (Online.backend Sample.world)
    = (Throw (JsError "JWT_SECRET not configured"), b')
    /\ oAuthToken (b_world b') !! uid = Some row
    /\ (exists k, accessToken row
                  = envelopeOf PlainGcm.cipher
                      (Buffer.fromHex
                         "000102030405060708090a0b0c0d0e0f101112131415161718191a1b1c1d1e1f")
                      (ivAt Sample.entropy k) "code-1")
    /\ eventLog (b_world b')
       = [{| eventType := "login"; event_userId := Some uid; event_timestamp := 1000000 |}].
Proof.
  destruct (login_without_session_secret
              {| ENCRYPTION_KEY := ENCRYPTION_KEY Sample.env; JWT_SECRET := None;
                 JWT_EXPIRES_IN := None |}
              PlainGcm.cipher Sample.entropy (Sample.provider None) Online.google Sample.jwt
              Online.cuid Sample.stored
              (Buffer.fromHex
                 "000102030405060708090a0b0c0d0e0f101112131415161718191a1b1c1d1e1f")
              "code-1" (Online.backend Sample.world)
              {| tr_access_token := "code-1"; tr_refresh_token := Some "R-code-1";
                 tr_expiry_date := None; tr_scope := None |}
              {| gi_id := Some "g-1"; gi_email := Some "alice@example.org";
                 gi_name := Some "Alice"; gi_picture := None |}
              "g-1" "alice@example.org") as [_ H].
  - reflexivity.
  - destruct H as (b' & uid & row & H1 & H2 & H3 & H4);
      [split; reflexivity | reflexivity.. |].
    exists b', uid, row. split; [exact H1|]. split; [exact H2|]. split; [exact H3|].
    exact H4.
Defined.

Lemma ignoresEventLog_bind {A B} (c : M A) (k : A -> M B) :
  ignoresEventLog c -> (forall a, ignoresEventLog (k a)) -> ignoresEventLog (bind c k).
Proof.
  intros Hc Hk l w. unfold bind. rewrite Hc.
  destruct (c w) as [[a|e] w1]; cbn [fst snd]; [apply Hk | reflexivity].
Qed.

Lemma ignoresEventLog_pure {A} (r : result A) : ignoresEventLog (fun w => (r, w)).
Proof. intros l w. reflexivity. Qed.

Section EventLogIndependence.

Variable env : Env.
Variable C : AesGcm.
Variable entropy : nat -> byte.
Variable P : Provider.

Lemma encrypt_ignoresEventLog (text : string) : ignoresEventLog (encrypt env C entropy text).
Proof.
  intros l w. unfold encrypt. destruct (loadKey env); [|reflexivity].
  unfold bind, randomBytes, lift. reflexivity.
Qed.

Lemma updateData_ignoresEventLog (credentials : Credentials) (a : string) :
  ignoresEventLog (updateData env C entropy credentials a).
Proof.
  unfold updateData.
  apply ignoresEventLog_bind; [apply encrypt_ignoresEventLog|]. intros x.
  apply ignoresEventLog_bind.
  { destruct (truthyZ (expiry_date credentials)); intros l w; reflexivity. }
  intros z. apply ignoresEventLog_bind; [|intros r; apply ignoresEventLog_pure].
  destruct (truthy (refresh_token credentials)); [|apply ignoresEventLog_pure].
  apply ignoresEventLog_bind; [apply encrypt_ignoresEventLog|].
  intros y. apply ignoresEventLog_pure.
Qed.

(** The event log has no part in obtaining an access token. *)
Lemma getValidAccessToken_ignoresEventLog (userId : string) :
  ignoresEventLog (getValidAccessToken env C entropy P userId).
Proof.
  unfold getValidAccessToken.
  apply ignoresEventLog_bind; [intros l w; reflexivity|].
  intros [tokenRecord|]; [|apply ignoresEventLog_pure].
  apply ignoresEventLog_bind; [intros l w; reflexivity|]. intros t.
  destruct (accessTokenExpiresAt tokenRecord - t <? BUFFER_MS); [|apply ignoresEventLog_pure].
  unfold refreshAccessToken.
  apply ignoresEventLog_bind; [apply ignoresEventLog_pure|]. intros rt.
  apply ignoresEventLog_bind.
  { intros l w. unfold oauth2Client_refreshAccessToken.
    destruct (truthy (Some rt)); reflexivity. }
  intros credentials.
  destruct (truthy (access_token credentials)) as [a|]; [|apply ignoresEventLog_pure].
  apply ignoresEventLog_bind; [apply updateData_ignoresEventLog|]. intros d.
  apply ignoresEventLog_bind; [|intros; apply ignoresEventLog_pure].
  intros l w. unfold oAuthToken_update. cbn [oAuthToken setEventLog].
  destruct (oAuthToken w !! userId); reflexivity.
Qed.

End EventLogIndependence.

(** X17: [logout] always reports success, and it removes nothing: the
    credential row and the user row stay, so the session token of the user
    is still accepted and [getValidAccessToken] still returns what it
    returned before.  When the user has a row whose access token decrypts,
    the one call made is the revocation of that token, whatever Google
    answers to it, and the "logout" row is then offered to the event log;
    without a credential row only that happens.  The event log gains the
    row when the database accepts it and nothing when it rejects it.  With
    a credential row that does not decrypt nothing happens at all. *)
Theorem logout_keeps_credentials (env : Env) (C : AesGcm) (entropy : nat -> byte)
    (P : Provider) (G : Google) (J : JwtLib) (create : World -> Event -> bool)
    (userId : string) (b : Backend) :
  let r := logout env C G create userId b in
  fst r = Ok tt
  /\ oAuthToken (b_world (snd r)) = oAuthToken (b_world b)
  /\ user (b_world (snd r)) = user (b_world b)
  /\ (forall req,
        fst (authenticate env J req (b_world (snd r)))
        = fst (authenticate env J req (b_world b)))
  /\ (forall uid,
        fst (getValidAccessToken env C entropy P uid (b_world (snd r)))
        = fst (getValidAccessToken env C entropy P uid (b_world b)))
  /\ match oAuthToken (b_world b) !! userId with
     | Some row =>
         match decrypt env C (accessToken row) with
         | Ok a =>
             b_calls (snd r) = b_calls b ++ [RevokeToken a]
             /\ eventLog (b_world (snd r))
                = eventLog (b_world b) ++ inserted create (b_world b)
                                          {| eventType := "logout";
                                             event_userId := Some userId;
                                             event_timestamp := now (b_world b) |}
         | Throw _ => snd r = b
         end
     | None =>
         b_calls (snd r) = b_calls b
         /\ eventLog (b_world (snd r))
            = eventLog (b_world b) ++ inserted create (b_world b)
                                      {| eventType := "logout";
                                         event_userId := Some userId;
                                         event_timestamp := now (b_world b) |}
     end.
Proof.
  cbv zeta.
  assert (Hcases :
    exists l calls,
      logout env C G create userId b
      = (Ok tt, {| b_world := setEventLog l (b_world b); b_calls := calls |})
      /\ match oAuthToken (b_world b) !! userId with
         | Some row =>
             match decrypt env C (accessToken row) with
             | Ok a =>
                 calls = b_calls b ++ [RevokeToken a]
                 /\ l = eventLog (b_world b) ++ inserted create (b_world b)
                                                {| eventType := "logout";
                                                   event_userId := Some userId;
                                                   event_timestamp := now (b_world b) |}
             | Throw _ => calls = b_calls b /\ l = eventLog (b_world b)
             end
         | None =>
             calls = b_calls b
             /\ l = eventLog (b_world b) ++ inserted create (b_world b)
                                            {| eventType := "logout";
                                               event_userId := Some userId;
                                               event_timestamp := now (b_world b) |}
         end).
  { unfold logout, tryCatchB. unfold bindB at 1. unfold bindB at 1.
    unfold inWorld at 1, oAuthToken_findUnique.
    destruct (oAuthToken (b_world b) !! userId) as [row|].
    - unfold bindB at 1, inWorld at 1, lift. cbn [b_world b_calls].
      destruct (decrypt env C (accessToken row)) as [a|e].
      + unfold tryCatchB, oauth2Client_revokeToken, inWorld, EventService_log, retB.
        cbn [b_world b_calls].
        destruct (revokeToken G _ _ a) as [[]|e]; eexists _, _; split; try reflexivity;
          split; reflexivity.
      + unfold retB. exists (eventLog (b_world b)), (b_calls b).
        split; [|split; reflexivity]. destruct b as [[] ?]; reflexivity.
    - unfold retB, inWorld, EventService_log. cbn [b_world b_calls].
      eexists _, _; split; [reflexivity|]. split; reflexivity. }
  destruct Hcases as (l & calls & -> & Hc). cbn [fst snd b_world b_calls].
  split; [reflexivity|]. split; [reflexivity|]. split; [reflexivity|].
  split.
  { intros req. rewrite !authenticate_cases. cbn [now user setEventLog].
    repeat match goal with
           | |- context [match ?t with _ => _ end] =>
               lazymatch t with
               | context [match _ with _ => _ end] => fail
               | _ => destruct t
               end
           end; reflexivity. }
  split.
  { intros uid. rewrite getValidAccessToken_ignoresEventLog. reflexivity. }
  destruct (oAuthToken (b_world b) !! userId) as [row|].
  - destruct (decrypt env C (accessToken row)) as [a|e].
    + destruct Hc as [-> ->]. cbn [eventLog setEventLog]. split; reflexivity.
    + destruct Hc as [-> ->]. destruct b as [[] ?]; reflexivity.
  - destruct Hc as [-> ->]. cbn [eventLog setEventLog]. split; reflexivity.
Qed.

Lemma usersWhere_nil (f : User -> bool) (w : World) (k : string) (u : User) :
  usersWhere f w = [] -> user w !! k = Some u -> f u = false.
Proof.
  intros Hn Hu. destruct (f u) eqn:Hf; [|reflexivity]. exfalso.
  assert (Hin : In (k, u) (usersWhere f w)).
  { unfold usersWhere. apply filter_In. split; [|exact Hf].
    apply list_elem_of_In, elem_of_map_to_list, Hu. }
  rewrite Hn in Hin. exact Hin.
Qed.

(** The row [user_upsert] writes: the row of the Google account when there
    is one, a new row under a new id otherwise. *)
Lemma user_upsert_rows (cuid : World -> string) (googleId email : string)
    (channelId : option string) (w w' : World) (u : User) :
  keyedById w ->
  user_upsert cuid googleId email channelId w = (Ok u, w') ->
  user w' = <[user_id u := u]> (user w)
  /\ ((exists old, user w !! user_id u = Some old /\ user_googleId old = googleId)
      \/ (user w !! user_id u = None
          /\ forall k old, user w !! k = Some old -> user_googleId old <> googleId)).
Proof.
  intros Hk. unfold user_upsert.
  destruct (usersWhere (fun u => String.eqb (user_googleId u) googleId) w)
    as [|[k row] rest] eqn:Hf.
  - match goal with |- context [usersWhere ?f w] => destruct (usersWhere f w) end;
      [|intros [=]].
    destruct (user w !! cuid w) eqn:Hc; [intros [=]|].
    intros H. injection H as <- <-. cbn [user setUser user_id].
    split; [reflexivity|]. right. split; [exact Hc|].
    intros k old Hold Hg.
    pose proof (usersWhere_nil _ w k old Hf Hold) as Hfalse. cbn beta in Hfalse.
    apply String.eqb_neq in Hfalse. contradiction.
  - match goal with |- context [usersWhere ?f w] => destruct (usersWhere f w) end;
      [|intros [=]].
    intros H. injection H as <- <-. cbn [user setUser user_id].
    assert (Hin : In (k, row) (usersWhere (fun u => String.eqb (user_googleId u) googleId) w))
      by (rewrite Hf; left; reflexivity).
    unfold usersWhere in Hin. apply filter_In in Hin as [Hin Hg]. cbn [snd] in Hg.
    apply list_elem_of_In, elem_of_map_to_list in Hin.
    rewrite (Hk k row Hin). split; [reflexivity|]. left.
    exists row. split; [exact Hin | apply String.eqb_eq, Hg].
Qed.

(** X18: a login that succeeds writes one user row and one credential row,
    both under the id it returns, and leaves the rows of every other id as
    they are.  When the table already has a row for the Google account of
    the profile, the id returned is the id of such a row, so that a second
    login updates the user instead of adding one; otherwise the id is new. *)
Theorem login_rows (env : Env) (C : AesGcm) (entropy : nat -> byte)
    (P : Provider) (G : Google) (J : JwtLib) (cuid : World -> string)
    (create : World -> Event -> bool)
    (keyBuffer : list byte) (code : string) (b b' : Backend) (res : LoginResult) :
  usableKey env keyBuffer -> keyedById (b_world b) ->
  handleCallback env C entropy P G J cuid create code b = (Ok res, b') ->
  exists row,
    user (b_world b') = <[login_id res := row]> (user (b_world b))
    /\ user_id row = login_id res
    /\ (forall k, k <> login_id res ->
          user (b_world b') !! k = user (b_world b) !! k
          /\ oAuthToken (b_world b') !! k = oAuthToken (b_world b) !! k)
    /\ keyedById (b_world b')
    /\ ((exists old, user (b_world b) !! login_id res = Some old
                     /\ user_googleId old = user_googleId row)
        \/ (user (b_world b) !! login_id res = None
            /\ forall k old, user (b_world b) !! k = Some old ->
                 user_googleId old <> user_googleId row)).
Proof.
  intros key Hk H.
  destruct (handleCallback_ok env C entropy P G J cuid create keyBuffer key code b b' res H)
    as (tokens & userInfo & googleId & email & channelId & u & row
        & _ & _ & _ & _ & Hup & _ & Hres & _ & _ & _ & _ & Hstore & _).
  assert (Hid : login_id res = user_id u) by (rewrite Hres; reflexivity).
  pose proof Hup as Hup'.
  apply user_upsert_stored in Hup' as (_ & Hg & _); [|exact Hk].
  apply user_upsert_rows in Hup as [Hrows Hcase]; [|exact Hk].
  cbn [user setUser setSent] in Hrows, Hcase.
  exists u. rewrite Hid, Hg. split; [exact Hrows|]. split; [reflexivity|].
  split; [|split; [|exact Hcase]].
  - intros k Hne. rewrite Hrows, Hstore.
    rewrite !lookup_insert_ne by congruence. split; reflexivity.
  - intros k u' Hu'. rewrite Hrows in Hu'.
    destruct (decide (user_id u = k)) as [<-|Hne].
    + rewrite lookup_insert_eq in Hu'. injection Hu' as <-. reflexivity.
    + rewrite lookup_insert_ne in Hu' by exact Hne. exact (Hk k u' Hu').
Qed.

Lemma login_rows_witness :
  let b := Online.backend Sample.registered in
  let r := handleCallback Sample.env PlainGcm.cipher Sample.entropy (Sample.provider None)
             Online.google Sample.jwt Online.cuid Sample.stored "code-2" b in
  exists res row,
    fst r = Ok res
    /\ login_id res = "u1"
    /\ user (b_world (snd r)) = <[login_id res := row]> (user Sample.registered)
    /\ keyedById (b_world (snd r)).
Proof.
  cbv zeta.
  destruct (handleCallback Sample.env PlainGcm.cipher Sample.entropy (Sample.provider None)
              Online.google Sample.jwt Online.cuid Sample.stored "code-2"
              (Online.backend Sample.registered)) as [r b'] eqn:E.
  assert (exists res, r = Ok res /\ login_id res = "u1") as (res & -> & Hid).
  { pose proof E as E'. vm_compute in E'. injection E' as <- _. eexists. split; reflexivity. }
  destruct (login_rows Sample.env PlainGcm.cipher Sample.entropy
              (Sample.provider None) Online.google Sample.jwt Online.cuid Sample.stored _ "code-2"
              (Online.backend Sample.registered) b' res Sample_key)
    as (row & Hrows & _ & _ & Hkeyed & _).
  - intros k u Hku. cbn [Online.backend b_world Sample.registered user] in Hku.
    apply lookup_singleton_Some in Hku as [<- <-]. reflexivity.
  - exact E.
  - exists res, row. split; [reflexivity|]. split; [exact Hid|].
    split; [exact Hrows | exact Hkeyed].
Defined.

(** ** Access tokens, once more *)

Lemma exchanges_setSent (w : World) (rt : string) :
  exchanges (setSent (sent w ++ [RefreshAccessToken rt]) w) = S (exchanges w).
Proof.
  unfold exchanges. cbn [sent setSent].
  rewrite filter_app, length_app, filter_cons_True by reflexivity.
  rewrite filter_nil. cbn [length]. lia.
Qed.

(** X19: what [getValidAccessToken] can touch.  It writes no credential
    row but the caller's, no user row and no event, and it makes one
    exchange at most.  When it fails, the credential store is as it was
    before the call. *)
Theorem token_work_is_local (env : Env) (C : AesGcm) (entropy : nat -> byte)
    (P : Provider) (userId : string) (w : World) :
  let r := getValidAccessToken env C entropy P userId w in
  (forall k, k <> userId -> oAuthToken (snd r) !! k = oAuthToken w !! k)
  /\ user (snd r) = user w
  /\ eventLog (snd r) = eventLog w
  /\ (exchanges (snd r) <= S (exchanges w))%nat
  /\ (forall e, fst r = Throw e -> oAuthToken (snd r) = oAuthToken w).
Proof.
  cbv zeta.
  pose proof (getValidAccessToken_tokenWork env C entropy P userId w) as (Hu & He & _ & _).
  assert (Hrest :
    (forall k, k <> userId ->
       oAuthToken (snd (getValidAccessToken env C entropy P userId w)) !! k = oAuthToken w !! k)
    /\ (exchanges (snd (getValidAccessToken env C entropy P userId w)) <= S (exchanges w))%nat
    /\ (forall e, fst (getValidAccessToken env C entropy P userId w) = Throw e ->
          oAuthToken (snd (getValidAccessToken env C entropy P userId w)) = oAuthToken w)).
  { clear Hu He.
    unfold getValidAccessToken, bind, oAuthToken_findUnique, Date_now, throw, lift.
    destruct (oAuthToken w !! userId) as [tokenRecord|] eqn:Hrow;
      [|cbn [fst snd]; split; [intros; reflexivity | split; [lia | intros; reflexivity]]].
    destruct (accessTokenExpiresAt tokenRecord - now w <? BUFFER_MS);
      [|cbn [fst snd]; split; [intros; reflexivity | split; [lia | intros; reflexivity]]].
    unfold refreshAccessToken, lift, bind, throw.
    destruct (decrypt env C (refreshToken tokenRecord)) as [rt|e];
      [|cbn [fst snd]; split; [intros; reflexivity | split; [lia | intros; reflexivity]]].
    destruct (oauth2Client_refreshAccessToken_cases P rt w) as [[_ ->]|[_ ->]];
      [cbn [fst snd]; split; [intros; reflexivity | split; [lia | intros; reflexivity]]|].
    pose proof (exchanges_setSent w rt) as Hex.
    destruct (token_endpoint P (sent w) rt) as [tokens|e];
      [|cbn [fst snd]; split; [intros; reflexivity | split; [lia | intros; reflexivity]]].
    set (credentials := withRefreshToken (Some rt) tokens).
    destruct (truthy (access_token credentials)) as [a|];
      [|cbn [fst snd]; split; [intros; reflexivity | split; [lia | intros; reflexivity]]].
    destruct (updateData_setDrawn env C entropy credentials a
                (setSent (sent w ++ [RefreshAccessToken rt]) w)) as [n Hn].
    destruct (updateData env C entropy credentials a _) as [[d|e] w1]; cbn [snd] in Hn;
      subst w1.
    - unfold oAuthToken_update, ret. cbn [oAuthToken setDrawn setSent]. rewrite Hrow.
      cbn [fst snd oAuthToken setOAuthToken]. split; [|split].
      + intros k Hne. apply lookup_insert_ne. congruence.
      + unfold exchanges in *. cbn [sent setOAuthToken setDrawn setSent] in *. lia.
      + discriminate.
    - cbn [fst snd oAuthToken setDrawn setSent].
      split; [intros; reflexivity | split; [|intros; reflexivity]].
      unfold exchanges in *. cbn [sent setDrawn setSent] in *. lia. }
  destruct Hrest as (H1 & H2 & H3). repeat split; assumption.
Qed.

(** X20: callers that come one after the other share one exchange.  When a
    call finds the access token within five minutes of its expiry and the
    exchange yields a token that is good for longer than that, the call
    returns the new token, and a second call made right after it returns the
    same token without any exchange and without touching anything.  The
    exchange is made when the stored refresh secret holds a refresh token;
    when it opens to the empty text the client sends nothing and the call
    fails with "No refresh token is set.". *)
Theorem refresh_then_fresh (env : Env) (C : AesGcm) (entropy : nat -> byte)
    (P : Provider) (userId : string) (w : World) (tokenRecord : OAuthToken)
    (rt : string) (credentials : Credentials) (a : string) :
  AesGcmLaws C ->
  oAuthToken w !! userId = Some tokenRecord ->
  accessTokenExpiresAt tokenRecord - now w < BUFFER_MS ->
  decrypt env C (refreshToken tokenRecord) = Ok rt ->
  token_endpoint P (sent w) rt = Ok credentials ->
  truthy (access_token credentials) = Some a ->
  (forall d, truthyZ (expiry_date credentials) = Some d -> now w + BUFFER_MS <= d) ->
  if String.eqb rt ""
  then getValidAccessToken env C entropy P userId w
       = (Throw (JsError "No refresh token is set."), w)
  else exists w',
         getValidAccessToken env C entropy P userId w = (Ok a, w')
         /\ sent w' = sent w ++ [RefreshAccessToken rt]
         /\ getValidAccessToken env C entropy P userId w' = (Ok a, w').
Proof.
  intros laws Hrow Hstale Hdec Hend Ha Hfresh.
  destruct (decrypt_Ok_usableKey env C _ rt Hdec) as [keyBuffer key].
  rewrite (getValidAccessToken_stale env C entropy P userId w tokenRecord Hrow)
    by (apply Z.ltb_lt; exact Hstale).
  destruct (String.eqb_spec rt "") as [->|Hrt].
  { apply refreshAccessToken_no_refresh_token, Hdec. }
  unfold refreshAccessToken, lift. unfold bind at 1. rewrite Hdec.
  unfold bind at 1. rewrite (oauth2Client_refreshAccessToken_spec P rt w Hrt), Hend.
  unfold withRefreshToken. cbn [access_token]. rewrite Ha.
  unfold bind at 1. rewrite (updateData_spec env C entropy keyBuffer key).
  cbn [refresh_token expiry_date]. rewrite (truthy_of_nonempty rt Hrt).
  unfold bind, oAuthToken_update, ret. cbn [oAuthToken setDrawn setSent].
  rewrite Hrow. eexists. split; [reflexivity|].
  cbn [sent setOAuthToken setDrawn setSent]. split; [reflexivity|].
  match goal with
  | |- getValidAccessToken _ _ _ _ _ ?w1 = _ =>
      rewrite (getValidAccessToken_fresh env C entropy P userId w1
                 (applyUpdate
                    {| data_accessToken :=
                         envelopeOf C keyBuffer
                           (ivAt entropy (drawn (setSent (sent w ++ [RefreshAccessToken rt]) w))) a;
                       data_accessTokenExpiresAt :=
                         default (now (setSent (sent w ++ [RefreshAccessToken rt]) w) + 3600000)
                           (truthyZ (expiry_date credentials));
                       data_refreshToken :=
                         Some (envelopeOf C keyBuffer
                                 (ivAt entropy
                                    (drawn (setSent (sent w ++ [RefreshAccessToken rt]) w)
                                     + IV_LENGTH)) rt) |} tokenRecord))
  end.
  - cbn [applyUpdate accessToken data_accessToken].
    rewrite (decrypt_envelopeOf env C keyBuffer entropy _ a laws key
               (truthy_nonempty _ _ Ha)).
    reflexivity.
  - cbn [oAuthToken setOAuthToken setDrawn setSent]. apply lookup_insert_eq.
  - cbn [applyUpdate accessTokenExpiresAt data_accessTokenExpiresAt now setOAuthToken
         setDrawn setSent].
    apply Z.ltb_ge.
    destruct (truthyZ (expiry_date credentials)) as [d|] eqn:E; cbv [default from_option id].
    + specialize (Hfresh d eq_refl). lia.
    + unfold BUFFER_MS. lia.
Qed.

Lemma refresh_then_fresh_witness :
  exists w',
    getValidAccessToken Sample.env PlainGcm.cipher Sample.entropy Sample.rotating "u1"
      (Sample.worldWith "R1" 0) = (Ok "A2", w')
    /\ sent w' = sent (Sample.worldWith "R1" 0) ++ [RefreshAccessToken "R1"]
    /\ getValidAccessToken Sample.env PlainGcm.cipher Sample.entropy Sample.rotating "u1" w'
       = (Ok "A2", w').
Proof.
  eapply (refresh_then_fresh Sample.env PlainGcm.cipher Sample.entropy Sample.rotating "u1"
            (Sample.worldWith "R1" 0) _ "R1"
            {| access_token := Some "A2"; refresh_token := Some "R2";
               expiry_date := Some 5000000 |} "A2" PlainGcm_laws).
  - reflexivity.
  - vm_compute. reflexivity.
  - vm_compute. reflexivity.
  - reflexivity.
  - reflexivity.
  - intros d [= <-]. vm_compute. discriminate.
Defined.

(** A stored refresh secret that opens to the empty text (the envelope of
    the empty text with two characters that are no hex digits as its third
    field): the client has no refresh token, nothing is sent and the call
    fails. *)
Example getValidAccessToken_empty_refresh_token :
  let w := {| oAuthToken :=
                {[ "u1" := {| accessToken := Sample.sealed 100 "A1";
                              refreshToken := Sample.sealed 200 "" +:+ "zz";
                              accessTokenExpiresAt := 1000000; scope := "youtube" |} ]};
              user := ∅; eventLog := []; now := 1000000; drawn := 0; sent := [] |} in
  decrypt Sample.env PlainGcm.cipher (Sample.sealed 200 "" +:+ "zz") = Ok ""
  /\ fst (getValidAccessToken Sample.env PlainGcm.cipher Sample.entropy Sample.rotating "u1" w)
     = Throw (JsError "No refresh token is set.")
  /\ sent (snd (getValidAccessToken Sample.env PlainGcm.cipher Sample.entropy Sample.rotating
                  "u1" w)) = [].
Proof. vm_compute. repeat split; reflexivity. Qed.

(** ** The video id of a pasted text *)

Lemma takeId_spec (n : nat) (s g : string) :
  takeId n s = Some g ->
  String.length g = n /\ allIdChars g = true /\ exists rest, s = g +:+ rest.
Proof.
  revert s g; induction n as [|n IH]; intros s g.
  - intros [= <-]. split; [reflexivity|]. split; [reflexivity|]. exists s. reflexivity.
  - cbn [takeId]. destruct s as [|c r]; [discriminate|].
    destruct (isIdChar c) eqn:Hc; [|discriminate].
    destruct (takeId n r) as [x|] eqn:Hx; [|discriminate].
    intros [= <-]. destruct (IH r x Hx) as (Hl & Ha & rest & ->).
    cbn [String.length allIdChars]. rewrite Hc, Ha, Hl.
    split; [reflexivity|]. split; [reflexivity|]. exists rest. reflexivity.
Qed.

Lemma takeId_append (g rest : string) :
  allIdChars g = true -> takeId (String.length g) (g +:+ rest) = Some g.
Proof.
  induction g as [|c g IH]; [reflexivity|].
  cbn [allIdChars String.length]. intros H. apply andb_true_iff in H as [Hc Hg].
  rewrite append_String. cbn [takeId]. rewrite Hc, (IH Hg). reflexivity.
Qed.

Lemma startsWith_spec (p s r : string) : startsWith p s = Some r -> s = p +:+ r.
Proof.
  revert s; induction p as [|a p IH]; intros s.
  - intros [= ->]. reflexivity.
  - cbn [startsWith]. destruct s as [|c s]; [discriminate|].
    destruct (Ascii.eqb a c) eqn:E; [|discriminate].
    apply Ascii.eqb_eq in E as ->. intros H. rewrite (IH s H). reflexivity.
Qed.

Lemma startsWith_append (p r : string) : startsWith p (p +:+ r) = Some r.
Proof.
  induction p as [|a p IH]; [reflexivity|].
  rewrite append_String. cbn [startsWith]. rewrite Ascii.eqb_refl. exact IH.
Qed.

Lemma allIdChars_append (a b : string) :
  allIdChars (a +:+ b) = allIdChars a && allIdChars b.
Proof.
  induction a as [|c a IH]; [reflexivity|].
  rewrite append_String. cbn [allIdChars]. rewrite IH. apply andb_assoc.
Qed.

(** A match of the first pattern at the start of [s]: one of the three
    markers, then the eleven characters of the group. *)
Lemma matchHere_spec (s g : string) :
  matchHere s = Some g ->
  String.length g = 11%nat /\ allIdChars g = true
  /\ exists marker rest, In marker urlMarkers /\ s = marker +:+ g +:+ rest.
Proof.
  unfold matchHere.
  assert (Htry : forall marker,
            In marker urlMarkers ->
            match startsWith marker s with
            | Some r => takeId 11 r
            | None => None
            end = Some g ->
            String.length g = 11%nat /\ allIdChars g = true
            /\ exists marker rest, In marker urlMarkers /\ s = marker +:+ g +:+ rest).
  { intros marker Hin H.
    destruct (startsWith marker s) as [r|] eqn:Hs; [|discriminate].
    apply startsWith_spec in Hs as ->.
    destruct (takeId_spec 11 r g H) as (Hl & Ha & rest & ->).
    split; [exact Hl|]. split; [exact Ha|]. exists marker, rest. split; [exact Hin | reflexivity]. }
  destruct (match startsWith "youtube.com/watch?v=" s with
            | Some r => takeId 11 r | None => None end) as [g1|] eqn:H1.
  { intros [= <-]. apply (Htry "youtube.com/watch?v="); [cbn; tauto | exact H1]. }
  destruct (match startsWith "youtu.be/" s with
            | Some r => takeId 11 r | None => None end) as [g2|] eqn:H2.
  { intros [= <-]. apply (Htry "youtu.be/"); [cbn; tauto | exact H2]. }
  intros H3. apply (Htry "youtube.com/embed/"); [cbn; tauto | exact H3].
Qed.

Lemma matchUrl_spec (s g : string) :
  matchUrl s = Some g ->
  String.length g = 11%nat /\ allIdChars g = true
  /\ exists before marker rest,
       In marker urlMarkers /\ s = before +:+ marker +:+ g +:+ rest.
Proof.
  induction s as [|c s IH].
  - cbn [matchUrl]. destruct (matchHere "") as [g0|] eqn:H; [|discriminate].
    intros [= <-]. destruct (matchHere_spec _ _ H) as (Hl & Ha & marker & rest & Hin & Hs).
    split; [exact Hl|]. split; [exact Ha|]. exists "", marker, rest. split; assumption.
  - cbn [matchUrl]. destruct (matchHere (String c s)) as [g0|] eqn:H.
    + intros [= <-]. destruct (matchHere_spec _ _ H) as (Hl & Ha & marker & rest & Hin & Hs).
      split; [exact Hl|]. split; [exact Ha|]. exists "", marker, rest. split; assumption.
    + intros H'. destruct (IH H') as (Hl & Ha & before & marker & rest & Hin & ->).
      split; [exact Hl|]. split; [exact Ha|].
      exists (String c before), marker, rest. split; [exact Hin | reflexivity].
Qed.

(** No marker starts a text made of id characters: each marker has a dot
    before its ninth character. *)
Lemma matchHere_idChars (s : string) : allIdChars s = true -> matchHere s = None.
Proof.
  intros H. destruct (matchHere s) as [g|] eqn:E; [|reflexivity].
  destruct (matchHere_spec s g E) as (_ & _ & marker & rest & Hin & ->).
  rewrite allIdChars_append in H. apply andb_true_iff in H as [H _].
  cbn [In urlMarkers] in Hin.
  destruct Hin as [<-|[<-|[<-|[]]]]; vm_compute in H; discriminate.
Qed.

Lemma matchUrl_idChars (s : string) : allIdChars s = true -> matchUrl s = None.
Proof.
  induction s as [|c s IH]; intros H.
  - reflexivity.
  - cbn [matchUrl]. rewrite (matchHere_idChars _ H).
    cbn [allIdChars] in H. apply andb_true_iff in H as [_ H]. exact (IH H).
Qed.

Lemma matchBare_spec (s g : string) : matchBare s = Some g -> g = s.
Proof.
  unfold matchBare. destruct (takeId 11 s) as [x|] eqn:H; [|discriminate].
  destruct (Nat.eqb (String.length s) 11) eqn:Hl; [|discriminate].
  intros [= <-]. destruct (takeId_spec 11 s x H) as (Hx & _ & rest & Hs).
  apply Nat.eqb_eq in Hl. rewrite Hs in Hl |- *. rewrite length_append, Hx in Hl.
  destruct rest; [|cbn [String.length] in Hl; lia].
  clear. induction x as [|c x IH]; [reflexivity|]. rewrite append_String, <- IH. reflexivity.
Qed.

(** The second pattern of the loop is of no effect. *)
Lemma extractId_first_pattern (s : string) :
  extractId s = match matchUrl s with Some g => g | None => s end.
Proof.
  unfold extractId. destruct (matchUrl s); [reflexivity|].
  destruct (matchBare s) as [x|] eqn:Hb; [apply (matchBare_spec s x Hb) | reflexivity].
Qed.

(** X21: what [handleSubmit] hands on.  It returns early exactly when the
    trimmed text is empty.  Otherwise the id it passes to
    [fetchVideoDetails] is either the trimmed text itself or the eleven
    characters from [a-zA-Z0-9_-] that follow an occurrence of
    "youtube.com/watch?v=", "youtu.be/" or "youtube.com/embed/" in it (the
    group of the first pattern); the second pattern of the loop never
    changes the result.  Extracting again
    from the id gives the same id. *)
Theorem handleSubmit_id (trim : string -> string) (videoId : string) :
  match handleSubmit trim videoId with
  | None => trim videoId = ""
  | Some id =>
      trim videoId <> ""
      /\ id = match matchUrl (trim videoId) with Some g => g | None => trim videoId end
      /\ (id = trim videoId
          \/ (String.length id = 11%nat /\ allIdChars id = true
              /\ exists before marker rest,
                   In marker urlMarkers
                   /\ trim videoId = before +:+ marker +:+ id +:+ rest))
      /\ extractId id = id
  end.
Proof.
  unfold handleSubmit.
  destruct (String.eqb (trim videoId) "") eqn:He; [apply String.eqb_eq, He|].
  apply String.eqb_neq in He. split; [exact He|].
  set (s := trim videoId). rewrite !extractId_first_pattern.
  destruct (matchUrl s) as [g|] eqn:Hm.
  - destruct (matchUrl_spec s g Hm) as (Hl & Ha & Hex).
    split; [reflexivity|].
    split; [right; split; [exact Hl|]; split; [exact Ha|]; exact Hex|].
    rewrite (matchUrl_idChars g Ha). reflexivity.
  - split; [reflexivity|]. split; [left; reflexivity|]. rewrite Hm. reflexivity.
Qed.

Lemma occurs_matchUrl (before s : string) :
  occurs "y" before = false -> matchUrl (before +:+ s) = matchUrl s.
Proof.
  induction before as [|c before IH]; [reflexivity|].
  cbn [occurs]. intros H. apply orb_false_iff in H as [Hc Hb].
  rewrite append_String. cbn [matchUrl].
  assert (Hh : matchHere (String c (before +:+ s)) = None).
  { unfold matchHere. cbn [startsWith]. rewrite Ascii.eqb_sym in Hc. rewrite Hc.
    reflexivity. }
  rewrite Hh. exact (IH Hb).
Qed.

(** X22: a text that has one of the three markers after a prefix without
    the letter y (such as "https://www." or "https://m."), followed by
    eleven characters from [a-zA-Z0-9_-], yields exactly these eleven
    characters, whatever follows them. *)
Theorem extractId_url (before marker id rest : string) :
  occurs "y" before = false ->
  In marker urlMarkers ->
  String.length id = 11%nat -> allIdChars id = true ->
  extractId (before +:+ marker +:+ id +:+ rest) = id.
Proof.
  intros Hb Hin Hl Ha. unfold extractId.
  rewrite (occurs_matchUrl before _ Hb).
  assert (Ht : takeId 11 (id +:+ rest) = Some id)
    by (rewrite <- Hl; apply takeId_append, Ha).
  assert (Hm : matchHere (marker +:+ id +:+ rest) = Some id).
  { cbn [In urlMarkers] in Hin. destruct Hin as [<-|[<-|[<-|[]]]].
    - unfold matchHere. rewrite startsWith_append, Ht. reflexivity.
    - unfold matchHere. rewrite (startsWith_append "youtu.be/"), Ht. reflexivity.
    - unfold matchHere. rewrite (startsWith_append "youtube.com/embed/"), Ht.
      reflexivity. }
  assert (Hu : matchUrl (marker +:+ id +:+ rest) = Some id).
  { destruct (marker +:+ id +:+ rest); cbn [matchUrl]; rewrite Hm; reflexivity. }
  rewrite Hu. reflexivity.
Qed.

Lemma extractId_url_witness :
  extractId ("https://www." +:+ "youtube.com/watch?v=" +:+ "dQw4w9WgXcQ" +:+ "&t=42s")
  = "dQw4w9WgXcQ".
Proof. apply extractId_url; try reflexivity. cbn. tauto. Defined.

(** ** The session in the browser *)

Section StoreFacts.

Variable Profile : Type.

Lemma responseInterceptor_tokenInStore (status : option Z) (b : Browser Profile) :
  tokenInStore b -> tokenInStore (responseInterceptor status b).
Proof.
  intros H. unfold responseInterceptor. destruct (optZ_eqb status 401); [|exact H].
  left. reflexivity.
Qed.

Lemma responseInterceptor_store (status : option Z) (b : Browser Profile) :
  store (responseInterceptor status b) = store b.
Proof. unfold responseInterceptor. destruct (optZ_eqb status 401); reflexivity. Qed.

Lemma act_tokenInStore (a : Action Profile) (b : Browser Profile) :
  tokenInStore b -> tokenInStore (act a b).
Proof.
  intros H. destruct a as [token|[data|status]|[url|status]|[[]|status]|answer]; cbn [act].
  - right. reflexivity.
  - exact H.
  - left. reflexivity.
  - exact H.
  - apply (responseInterceptor_tokenInStore status) in H.
    unfold login, tokenInStore in *. cbn [snd localStorage_token store st_token]. exact H.
  - left. reflexivity.
  - left. reflexivity.
  - unfold initialize. destruct (truthy (st_token (store b))); [|exact H].
    destruct answer as [data|status]; [exact H | left; reflexivity].
Qed.

Lemma act_loaded (a : Action Profile) (b : Browser Profile) :
  isLoading (store b) = false -> isLoading (store (act a b)) = false.
Proof.
  intros H.
  destruct a as [token|[data|status]|[url|status]|[[]|status]|answer]; cbn [act];
    try exact H;
    try (cbn [snd fetchUser login store_logout store isLoading];
         rewrite responseInterceptor_store; exact H).
  unfold initialize. destruct (truthy (st_token (store b))); reflexivity.
Qed.

Lemma acts_invariant (l : list (Action Profile)) (b : Browser Profile) :
  tokenInStore b -> isLoading (store b) = false ->
  tokenInStore (acts l b) /\ isLoading (store (acts l b)) = false.
Proof.
  revert b. induction l as [|a l IH]; intros b Ht Hl; [split; assumption|].
  cbn [acts fold_left]. apply IH; [apply act_tokenInStore, Ht | apply act_loaded, Hl].
Qed.

Lemma loaded_invariant (localToken : option string) (answer : Answer Profile) :
  tokenInStore (loaded Profile localToken answer)
  /\ isLoading (store (loaded Profile localToken answer)) = false.
Proof.
  unfold loaded, initialize. cbn [store useAuthStore st_token].
  destruct (truthy localToken); [|split; [right|]; reflexivity].
  destruct answer as [data|status]; (split; [|reflexivity]); [right | left]; reflexivity.
Qed.

Lemma requestInterceptor_cleared (b : Browser Profile) :
  localStorage_token b = None -> requestInterceptor b = None.
Proof. unfold requestInterceptor. intros ->. reflexivity. Qed.

End StoreFacts.

(** X23: in the browser, once the [initialize] of the page load has
    completed, and whatever calls of the store then run one after the other
    with whatever outcomes of their requests, [localStorage] holds no token
    other than the one in the store
    (so the Authorization header the request interceptor adds, if any, is
    for the store's token), and [isLoading] stays false.  After a [logout]
    and after a [fetchUser] that is rejected, for whatever reason, the token
    is gone from both, the user is cleared and no header is added. *)
Theorem store_and_localStorage (Profile : Type) (localToken : option string)
    (answer : Answer Profile) (l : list (Action Profile)) :
  let b := acts l (loaded Profile localToken answer) in
  tokenInStore b
  /\ isLoading (store b) = false
  /\ (requestInterceptor b = None
      \/ exists token, st_token (store b) = Some token
                       /\ requestInterceptor b = Some ("Bearer " +:+ token))
  /\ forall a,
       (exists x, a = Logout x) \/ (exists status, a = FetchUser (Rejected status)) ->
       requestInterceptor (act a b) = None
       /\ st_token (store (act a b)) = None
       /\ st_user (store (act a b)) = None
       /\ isAuthenticated (store (act a b)) = false.
Proof.
  cbv zeta.
  destruct (loaded_invariant Profile localToken answer) as [H0 H1].
  destruct (acts_invariant Profile l _ H0 H1) as [Ht Hl].
  set (b := acts l (loaded Profile localToken answer)) in *.
  split; [exact Ht|]. split; [exact Hl|]. split.
  - unfold requestInterceptor.
    destruct (truthy (localStorage_token b)) as [token|] eqn:E; [|left; reflexivity].
    right. exists token. split; [|reflexivity].
    destruct Ht as [Ht|Ht].
    + rewrite Ht in E. discriminate.
    + rewrite <- Ht. unfold truthy in E.
      destruct (localStorage_token b) as [t|]; [|discriminate].
      destruct (String.eqb t ""); [discriminate|]. exact E.
  - intros a [[x ->]|[status ->]].
    + cbn [act]. repeat split.
    + cbn [act]. repeat split.
Qed.

Lemma store_and_localStorage_witness :
  let b := acts [SetToken "t1"; FetchUser (Rejected (Some 500))]
                (loaded string (Some "t0") (Resolved "alice")) in
  requestInterceptor (act (Logout (Resolved tt)) b) = None
  /\ st_token (store (act (Logout (Resolved tt)) b)) = None
  /\ st_user (store (act (Logout (Resolved tt)) b)) = None
  /\ isAuthenticated (store (act (Logout (Resolved tt)) b)) = false.
Proof.
  destruct (store_and_localStorage string (Some "t0") (Resolved "alice")
              [SetToken "t1"; FetchUser (Rejected (Some 500))]) as (_ & _ & _ & H).
  apply H. left. eexists. reflexivity.
Defined.

Lemma truthy_Some (x : option string) (s : string) :
  truthy x = Some s -> truthy (Some s) = Some s.
Proof.
  intros H. pose proof (truthy_nonempty x s H) as Hne.
  cbn [truthy]. apply String.eqb_neq in Hne. rewrite Hne. reflexivity.
Qed.

(** X24: the page that receives the login redirect.  It shows success
    exactly when the address carries no error, carries a token, and
    [/auth/me] answers; then the store and [localStorage] hold that token,
    the user is set and the move to the dashboard is scheduled.  When the
    address carries an error, nothing is touched, whatever token comes with
    it.  When [/auth/me] is rejected, for whatever reason, the token just
    stored is removed again from the store and from [localStorage]. *)
Theorem AuthCallback_outcomes (Profile : Type) (decodeURIComponent : string -> option string)
    (searchParams : SearchParams) (answer : Answer Profile) (b : Browser Profile) :
  let r := AuthCallback_handleCallback decodeURIComponent searchParams answer b in
  (cv_status (fst r) = status_success
   <-> truthy (param_message searchParams) = None
       /\ truthy (param_error searchParams) = None
       /\ exists token data,
            truthy (param_token searchParams) = Some token /\ answer = Resolved data)
  /\ (forall token data,
        cv_status (fst r) = status_success ->
        truthy (param_token searchParams) = Some token -> answer = Resolved data ->
        st_token (store (snd r)) = Some token
        /\ localStorage_token (snd r) = Some token
        /\ st_user (store (snd r)) = Some data
        /\ isAuthenticated (store (snd r)) = true
        /\ cv_navigates (fst r) = true)
  /\ (truthy (param_message searchParams) <> None \/ truthy (param_error searchParams) <> None ->
      cv_status (fst r) = status_error /\ snd r = b)
  /\ (forall status,
        truthy (param_message searchParams) = None ->
        truthy (param_error searchParams) = None ->
        truthy (param_token searchParams) <> None ->
        answer = Rejected status ->
        fst r = {| cv_status := status_error;
                   cv_errorMessage := "Failed to authenticate. Please try again.";
                   cv_navigates := false |}
        /\ st_token (store (snd r)) = None
        /\ localStorage_token (snd r) = None
        /\ isAuthenticated (store (snd r)) = false).
Proof.
  cbv zeta. unfold AuthCallback_handleCallback. cbv zeta.
  destruct (truthy (param_message searchParams)) as [m|] eqn:Hm.
  - rewrite (truthy_Some _ _ Hm).
    assert (Hv : forall v : CallbackView * Browser Profile,
              v = match decodeURIComponent m with
                  | Some text =>
                      ({| cv_status := status_error; cv_errorMessage := text;
                          cv_navigates := false |}, b)
                  | None =>
                      ({| cv_status := status_error; cv_errorMessage := "";
                          cv_navigates := false |}, b)
                  end ->
              cv_status (fst v) = status_error /\ snd v = b).
    { intros v ->. destruct (decodeURIComponent m); split; reflexivity. }
    destruct (Hv _ eq_refl) as [Hs Hb].
    split; [|split; [|split]].
    + rewrite Hs. split; [discriminate | intros [[=] _]].
    + rewrite Hs. discriminate.
    + intros _. split; assumption.
    + intros status [=].
  - destruct (truthy (param_error searchParams)) as [e|] eqn:He.
    + assert (Hv : forall v : CallbackView * Browser Profile,
                v = match decodeURIComponent e with
                    | Some text =>
                        ({| cv_status := status_error; cv_errorMessage := text;
                            cv_navigates := false |}, b)
                    | None =>
                        ({| cv_status := status_error; cv_errorMessage := "";
                            cv_navigates := false |}, b)
                    end ->
                cv_status (fst v) = status_error /\ snd v = b).
      { intros v ->. destruct (decodeURIComponent e); split; reflexivity. }
      destruct (Hv _ eq_refl) as [Hs Hb].
      split; [|split; [|split]].
      * rewrite Hs. split; [discriminate | intros (_ & [=] & _)].
      * rewrite Hs. discriminate.
      * intros _. split; assumption.
      * intros status _ [=].
    + destruct (truthy (param_token searchParams)) as [token|] eqn:Ht.
      * destruct answer as [data|status]; cbn [fetchUser fst snd cv_status].
        -- split; [|split; [|split]].
           ++ split; [intros _; repeat split; eauto | reflexivity].
           ++ intros token' data' _ [= <-] [= <-]. repeat split.
           ++ intros [H|H]; congruence.
           ++ intros status _ _ _ [=].
        -- split; [|split; [|split]].
           ++ split; [discriminate | intros (_ & _ & t & d & _ & [=])].
           ++ discriminate.
           ++ intros [H|H]; congruence.
           ++ intros status' _ _ _ _. repeat split.
      * cbn [fst snd cv_status]. split; [|split; [|split]].
        -- split; [discriminate | intros (_ & _ & t & d & [=] & _)].
        -- discriminate.
        -- intros [H|H]; congruence.
        -- intros status _ _ H. congruence.
Qed.

Lemma AuthCallback_outcomes_witness :
  let r := AuthCallback_handleCallback (fun s => Some s)
             {| param_token := Some "t1"; param_message := None; param_error := None |}
             (Rejected (A := string) None)
             (loaded string (Some "t0") (Resolved "alice")) in
  fst r = {| cv_status := status_error;
             cv_errorMessage := "Failed to authenticate. Please try again.";
             cv_navigates := false |}
  /\ st_token (store (snd r)) = None
  /\ localStorage_token (snd r) = None
  /\ isAuthenticated (store (snd r)) = false.
Proof.
  destruct (AuthCallback_outcomes string (fun s => Some s)
              {| param_token := Some "t1"; param_message := None; param_error := None |}
              (Rejected None) (loaded string (Some "t0") (Resolved "alice")))
    as (_ & _ & _ & H).
  apply (H None); try reflexivity. discriminate.
Defined.
